(** * Accessible portfolio script (script.js): model and verified properties

    The script decorates a static page: navigation dots that scroll to
    sections, an "active" dot that follows the scroll position, hover and
    focus effects on project cards, a typing animation with a skip button,
    a parallax background and screen-reader announcements.  It respects the
    reduced-motion preference read once into [prefersReducedMotion].

    The script is event driven: all of its state lives in the page (the
    element tree), in the timer table of the browser and in a few captured
    variables.  The model below keeps that shape: a [state] record for the
    page and the browser services the script uses, one function per function
    or listener of the script, and [dispatch] for one turn of the event
    loop. *)

From stdpp Require Import gmap strings list fin_maps pretty.
From Stdlib Require Import ZArith Ascii.

(** ** Elements *)

(** An element object is identified by a number; [heap] below maps it to the
    element's current content, whether it is attached to the page or not. *)
Abbreviation node := nat (only parsing).

Record element := Element {
  el_tag : string;
  el_attrs : gmap string string;   (* getAttribute, setAttribute, ... *)
  el_class : list string;          (* classList / className *)
  el_text : string;                (* textContent *)
  el_style : gmap string string;   (* the inline style, property by property *)
  el_offsetTop : Z;
  el_clientHeight : Z;
  el_parent : option node          (* parentNode, None when detached *)
}.

Definition blank_element (tag : string) : element :=
  Element tag ∅ [] "" ∅ 0 0 None.

#[global] Instance element_inhabited : Inhabited element :=
  populate (blank_element "").

Definition with_attrs (f : gmap string string → gmap string string) (e : element) : element :=
  Element (el_tag e) (f (el_attrs e)) (el_class e) (el_text e) (el_style e)
          (el_offsetTop e) (el_clientHeight e) (el_parent e).
Definition with_class (f : list string → list string) (e : element) : element :=
  Element (el_tag e) (el_attrs e) (f (el_class e)) (el_text e) (el_style e)
          (el_offsetTop e) (el_clientHeight e) (el_parent e).
Definition with_text (f : string → string) (e : element) : element :=
  Element (el_tag e) (el_attrs e) (el_class e) (f (el_text e)) (el_style e)
          (el_offsetTop e) (el_clientHeight e) (el_parent e).
Definition with_style (f : gmap string string → gmap string string) (e : element) : element :=
  Element (el_tag e) (el_attrs e) (el_class e) (el_text e) (f (el_style e))
          (el_offsetTop e) (el_clientHeight e) (el_parent e).
Definition with_parent (p : option node) (e : element) : element :=
  Element (el_tag e) (el_attrs e) (el_class e) (el_text e) (el_style e)
          (el_offsetTop e) (el_clientHeight e) p.

(** ** Timers, listeners and captured variables *)

(** The functions the script hands to setTimeout, setInterval and
    requestAnimationFrame, each with the values its closure captured. *)
Inductive callback :=
| CbUpdateNav                         (* scroll throttle, line 62 *)
| CbRemoveTabindex (section : node)   (* navigateToSection, line 49 *)
| CbStartTyping                       (* initTypingEffect, line 171 *)
| CbTypeWriter                        (* typeWriter, started at line 172 *)
| CbRemoveAnnouncement (a : node)     (* announceToScreenReader, line 254 *)
| CbParallaxFrame.                    (* initParallaxEffect, line 225 *)

Record timer := Timer {
  tm_id : positive;     (* timer handles are greater than zero *)
  tm_repeat : bool;     (* setInterval rather than setTimeout *)
  tm_delay : nat;       (* milliseconds *)
  tm_due : nat;         (* clock value from which it may fire *)
  tm_cb : callback
}.

Inductive target := TWindow | TNode (n : node) | TMotionQuery.

Inductive evtype :=
| EClick | EKeydown | EScroll | EMouseEnter | EMouseLeave | EFocus | EBlur | EChange.

(** The listener functions of the script. *)
Inductive handler :=
| HNavClick | HNavKeydown            (* lines 17 and 22 *)
| HScrollThrottle                    (* line 57 *)
| HCardEnter | HCardLeave | HCardFocus | HCardBlur   (* lines 111-140 *)
| HSkipClick                         (* line 176 *)
| HParallaxScroll                    (* line 223 *)
| HSkipLinkFocus | HSkipLinkBlur     (* lines 295 and 299 *)
| HMotionChange.                     (* line 271 *)

Record listener := Listener {
  ls_target : target;
  ls_type : evtype;
  ls_handler : handler
}.

#[global] Instance callback_eq_dec : EqDecision callback.
Proof. solve_decision. Defined.
#[global] Instance timer_eq_dec : EqDecision timer.
Proof. solve_decision. Defined.
#[global] Instance target_eq_dec : EqDecision target.
Proof. solve_decision. Defined.
#[global] Instance evtype_eq_dec : EqDecision evtype.
Proof. solve_decision. Defined.
#[global] Instance handler_eq_dec : EqDecision handler.
Proof. solve_decision. Defined.
#[global] Instance listener_eq_dec : EqDecision listener.
Proof. solve_decision. Defined.

(** The variables shared by the closures of initTypingEffect: [subtitle],
    [text] and [skipButton] are constants, [i] and [typingInterval] are
    assigned by the closures.  initTypingEffect runs once, from the
    DOMContentLoaded listener, so there is one such environment. *)
Record typing_env := TypingEnv {
  ty_subtitle : node;
  ty_text : string;
  ty_skipButton : node;
  ty_i : nat;
  ty_interval : option positive   (* typingInterval; None is undefined *)
}.

Inductive exn := TypeError | NotFoundError.

(** ** The page and the browser services *)

Record state := State {
  heap : gmap nat element;          (* every element object *)
  next_node : node;                 (* next object createElement returns *)
  tree : list node;                 (* the attached elements, in tree order *)
  scrollY : Z;                      (* window.scrollY, window.pageYOffset *)
  activeElement : option node;
  scroll_log : list (node * string);   (* scrollIntoView calls: element, behavior *)
  removed : list node;              (* removeChild calls that took a child out *)
  timers : list timer;
  next_timer : positive;
  now : nat;                        (* clock, milliseconds *)
  raf : list callback;              (* pending requestAnimationFrame callbacks *)
  listeners : list listener;
  scrollTimeout : option positive;  (* line 56; None is undefined *)
  typing : option typing_env;
  ticking : bool;                   (* line 221 *)
  uncaught : list exn;              (* exceptions that reached the event loop *)
  reloaded : bool                   (* location.reload() was called *)
}.

Definition set_heap f (s : state) := State (f (heap s)) (next_node s) (tree s) (scrollY s) (activeElement s) (scroll_log s) (removed s) (timers s) (next_timer s) (now s) (raf s) (listeners s) (scrollTimeout s) (typing s) (ticking s) (uncaught s) (reloaded s).
Definition set_next_node f (s : state) := State (heap s) (f (next_node s)) (tree s) (scrollY s) (activeElement s) (scroll_log s) (removed s) (timers s) (next_timer s) (now s) (raf s) (listeners s) (scrollTimeout s) (typing s) (ticking s) (uncaught s) (reloaded s).
Definition set_tree f (s : state) := State (heap s) (next_node s) (f (tree s)) (scrollY s) (activeElement s) (scroll_log s) (removed s) (timers s) (next_timer s) (now s) (raf s) (listeners s) (scrollTimeout s) (typing s) (ticking s) (uncaught s) (reloaded s).
Definition set_scrollY f (s : state) := State (heap s) (next_node s) (tree s) (f (scrollY s)) (activeElement s) (scroll_log s) (removed s) (timers s) (next_timer s) (now s) (raf s) (listeners s) (scrollTimeout s) (typing s) (ticking s) (uncaught s) (reloaded s).
Definition set_activeElement f (s : state) := State (heap s) (next_node s) (tree s) (scrollY s) (f (activeElement s)) (scroll_log s) (removed s) (timers s) (next_timer s) (now s) (raf s) (listeners s) (scrollTimeout s) (typing s) (ticking s) (uncaught s) (reloaded s).
Definition set_scroll_log f (s : state) := State (heap s) (next_node s) (tree s) (scrollY s) (activeElement s) (f (scroll_log s)) (removed s) (timers s) (next_timer s) (now s) (raf s) (listeners s) (scrollTimeout s) (typing s) (ticking s) (uncaught s) (reloaded s).
Definition set_removed f (s : state) := State (heap s) (next_node s) (tree s) (scrollY s) (activeElement s) (scroll_log s) (f (removed s)) (timers s) (next_timer s) (now s) (raf s) (listeners s) (scrollTimeout s) (typing s) (ticking s) (uncaught s) (reloaded s).
Definition set_timers f (s : state) := State (heap s) (next_node s) (tree s) (scrollY s) (activeElement s) (scroll_log s) (removed s) (f (timers s)) (next_timer s) (now s) (raf s) (listeners s) (scrollTimeout s) (typing s) (ticking s) (uncaught s) (reloaded s).
Definition set_next_timer f (s : state) := State (heap s) (next_node s) (tree s) (scrollY s) (activeElement s) (scroll_log s) (removed s) (timers s) (f (next_timer s)) (now s) (raf s) (listeners s) (scrollTimeout s) (typing s) (ticking s) (uncaught s) (reloaded s).
Definition set_now f (s : state) := State (heap s) (next_node s) (tree s) (scrollY s) (activeElement s) (scroll_log s) (removed s) (timers s) (next_timer s) (f (now s)) (raf s) (listeners s) (scrollTimeout s) (typing s) (ticking s) (uncaught s) (reloaded s).
Definition set_raf f (s : state) := State (heap s) (next_node s) (tree s) (scrollY s) (activeElement s) (scroll_log s) (removed s) (timers s) (next_timer s) (now s) (f (raf s)) (listeners s) (scrollTimeout s) (typing s) (ticking s) (uncaught s) (reloaded s).
Definition set_listeners f (s : state) := State (heap s) (next_node s) (tree s) (scrollY s) (activeElement s) (scroll_log s) (removed s) (timers s) (next_timer s) (now s) (raf s) (f (listeners s)) (scrollTimeout s) (typing s) (ticking s) (uncaught s) (reloaded s).
Definition set_scrollTimeout f (s : state) := State (heap s) (next_node s) (tree s) (scrollY s) (activeElement s) (scroll_log s) (removed s) (timers s) (next_timer s) (now s) (raf s) (listeners s) (f (scrollTimeout s)) (typing s) (ticking s) (uncaught s) (reloaded s).
Definition set_typing f (s : state) := State (heap s) (next_node s) (tree s) (scrollY s) (activeElement s) (scroll_log s) (removed s) (timers s) (next_timer s) (now s) (raf s) (listeners s) (scrollTimeout s) (f (typing s)) (ticking s) (uncaught s) (reloaded s).
Definition set_ticking f (s : state) := State (heap s) (next_node s) (tree s) (scrollY s) (activeElement s) (scroll_log s) (removed s) (timers s) (next_timer s) (now s) (raf s) (listeners s) (scrollTimeout s) (typing s) (f (ticking s)) (uncaught s) (reloaded s).
Definition set_uncaught f (s : state) := State (heap s) (next_node s) (tree s) (scrollY s) (activeElement s) (scroll_log s) (removed s) (timers s) (next_timer s) (now s) (raf s) (listeners s) (scrollTimeout s) (typing s) (ticking s) (f (uncaught s)) (reloaded s).
Definition set_reloaded f (s : state) := State (heap s) (next_node s) (tree s) (scrollY s) (activeElement s) (scroll_log s) (removed s) (timers s) (next_timer s) (now s) (raf s) (listeners s) (scrollTimeout s) (typing s) (ticking s) (uncaught s) (f (reloaded s)).

(** What a function of the script leaves behind: it returns, or it throws
    after the changes it made so far. *)
Inductive outcome :=
| Ok (s : state)
| Throw (e : exn) (s : state).

Definition bind (o : outcome) (k : state → outcome) : outcome :=
  match o with
  | Ok s => k s
  | Throw e s => Throw e s
  end.

Notation "'let!' s := o 'in' k" := (bind o (λ s, k))
  (at level 10, s name, o at level 100, k at level 200).

(** [list.forEach(f)]: stops at the first call that throws. *)
Fixpoint forEach {A} (f : A → state → outcome) (l : list A) (s : state) : outcome :=
  match l with
  | [] => Ok s
  | x :: l' => let! s' := f x s in forEach f l' s'
  end.

(** ** The element tree (DOM) *)

(** document.body *)
Definition body : node := 0.

Definition get (s : state) (n : node) : element := heap s !!! n.

Definition upd (n : node) (f : element → element) (s : state) : state :=
  set_heap (λ h, <[n := f (h !!! n)]> h) s.

Definition getAttribute (s : state) (n : node) (a : string) : option string :=
  el_attrs (get s n) !! a.

Definition hasAttribute (s : state) (n : node) (a : string) : bool :=
  bool_decide (is_Some (getAttribute s n a)).

Definition setAttribute (n : node) (a v : string) : state → state :=
  upd n (with_attrs (insert a v)).

Definition removeAttribute (n : node) (a : string) : state → state :=
  upd n (with_attrs (delete a)).

(** [n.style.p = v] *)
Definition set_style (n : node) (p v : string) : state → state :=
  upd n (with_style (insert p v)).

(** [n.style.p]: the empty string when the property is not set *)
Definition get_style (s : state) (n : node) (p : string) : string :=
  default "" (el_style (get s n) !! p).

(** [n.style.cssText = ...], given as the declarations of the text *)
Definition set_cssText (n : node) (decls : list (string * string)) : state → state :=
  upd n (with_style (λ _, list_to_map decls)).

(** [n.textContent = v], for an element that holds text only *)
Definition set_textContent (n : node) (v : string) : state → state :=
  upd n (with_text (λ _, v)).

Definition textContent (s : state) (n : node) : string := el_text (get s n).

(** [n.classList.toggle(c, force)] *)
Definition classList_toggle (n : node) (c : string) (force : bool) : state → state :=
  upd n (with_class (λ cl,
    if force then (if bool_decide (c ∈ cl) then cl else cl ++ [c])
    else filter (λ x, x ≠ c) cl)).

Definition has_class (s : state) (c : string) (n : node) : bool :=
  bool_decide (c ∈ el_class (get s n)).

(** [document.querySelectorAll(sel)] and [document.querySelector(sel)] for
    the selectors the script uses, a dot and a class name. *)
Definition querySelectorAll (s : state) (sel : string) : list node :=
  match sel with
  | String "."%char c => filter (λ n, has_class s c n = true) (tree s)
  | _ => []
  end.

Definition querySelector (s : state) (sel : string) : option node :=
  head (querySelectorAll s sel).

(** A value handed to a parameter of type DOMString, or placed in a template
    literal, is converted to a string: null becomes "null". *)
Definition ToString (v : option string) : string := default "null" v.

(** [document.getElementById(id)]: the first attached element with that id;
    an empty id attribute gives the element no id. *)
Definition getElementById (s : state) (id : string) : option node :=
  if bool_decide (id = "") then None
  else List.find (λ n, bool_decide (getAttribute s n "id" = Some id)) (tree s).

(** [document.createElement(tag)] *)
Definition createElement (tag : string) (s : state) : node * state :=
  let n := next_node s in
  (n, set_next_node S (set_heap (insert n (blank_element tag)) s)).

Definition detach (child : node) (s : state) : state :=
  set_tree (filter (λ n, n ≠ child)) (upd child (with_parent None) s).

(** [document.body.appendChild(child)]: the body is the last subtree of the
    page, so its new last child is last in tree order. *)
Definition body_appendChild (child : node) (s : state) : state :=
  set_tree (λ t, t ++ [child]) (upd child (with_parent (Some body)) (detach child s)).

(** [document.body.insertBefore(child, document.body.firstChild)]; an empty
    body has firstChild null, and insertBefore then appends. *)
Fixpoint insert_before_first (P : node → bool) (x : node) (t : list node) : list node :=
  match t with
  | [] => [x]
  | y :: t' => if P y then x :: y :: t' else y :: insert_before_first P x t'
  end.

Definition body_insertFirst (child : node) (s : state) : state :=
  let s1 := detach child s in
  set_tree (insert_before_first
              (λ n, bool_decide (el_parent (get s1 n) = Some body)) child)
           (upd child (with_parent (Some body)) s1).

(** [parent.removeChild(child)]: NotFoundError unless [child] is a child of
    [parent]. *)
Definition removeChild (parent child : node) (s : state) : outcome :=
  if bool_decide (el_parent (get s child) = Some parent)
  then Ok (set_removed (λ r, r ++ [child]) (detach child s))
  else Throw NotFoundError s.

(** [n.scrollIntoView({behavior, block: 'start'})] is recorded; the scroll
    events it causes are events of their own. *)
Definition scrollIntoView (n : node) (behavior : string) : state → state :=
  set_scroll_log (λ l, l ++ [(n, behavior)]).

(** [n.focus()]; the focus and blur events it causes are events of their
    own. *)
Definition focus (n : node) : state → state :=
  set_activeElement (λ _, Some n).

Definition addEventListener (t : target) (e : evtype) (h : handler) : state → state :=
  set_listeners (λ l, l ++ [Listener t e h]).

(** ** Timers *)

Definition setTimeout (cb : callback) (delay : nat) (s : state) : positive * state :=
  let id := next_timer s in
  (id, set_next_timer Pos.succ
         (set_timers (λ l, l ++ [Timer id false delay (now s + delay) cb]) s)).

Definition setInterval (cb : callback) (delay : nat) (s : state) : positive * state :=
  let id := next_timer s in
  (id, set_next_timer Pos.succ
         (set_timers (λ l, l ++ [Timer id true delay (now s + delay) cb]) s)).

(** clearTimeout and clearInterval share the timer table; undefined (and any
    number that is no timer) clears nothing. *)
Definition clearTimer (h : option positive) : state → state :=
  set_timers (λ l, match h with
                   | Some id => filter (λ t, tm_id t ≠ id) l
                   | None => l
                   end).

Definition requestAnimationFrame (cb : callback) : state → state :=
  set_raf (λ l, l ++ [cb]).

(** ** Strings *)

(** [s.charAt(i)]: the character at [i] as a string, empty out of range. *)
Definition charAt (s : string) (i : nat) : string :=
  match String.get i s with
  | Some c => String c ""
  | None => ""
  end.

(** toUpperCase on one character, for the letters a to z; the section names
    of the page are plain ASCII words. *)
Definition upper (c : Ascii.ascii) : Ascii.ascii :=
  let n := Ascii.nat_of_ascii c in
  if (97 <=? n) && (n <=? 122) then Ascii.ascii_of_nat (n - 32) else c.

(** [s.charAt(0).toUpperCase() + s.slice(1)] *)
Definition capitalize (s : string) : string :=
  match s with
  | EmptyString => ""
  | String c r => String (upper c) r
  end.

(** The text of the number [y * 0.5] for a whole number [y], as a template
    literal prints it: "12", "12.5", "-0.5". *)
Definition half_to_string (y : Z) : string :=
  (if (y <? 0)%Z then "-" else "") +:+ pretty (Z.abs y / 2)%Z
    +:+ (if Z.odd y then ".5" else "").

(** ** The script *)

Section Script.

(** Line 3: the reduced-motion preference, read once when the script loads. *)
Variable prefersReducedMotion : bool.

(** *** Screen reader announcements (lines 238-257) *)

Definition announceToScreenReader (message : string) (s : state) : state :=
  let '(announcement, s) := createElement "div" s in
  let s := setAttribute announcement "aria-live" "polite" s in
  let s := setAttribute announcement "aria-atomic" "true" s in
  let s := set_cssText announcement
             [("position", "absolute"); ("left", "-10000px"); ("width", "1px");
              ("height", "1px"); ("overflow", "hidden")] s in
  let s := set_textContent announcement message s in
  let s := body_appendChild announcement s in
  (setTimeout (CbRemoveAnnouncement announcement) 1000 s).2.

(** The function scheduled at line 254. *)
Definition removeAnnouncement (announcement : node) (s : state) : outcome :=
  removeChild body announcement s.

(** *** Navigation (lines 30-53 and 67-98) *)

Definition navigateToSection (element : node) (s : state) : state :=
  let sectionId := getAttribute s element "data-section" in
  match getElementById s (ToString sectionId) with
  | Some section =>
      let s := announceToScreenReader
                 ("Navigating to " +:+ ToString sectionId +:+ " section") s in
      let s := scrollIntoView section
                 (if prefersReducedMotion then "auto" else "smooth") s in
      let s := setAttribute section "tabindex" "-1" s in
      let s := focus section s in
      (setTimeout (CbRemoveTabindex section) 100 s).2
  | None => s
  end.

Definition sections : list string :=
  ["header"; "about"; "skills"; "projects"; "experience"].

(** The first loop of updateActiveNavigation (lines 71-81): the value of
    [current] after it. *)
Definition current_section (s : state) : string :=
  fold_left
    (λ current sectionId,
       match getElementById s sectionId with
       | Some section =>
           let sectionTop := el_offsetTop (get s section) in
           if (scrollY s >=? sectionTop - 200)%Z then sectionId else current
       | None => current
       end)
    sections "".

(** The body of the second loop (lines 83-97); [sectionName.charAt] throws
    when the dot has no data-section attribute. *)
Definition update_dot (current : string) (dot : node) (s : state) : outcome :=
  let isActive := bool_decide (getAttribute s dot "data-section" = Some current) in
  let s := classList_toggle dot "active" isActive s in
  let s := setAttribute dot "aria-current" (if isActive then "true" else "false") s in
  match getAttribute s dot "data-section" with
  | Some sectionName =>
      let capitalizedName := capitalize sectionName in
      let label := if isActive then "Current section: " +:+ capitalizedName
                   else "Navigate to " +:+ capitalizedName +:+ " section" in
      Ok (setAttribute dot "aria-label" label s)
  | None => Throw TypeError s
  end.

Definition updateActiveNavigation (s : state) : outcome :=
  let navDots := querySelectorAll s ".nav-dot" in
  let current := current_section s in
  forEach (update_dot current) navDots s.

(** *** Project cards (lines 111-140) *)

Definition lifted : string := "translateY(-10px) rotateX(5deg)".
Definition rest : string := "translateY(0) rotateX(0deg)".

Definition card_mouseenter (this : node) (s : state) : state :=
  if negb prefersReducedMotion then
    let s := set_style this "transform" lifted s in
    set_style this "transition" "transform 0.3s ease" s
  else s.

Definition card_mouseleave (this : node) (s : state) : state :=
  if negb prefersReducedMotion then set_style this "transform" rest s else s.

Definition card_focus (this : node) (s : state) : state :=
  let s := if negb prefersReducedMotion then
             let s := set_style this "transform" lifted s in
             set_style this "transition" "transform 0.3s ease" s
           else s in
  let s := set_style this "outline" "2px solid #007acc" s in
  set_style this "outlineOffset" "2px" s.

Definition card_blur (this : node) (s : state) : state :=
  let s := if negb prefersReducedMotion then set_style this "transform" rest s
           else s in
  set_style this "outline" "none" s.

(** *** Typing effect (lines 144-215) *)

Definition createSkipAnimationButton (s : state) : node * state :=
  let '(button, s) := createElement "button" s in
  let s := set_textContent button "Skip animation" s in
  let s := upd button (with_class (λ _, ["skip-animation-btn"])) s in
  let s := setAttribute button "aria-label" "Skip typing animation" s in
  let s := set_cssText button
             [("position", "absolute"); ("top", "10px"); ("right", "10px");
              ("padding", "8px 12px"); ("background", "rgba(0, 0, 0, 0.7)");
              ("color", "white"); ("border", "none"); ("border-radius", "4px");
              ("cursor", "pointer"); ("font-size", "14px"); ("z-index", "1000")] s in
  (button, body_appendChild button s).

Definition removeSkipButton (button : node) (s : state) : outcome :=
  match el_parent (get s button) with
  | Some parentNode => removeChild parentNode button s
  | None => Ok s
  end.

Definition set_i (i : nat) (env : typing_env) : typing_env :=
  TypingEnv (ty_subtitle env) (ty_text env) (ty_skipButton env) i (ty_interval env).

Definition set_interval (h : option positive) (env : typing_env) : typing_env :=
  TypingEnv (ty_subtitle env) (ty_text env) (ty_skipButton env) (ty_i env) h.

(** typeWriter, lines 159-168 *)
Definition typeWriter (s : state) : outcome :=
  match typing s with
  | Some env =>
      let subtitle := ty_subtitle env in
      if ty_i env <? String.length (ty_text env) then
        let s := set_textContent subtitle
                   (textContent s subtitle +:+ charAt (ty_text env) (ty_i env)) s in
        Ok (set_typing (fmap (set_i (S (ty_i env)))) s)
      else
        let s := clearTimer (ty_interval env) s in
        let! s := removeSkipButton (ty_skipButton env) s in
        Ok (removeAttribute subtitle "aria-live" s)
  | None => Ok s
  end.

(** The function scheduled at line 171. *)
Definition startTyping (s : state) : state :=
  let '(id, s) := setInterval CbTypeWriter 50 s in
  set_typing (fmap (set_interval (Some id))) s.

(** The click listener of the skip button, lines 176-181. *)
Definition skip_click (s : state) : outcome :=
  match typing s with
  | Some env =>
      let s := clearTimer (ty_interval env) s in
      let s := set_textContent (ty_subtitle env) (ty_text env) s in
      let! s := removeSkipButton (ty_skipButton env) s in
      Ok (removeAttribute (ty_subtitle env) "aria-live" s)
  | None => Ok s
  end.

Definition initTypingEffect (s : state) : state :=
  match querySelector s ".subtitle" with
  | None => s
  | Some subtitle =>
      let text := textContent s subtitle in
      let '(skipButton, s) := createSkipAnimationButton s in
      if negb prefersReducedMotion then
        let s := set_textContent subtitle "" s in
        let s := setAttribute subtitle "aria-live" "polite" s in
        let s := set_typing (λ _, Some (TypingEnv subtitle text skipButton 0 None)) s in
        let s := (setTimeout CbStartTyping 1000 s).2 in
        addEventListener (TNode skipButton) EClick HSkipClick s
      else
        set_textContent subtitle text s
  end.

(** *** Parallax (lines 218-235) *)

Definition initParallaxEffect (s : state) : state :=
  if prefersReducedMotion then s
  else
    let s := set_ticking (λ _, false) s in
    addEventListener TWindow EScroll HParallaxScroll s.

Definition parallax_scroll (s : state) : state :=
  if negb (ticking s) then
    let s := requestAnimationFrame CbParallaxFrame s in
    set_ticking (λ _, true) s
  else s.

Definition parallax_frame (s : state) : state :=
  let scrolled := scrollY s in
  let s := set_style body "backgroundPosition"
             ("center " +:+ half_to_string scrolled +:+ "px") s in
  set_ticking (λ _, false) s.

(** *** The scroll throttle (lines 56-65) *)

Definition scroll_throttle (s : state) : state :=
  let s := match scrollTimeout s with
           | Some id => clearTimer (Some id) s
           | None => s
           end in
  let '(id, s) := setTimeout CbUpdateNav 16 s in
  set_scrollTimeout (λ _, Some id) s.

(** *** Skip link (lines 277-304) *)

Definition addSkipToContentLink (s : state) : state :=
  let '(skipLink, s) := createElement "a" s in
  let s := setAttribute skipLink "href" "#main-content" s in
  let s := set_textContent skipLink "Skip to main content" s in
  let s := upd skipLink (with_class (λ _, ["skip-to-content"])) s in
  let s := set_cssText skipLink
             [("position", "absolute"); ("top", "-40px"); ("left", "6px");
              ("background", "#000"); ("color", "#fff"); ("padding", "8px");
              ("text-decoration", "none"); ("border-radius", "4px");
              ("z-index", "9999"); ("transition", "top 0.3s")] s in
  let s := addEventListener (TNode skipLink) EFocus HSkipLinkFocus s in
  let s := addEventListener (TNode skipLink) EBlur HSkipLinkBlur s in
  body_insertFirst skipLink s.

(** *** Listeners and callbacks *)

Definition this_of (t : target) : node :=
  match t with
  | TNode n => n
  | _ => body
  end.

(** One listener called on an event at the target it was added to; [key] is
    the [key] of a keyboard event. *)
Definition run_handler (h : handler) (t : target) (key : string) (s : state) : outcome :=
  let this := this_of t in
  match h with
  | HNavClick => Ok (navigateToSection this s)
  | HNavKeydown =>
      if bool_decide (key = "Enter") || bool_decide (key = " ")
      then Ok (navigateToSection this s)
      else Ok s
  | HScrollThrottle => Ok (scroll_throttle s)
  | HCardEnter => Ok (card_mouseenter this s)
  | HCardLeave => Ok (card_mouseleave this s)
  | HCardFocus => Ok (card_focus this s)
  | HCardBlur => Ok (card_blur this s)
  | HSkipClick => skip_click s
  | HParallaxScroll => Ok (parallax_scroll s)
  | HSkipLinkFocus => Ok (set_style this "top" "6px" s)
  | HSkipLinkBlur => Ok (set_style this "top" "-40px" s)
  | HMotionChange => Ok (set_reloaded (λ _, true) s)
  end.

Definition run_callback (cb : callback) (s : state) : outcome :=
  match cb with
  | CbUpdateNav => updateActiveNavigation s
  | CbRemoveTabindex section => Ok (removeAttribute section "tabindex" s)
  | CbStartTyping => Ok (startTyping s)
  | CbTypeWriter => typeWriter s
  | CbRemoveAnnouncement a => removeAnnouncement a s
  | CbParallaxFrame => Ok (parallax_frame s)
  end.

(** *** Loading the page *)

(** Lines 6-28, for one dot; [sectionId.charAt] throws when the dot has no
    data-section attribute. *)
Definition init_nav_dot (dot : node) (s : state) : outcome :=
  let s := setAttribute dot "role" "button" s in
  let s := setAttribute dot "tabindex" "0" s in
  match getAttribute s dot "data-section" with
  | Some sectionId =>
      let sectionName := capitalize sectionId in
      let s := setAttribute dot "aria-label"
                 ("Navigate to " +:+ sectionName +:+ " section") s in
      let s := addEventListener (TNode dot) EClick HNavClick s in
      Ok (addEventListener (TNode dot) EKeydown HNavKeydown s)
  | None => Throw TypeError s
  end.

(** Lines 101-141, for one card. *)
Definition init_card (card : node) (s : state) : state :=
  let s := if negb (hasAttribute s card "tabindex")
           then setAttribute card "tabindex" "0" s else s in
  let s := setAttribute card "role" "article" s in
  let s := addEventListener (TNode card) EMouseEnter HCardEnter s in
  let s := addEventListener (TNode card) EMouseLeave HCardLeave s in
  let s := addEventListener (TNode card) EFocus HCardFocus s in
  addEventListener (TNode card) EBlur HCardBlur s.

(** The statements of the script in order; the listener of line 260 is
    [on_DOMContentLoaded]. *)
Definition script (s : state) : outcome :=
  let! s := forEach init_nav_dot (querySelectorAll s ".nav-dot") s in
  let s := set_scrollTimeout (λ _, None) s in
  let s := addEventListener TWindow EScroll HScrollThrottle s in
  Ok (fold_left (λ s card, init_card card s) (querySelectorAll s ".project-card") s).

Definition on_DOMContentLoaded (s : state) : outcome :=
  let s := addSkipToContentLink s in
  let s := initTypingEffect s in
  let s := initParallaxEffect s in
  let! s := updateActiveNavigation s in
  Ok (addEventListener TMotionQuery EChange HMotionChange s).

(** ** The event loop *)

(** An exception that no handler catches is reported and the loop goes on. *)
Definition settle (o : outcome) : state :=
  match o with
  | Ok s => s
  | Throw e s => set_uncaught (λ l, l ++ [e]) s
  end.

(** The script runs, then the browser fires DOMContentLoaded; nothing
    listens for it when the script threw before line 260. *)
Definition page_load (s : state) : state :=
  match script s with
  | Ok s => settle (on_DOMContentLoaded s)
  | Throw e s => set_uncaught (λ l, l ++ [e]) s
  end.

Inductive event :=
| EvClick (n : node)
| EvKeydown (n : node) (key : string)
| EvMouseEnter (n : node)
| EvMouseLeave (n : node)
| EvFocus (n : node)
| EvBlur (n : node)
| EvScroll (y : Z)            (* the page is scrolled to offset y *)
| EvMotionChange              (* the reduced-motion preference changes *)
| EvTimer (id : positive)        (* the timer id fires *)
| EvFrame                     (* a display refresh *)
| EvElapse (ms : nat).        (* time passes *)

(** The listeners for ([t], [e]) at the time the event is dispatched, called
    in the order they were added. *)
Definition deliver (t : target) (e : evtype) (key : string) (s : state) : state :=
  fold_left
    (λ s l, settle (run_handler (ls_handler l) t key s))
    (filter (λ l, ls_target l = t ∧ ls_type l = e) (listeners s)) s.

Definition fire_timer (id : positive) (s : state) : state :=
  match List.find (λ t, bool_decide (tm_id t = id)) (timers s) with
  | Some t =>
      if tm_due t <=? now s then
        let s :=
          if tm_repeat t then
            set_timers (map (λ t', if bool_decide (tm_id t' = id)
                                   then Timer id true (tm_delay t') (now s + tm_delay t') (tm_cb t')
                                   else t')) s
          else clearTimer (Some id) s in
        settle (run_callback (tm_cb t) s)
      else s
  | None => s
  end.

Definition run_frame (s : state) : state :=
  fold_left (λ s cb, settle (run_callback cb s)) (raf s) (set_raf (λ _, []) s).

(** One turn of the event loop.  After location.reload() the page is gone
    and its listeners and timers with it. *)
Definition dispatch (ev : event) (s : state) : state :=
  if reloaded s then s
  else
    match ev with
    | EvClick n => deliver (TNode n) EClick "" s
    | EvKeydown n key => deliver (TNode n) EKeydown key s
    | EvMouseEnter n => deliver (TNode n) EMouseEnter "" s
    | EvMouseLeave n => deliver (TNode n) EMouseLeave "" s
    | EvFocus n => deliver (TNode n) EFocus "" (set_activeElement (λ _, Some n) s)
    | EvBlur n => deliver (TNode n) EBlur "" (set_activeElement (λ _, None) s)
    | EvScroll y => deliver TWindow EScroll "" (set_scrollY (λ _, y) s)
    | EvMotionChange => deliver TMotionQuery EChange "" s
    | EvTimer id => fire_timer id s
    | EvFrame => run_frame s
    | EvElapse ms => set_now (λ t, t + ms) s
    end.

Definition run (evs : list event) (s : state) : state :=
  fold_left (λ s ev, dispatch ev s) evs s.

End Script.

(** ** Pages *)

(** A freshly parsed page: its elements in tree order, nothing scheduled,
    nothing listening, scrolled to the top. *)
Definition page (els : list (nat * element)) : state :=
  State (list_to_map els) (S (foldr (λ x m, Nat.max x.1 m) 0 els)) (els.*1)
        0 None [] [] [] 1 0 [] [] None None false [] false.

Definition section_el (id : string) (top : Z) : element :=
  Element "section" {[ "id" := id ]} [] "" ∅ top 600 (Some body).

Definition dot_el (target : string) : element :=
  Element "div" {[ "data-section" := target ]} ["nav-dot"] "" ∅ 0 0 (Some body).

Definition subtitle_el (text : string) : element :=
  Element "p" ∅ ["subtitle"] text ∅ 0 0 (Some body).

Definition card_el : element :=
  Element "div" ∅ ["project-card"] "" ∅ 0 0 (Some body).

(** A small portfolio page: five sections, their dots, a subtitle and two
    cards. *)
Definition portfolio : state :=
  page [ (0, blank_element "body");
         (1, section_el "header" 0); (11, subtitle_el "Hi");
         (2, section_el "about" 800); (3, section_el "skills" 1600);
         (4, section_el "projects" 2400); (12, card_el); (13, card_el);
         (5, section_el "experience" 3200);
         (6, dot_el "header"); (7, dot_el "about"); (8, dot_el "skills");
         (9, dot_el "projects"); (10, dot_el "experience") ].

(** The inline transform of an element, None when it has none. *)
Definition transform_of (s : state) (n : node) : option string :=
  el_style (get s n) !! "transform".

(** A navigation marker is active when it carries the class "active". *)
Definition marker_active (s : state) (dot : node) : bool :=
  has_class s "active" dot.

(** The target-section-id of a marker. *)
Definition marker_target (s : state) (dot : node) : option string :=
  getAttribute s dot "data-section".

(** A section id qualifies when the section exists and the scroll offset is
    at or beyond its top minus 200. *)
Definition qualifies (s : state) (id : string) : bool :=
  match getElementById s id with
  | Some section => (el_offsetTop (get s section) - 200 <=? scrollY s)%Z
  | None => false
  end.

(** The last qualifying section in the fixed order, if any. *)
Definition last_qualifying (s : state) : option string :=
  last (filter (λ id, qualifies s id = true) sections).

(** * Properties *)

(** Closed facts about concrete pages are settled by evaluation. *)
Ltac by_evaluation :=
  cbv zeta; split_and?; vm_compute;
  first [ reflexivity | discriminate | congruence ].

(** ** Reading the store *)

Lemma get_upd s n f m :
  get (upd n f s) m = if decide (n = m) then f (get s n) else get s m.
Proof.
  unfold get, upd; cbn. destruct (decide (n = m)) as [->|Hne].
  - by rewrite lookup_total_insert_eq.
  - by rewrite lookup_total_insert_ne.
Qed.

Lemma get_upd_eq s n f : get (upd n f s) n = f (get s n).
Proof. rewrite get_upd. by destruct (decide (n = n)). Qed.

Lemma get_upd_ne s n f m : n ≠ m → get (upd n f s) m = get s m.
Proof. intros. rewrite get_upd. by destruct (decide (n = m)). Qed.

Lemma getAttribute_setAttribute s n a v m b :
  getAttribute (setAttribute n a v s) m b
  = if decide (n = m ∧ a = b) then Some v else getAttribute s m b.
Proof.
  unfold getAttribute, setAttribute. rewrite get_upd.
  destruct (decide (n = m)) as [->|Hn]; cbn.
  - destruct (decide (a = b)) as [->|Ha].
    + rewrite lookup_insert_eq. by rewrite decide_True.
    + rewrite lookup_insert_ne by done. rewrite decide_False; [done | by intros [_ ?]].
  - rewrite decide_False; [done | by intros [? _]].
Qed.

(** ** Navigation to a section that does not exist (C7) *)

(** C7: for every id that identifies no section, Navigate(id) is a silent
    no-op: the page, the timers, the scroll record and the focus are what
    they were, so no announcement is emitted and no scroll is performed; the
    same holds through the click listener and the keyboard listener of the
    marker. *)
Theorem navigate_unknown_id_is_noop (prm : bool) (s : state) (dot : node) (id : string) :
  marker_target s dot = Some id →
  getElementById s id = None →
  navigateToSection prm dot s = s
  ∧ run_handler prm HNavClick (TNode dot) "" s = Ok s
  ∧ ∀ key, run_handler prm HNavKeydown (TNode dot) key s = Ok s.
Proof.
  intros Ht Hid.
  assert (Hnav : navigateToSection prm dot s = s).
  { unfold navigateToSection. unfold marker_target in Ht. rewrite Ht; cbn.
    by rewrite Hid. }
  split; [done|]. split.
  - cbn. by rewrite Hnav.
  - intros key. cbn. rewrite Hnav. by destruct (_ || _).
Qed.

(** A page whose marker points at a section that is not there. *)
Definition page_unknown_target : state :=
  page [ (0, blank_element "body"); (1, section_el "about" 800);
         (2, dot_el "about"); (3, dot_el "contact") ].

Lemma navigate_unknown_id_is_noop_witness :
  navigateToSection false 3 page_unknown_target = page_unknown_target
  ∧ run_handler false HNavClick (TNode 3) "" page_unknown_target
    = Ok page_unknown_target
  ∧ ∀ key, run_handler false HNavKeydown (TNode 3) key page_unknown_target
           = Ok page_unknown_target.
Proof.
  apply (navigate_unknown_id_is_noop false page_unknown_target 3 "contact").
  all: reflexivity.
Defined.

(** A page with an element whose id is the word "null", and a marker
    without a data-section attribute. *)
Definition page_id_null : state :=
  page [ (0, blank_element "body"); (1, section_el "null" 800);
         (2, Element "div" ∅ ["nav-dot"] "" ∅ 0 0 (Some body)) ].

(** Called on a marker without the attribute, navigateToSection reads null,
    the lookup converts it to the string "null", and an element with that id
    is found, announced, scrolled to and focused.  The listeners of the
    script never make this call: they are not added to such a marker (see
    the section on activating a marker without a target). *)
Example navigateToSection_null_lookup :
  let s := page_id_null in
  let s' := navigateToSection false 2 s in
  marker_target s 2 = None
  ∧ tree s' = tree s ++ [3]
  ∧ textContent s' 3 = "Navigating to null section"
  ∧ scroll_log s' = [(1, "smooth")]
  ∧ activeElement s' = Some 1.
Proof.
  by_evaluation.
Qed.

(** ** Project cards (C4) *)

Lemma style_set_style s n p v m q :
  el_style (get (set_style n p v s) m) !! q
  = if decide (n = m ∧ p = q) then Some v else el_style (get s m) !! q.
Proof.
  unfold set_style. rewrite get_upd.
  destruct (decide (n = m)) as [->|Hn]; cbn.
  - destruct (decide (p = q)) as [->|Hp].
    + rewrite lookup_insert_eq. by rewrite decide_True.
    + rewrite lookup_insert_ne by done. rewrite decide_False; [done | by intros [_ ?]].
  - rewrite decide_False; [done | by intros [? _]].
Qed.

Lemma transform_set_style_transform s n v :
  transform_of (set_style n "transform" v s) n = Some v.
Proof. unfold transform_of. rewrite style_set_style. by rewrite decide_True. Qed.

Lemma transform_set_style_other s n p v m :
  p ≠ "transform" → transform_of (set_style n p v s) m = transform_of s m.
Proof.
  intros Hp. unfold transform_of. rewrite style_set_style.
  rewrite decide_False; [done | by intros [_ ?]].
Qed.

Ltac card_unfold :=
  unfold card_mouseenter, card_mouseleave, card_focus, card_blur; cbn [negb].

Lemma card_leave_rest (card : node) (s : state) :
  transform_of (card_mouseleave false card s) card = Some rest.
Proof. card_unfold. apply transform_set_style_transform. Qed.

Lemma card_blur_rest (card : node) (s : state) :
  transform_of (card_blur false card s) card = Some rest.
Proof.
  card_unfold. rewrite transform_set_style_other by done.
  apply transform_set_style_transform.
Qed.

(** C4, as stated, fails: a card of a freshly loaded page has no inline
    transform; after pointer-enter and pointer-leave (or focus and blur) it
    has the transform "translateY(0) rotateX(0deg)".  A transform written in
    the markup is lost in the same way. *)
Lemma card_roundtrip_counterexample :
  let s := page_load false portfolio in
  let s1 := run false [EvMouseEnter 12; EvMouseLeave 12] s in
  let s2 := run false [EvFocus 13; EvBlur 13] s in
  transform_of s 12 = None
  ∧ transform_of s1 12 = Some "translateY(0) rotateX(0deg)"
  ∧ get_style s 12 "transform" ≠ get_style s1 12 "transform"
  ∧ transform_of s 13 = None
  ∧ transform_of s2 13 = Some "translateY(0) rotateX(0deg)"
  ∧ let t := set_style 12 "transform" "rotate(3deg)" s in
    transform_of (card_mouseleave false 12 (card_mouseenter false 12 t)) 12
    ≠ transform_of t 12.
Proof. by_evaluation. Qed.

(** C4, amended: with Motion Preference false, pointer-enter or focus
    followed by pointer-leave or blur leaves the card's inline transform at
    the fixed value "translateY(0) rotateX(0deg)", whatever it was before;
    so the round trip gives back the pre-enter transform exactly when the
    card already had that value (from its first leave or blur on).  With
    Motion Preference true, none of the four listeners alters the transform
    of any element. *)
Theorem card_transform_after_leave (card : node) (s : state) :
  let leave_after_enter :=
    [ card_mouseleave false card (card_mouseenter false card s);
      card_blur false card (card_focus false card s);
      card_blur false card (card_mouseenter false card s);
      card_mouseleave false card (card_focus false card s) ] in
  Forall (λ s', transform_of s' card = Some rest) leave_after_enter
  ∧ Forall (λ s', transform_of s' card = transform_of s card
                  ↔ transform_of s card = Some rest) leave_after_enter
  ∧ Forall (λ s', ∀ n, transform_of s' n = transform_of s n)
      [ card_mouseenter true card s; card_mouseleave true card s;
        card_focus true card s; card_blur true card s ].
Proof.
  cbv zeta.
  assert (H1 : Forall (λ s', transform_of s' card = Some rest)
                 [ card_mouseleave false card (card_mouseenter false card s);
                   card_blur false card (card_focus false card s);
                   card_blur false card (card_mouseenter false card s);
                   card_mouseleave false card (card_focus false card s) ]).
  { repeat constructor; auto using card_leave_rest, card_blur_rest. }
  split; [exact H1|]. split.
  - eapply Forall_impl; [exact H1|]. cbn. intros s' ->. split; congruence.
  - repeat constructor; intros n; card_unfold;
      by rewrite ?transform_set_style_other.
Qed.

Lemma card_transform_after_leave_witness :
  let s := page_load false portfolio in
  transform_of (card_mouseleave false 12 (card_mouseenter false 12 s)) 12
  = Some rest.
Proof.
  cbv zeta.
  pose proof (card_transform_after_leave 12 (page_load false portfolio)) as [H _].
  cbv zeta in H. by inversion H.
Defined.

(** ** Typing effect under reduced motion (C2) *)

(** Whatever the page, under reduced motion initTypingEffect on a page with
    a subtitle is createSkipAnimationButton followed by writing the text
    back: the button is made and appended before the preference is looked
    at. *)
Lemma initTypingEffect_reduced_motion (s : state) (subtitle : node) :
  querySelector s ".subtitle" = Some subtitle →
  initTypingEffect true s
  = set_textContent subtitle (textContent s subtitle)
      (createSkipAnimationButton s).2.
Proof. intros Hq. unfold initTypingEffect. by rewrite Hq. Qed.

(** C2 on the portfolio page with Motion Preference true: the subtitle keeps
    its full text and no timer is started, but a skip control is created: a
    button "Skip animation" is appended to the body, nothing listens on it,
    and it is still there after its own click and after time has passed. *)
Theorem reduced_motion_creates_skip_button :
  let s := page_load true portfolio in
  textContent s 11 = "Hi"
  ∧ timers s = []
  ∧ typing s = None
  ∧ tree s = [0; 14; 1; 11; 2; 3; 4; 12; 13; 5; 6; 7; 8; 9; 10; 15]
  ∧ el_tag (get s 15) = "button"
  ∧ textContent s 15 = "Skip animation"
  ∧ el_parent (get s 15) = Some body
  ∧ tree (initTypingEffect true portfolio) = tree portfolio ++ [14]
  ∧ filter (λ l, ls_target l = TNode 15) (listeners s) = []
  ∧ 15 ∈ tree (run true [EvClick 15; EvElapse 5000; EvFrame] s).
Proof. cbv zeta. split_and!; [by_evaluation..|]. vm_compute. set_solver. Qed.

(** ** Skipping the typing effect before it starts (C3) *)

(** C3 on the portfolio page with Motion Preference false, skip activated
    at emitted-count 0 during the start-up delay: clearInterval receives
    undefined, the start-up timeout still creates the interval one second
    later, the per-character timer fires after the skip, and the displayed
    text ends as the full text followed by the full text again. *)
Theorem skip_before_start_types_again :
  let s0 := page_load false portfolio in
  let s1 := run false [EvElapse 400; EvClick 15] s0 in
  let s2 := run false [EvElapse 600; EvTimer 1] s1 in
  let s3 := run false [EvElapse 50; EvTimer 2; EvElapse 50; EvTimer 2;
                       EvElapse 50; EvTimer 2] s2 in
  typing s0 = Some (TypingEnv 11 "Hi" 15 0 None)
  ∧ textContent s1 11 = "Hi"
  ∧ removed s1 = [15]
  ∧ timers s1 = [Timer 1 false 1000 1000 CbStartTyping]
  ∧ timers s2 = [Timer 2 true 50 1050 CbTypeWriter]
  ∧ textContent (run false [EvElapse 50; EvTimer 2] s2) 11 = "HiH"
  ∧ textContent s3 11 = "HiHi"
  ∧ timers s3 = []
  ∧ removed s3 = [15].
Proof. by_evaluation. Qed.

(** ** The two removals (lines 211-215 and 253-256) *)


(** The function of line 255 calls removeChild without a test of its own:
    in a state made by hand, where the announcement is pending and has been
    detached by other means, it throws NotFoundError.  The script has no
    statement that detaches an announcement other than line 255 itself, and
    no run of the page reaches such a state (see the section on removing a
    transient element). *)
Example removeAnnouncement_makes_no_test :
  let s := announceToScreenReader "Navigating to about section"
             (page_load false portfolio) in
  let gone := detach 16 s in
  timers s = [ Timer 1 false 1000 1000 CbStartTyping;
               Timer 2 false 1000 1000 (CbRemoveAnnouncement 16) ]
  ∧ removeAnnouncement 16 gone = Throw NotFoundError gone.
Proof. by_evaluation. Qed.

(** ** The active navigation marker (C1) *)

Lemma fold_left_last {A} (f : A → A → A) (q : A → bool) (l : list A) (init : A) :
  (∀ cur x, f cur x = if q x then x else cur) →
  fold_left f l init = default init (last (filter (λ x, q x = true) l)).
Proof.
  intros Hf. revert init. induction l as [|x l IH]; intros init; [done|].
  cbn [fold_left]. rewrite IH, filter_cons, Hf.
  destruct (q x) eqn:Hq.
  - rewrite decide_True by done. rewrite last_cons.
    by destruct (last _).
  - by rewrite decide_False by done.
Qed.

(** The first loop computes the last qualifying section, or the empty
    string. *)
Lemma current_section_last_qualifying (s : state) :
  current_section s = default "" (last_qualifying s).
Proof.
  unfold current_section, last_qualifying.
  apply fold_left_last. intros cur id. unfold qualifies.
  destruct (getElementById s id); [|done].
  by rewrite Z.geb_leb.
Qed.

Lemma get_classList_toggle s d c b n :
  el_attrs (get (classList_toggle d c b s) n) = el_attrs (get s n).
Proof.
  unfold classList_toggle. rewrite get_upd.
  by destruct (decide (d = n)) as [->|].
Qed.

Lemma has_class_toggle s d c b :
  has_class (classList_toggle d c b s) c d = b.
Proof.
  unfold has_class, classList_toggle. rewrite get_upd_eq. cbn.
  destruct b.
  - apply bool_decide_eq_true_2. case_bool_decide; set_solver.
  - apply bool_decide_eq_false_2. rewrite list_elem_of_filter. by intros [? _].
Qed.

Lemma class_setAttribute s d a v n :
  el_class (get (setAttribute d a v s) n) = el_class (get s n).
Proof.
  unfold setAttribute. rewrite get_upd. by destruct (decide (d = n)) as [->|].
Qed.

(** One round of the second loop on a dot that has a target. *)
Lemma update_dot_ok (cur : string) (d : node) (s : state) (t : string) :
  marker_target s d = Some t →
  ∃ s1, update_dot cur d s = Ok s1
    ∧ (∀ n, marker_target s1 n = marker_target s n)
    ∧ marker_active s1 d = bool_decide (t = cur)
    ∧ getAttribute s1 d "aria-current"
      = Some (if bool_decide (t = cur) then "true" else "false")
    ∧ (∀ n, n ≠ d → get s1 n = get s n).
Proof.
  intros Ht. unfold update_dot. unfold marker_target in Ht. rewrite Ht.
  assert (Hb : bool_decide (Some t = Some cur) = bool_decide (t = cur)).
  { apply bool_decide_ext. split; congruence. }
  rewrite Hb.
  rewrite getAttribute_setAttribute, decide_False by (by intros [_ ?]).
  unfold getAttribute at 1. rewrite get_classList_toggle.
  fold (getAttribute s d "data-section"). rewrite Ht.
  eexists. split; [done|]. split_and!.
  - intros n. unfold marker_target.
    rewrite !getAttribute_setAttribute, !decide_False by (by intros [_ ?]).
    unfold getAttribute. by rewrite get_classList_toggle.
  - unfold marker_active, has_class. rewrite !class_setAttribute.
    apply has_class_toggle.
  - rewrite getAttribute_setAttribute, decide_False by (by intros [_ ?]).
    rewrite getAttribute_setAttribute. by rewrite decide_True.
  - intros n Hn. unfold setAttribute, classList_toggle.
    by rewrite !get_upd_ne.
Qed.

(** The second loop on dots that all have a target: it returns, keeps every
    target, and leaves each dot active exactly when its target is
    [cur]. *)
Lemma forEach_update_dot (cur : string) (l : list node) (s : state) :
  Forall (λ d, is_Some (marker_target s d)) l →
  ∃ s', forEach (update_dot cur) l s = Ok s'
    ∧ (∀ n, marker_target s' n = marker_target s n)
    ∧ (∀ n, n ∉ l → get s' n = get s n)
    ∧ Forall (λ d, marker_active s' d = bool_decide (marker_target s d = Some cur)
                   ∧ getAttribute s' d "aria-current"
                     = Some (if marker_active s' d then "true" else "false")) l.
Proof.
  revert s. induction l as [|d l IH]; intros s Hall.
  - exists s. by split_and!.
  - apply Forall_cons in Hall as [[t Ht] Hall].
    destruct (update_dot_ok cur d s t Ht) as (s1 & Hs1 & Htg1 & Hact1 & Hcur1 & Hfr1).
    destruct (IH s1) as (s' & Hs' & Htg' & Hfr' & Hact').
    { eapply Forall_impl; [exact Hall|]. cbn. intros n. by rewrite Htg1. }
    exists s'. cbn [forEach]. rewrite Hs1. cbn [bind]. split_and!.
    + done.
    + intros n. by rewrite Htg', Htg1.
    + intros n Hn. apply not_elem_of_cons in Hn as [Hnd Hnl].
      by rewrite Hfr', Hfr1.
    + assert (Htail : Forall (λ d0, marker_active s' d0
                         = bool_decide (marker_target s d0 = Some cur)
                       ∧ getAttribute s' d0 "aria-current"
                         = Some (if marker_active s' d0 then "true" else "false")) l).
      { eapply Forall_impl; [exact Hact'|]. cbn. intros n. by rewrite Htg1. }
      constructor; [|exact Htail].
      destruct (decide (d ∈ l)) as [Hin|Hnin].
      * by apply (proj1 (Forall_forall _ _) Htail).
      * assert (Hget : get s' d = get s1 d) by by apply Hfr'.
        unfold marker_active, has_class, getAttribute in *.
        rewrite Hget, Hact1, Hcur1, Ht.
        split; [|done]. apply bool_decide_ext. split; congruence.
Qed.

Lemma NoDup_fmap_elem_inj {A B} (f : A → B) (l : list A) (x y : A) :
  NoDup (f <$> l) → x ∈ l → y ∈ l → f x = f y → x = y.
Proof.
  induction l as [|z l IH]; intros Hnd Hx Hy Hxy; [by apply elem_of_nil in Hx|].
  rewrite fmap_cons in Hnd. apply NoDup_cons in Hnd as [Hz Hnd].
  apply elem_of_cons in Hx as [->|Hx]; apply elem_of_cons in Hy as [->|Hy].
  - done.
  - exfalso. apply Hz. rewrite Hxy. by apply list_elem_of_fmap_2.
  - exfalso. apply Hz. rewrite <- Hxy. by apply list_elem_of_fmap_2.
  - by apply IH.
Qed.

(** C1: on a page whose markers each have a non-empty target, no two
    markers sharing one (one marker per section), for every scroll offset
    updateActiveNavigation returns and leaves a marker active exactly when
    its target is the last section, in the order header, about, skills,
    projects, experience, that exists and whose top minus 200 is at most the
    scroll offset; so at most one marker is active, and none when no section
    qualifies. *)
Theorem update_marks_last_qualifying (s : state) :
  let dots := querySelectorAll s ".nav-dot" in
  Forall (λ d, marker_target s d ≠ None ∧ marker_target s d ≠ Some "") dots →
  NoDup (marker_target s <$> dots) →
  ∃ s', updateActiveNavigation s = Ok s'
    ∧ (∀ d, d ∈ dots →
         marker_active s' d = true
         ↔ ∃ id, last_qualifying s = Some id ∧ marker_target s d = Some id)
    ∧ (∀ d1 d2, d1 ∈ dots → d2 ∈ dots →
         marker_active s' d1 = true → marker_active s' d2 = true → d1 = d2)
    ∧ (last_qualifying s = None → ∀ d, d ∈ dots → marker_active s' d = false).
Proof.
  intros dots Hall Hnd.
  destruct (forEach_update_dot (current_section s) dots s) as (s' & Hs' & _ & _ & Hact).
  { eapply Forall_impl; [exact Hall|]. cbn. intros d [Hsome _].
    by destruct (marker_target s d); [eexists|]. }
  rewrite Forall_forall in Hact, Hall.
  assert (Hiff : ∀ d, d ∈ dots →
            marker_active s' d = true
            ↔ ∃ id, last_qualifying s = Some id ∧ marker_target s d = Some id).
  { intros d Hd. destruct (Hact d Hd) as [-> _].
    rewrite bool_decide_eq_true, current_section_last_qualifying.
    destruct (Hall d Hd) as [_ Hne].
    destruct (last_qualifying s) as [q|]; cbn.
    - split; [intros ->; by exists q | intros (? & [= <-] & ->); done].
    - split; [intros H; by destruct Hne | intros (? & ? & _); done]. }
  exists s'. split_and!; [done | done | |].
  - intros d1 d2 Hd1 Hd2 H1 H2.
    apply Hiff in H1 as (id1 & Hq1 & Ht1); [|done].
    apply Hiff in H2 as (id2 & Hq2 & Ht2); [|done].
    apply (NoDup_fmap_elem_inj (marker_target s) dots); [done..|].
    congruence.
  - intros Hnone d Hd. apply not_true_is_false. intros Ha.
    apply Hiff in Ha as (id & Hq & _); [|done]. congruence.
Qed.

Lemma update_marks_last_qualifying_witness :
  let s := set_scrollY (λ _, 1500%Z) portfolio in
  ∃ s', updateActiveNavigation s = Ok s'
    ∧ (∀ d, d ∈ querySelectorAll s ".nav-dot" →
         marker_active s' d = true
         ↔ ∃ id, last_qualifying s = Some id ∧ marker_target s d = Some id)
    ∧ (∀ d1 d2, d1 ∈ querySelectorAll s ".nav-dot" →
         d2 ∈ querySelectorAll s ".nav-dot" →
         marker_active s' d1 = true → marker_active s' d2 = true → d1 = d2)
    ∧ (last_qualifying s = None →
       ∀ d, d ∈ querySelectorAll s ".nav-dot" → marker_active s' d = false).
Proof.
  apply (update_marks_last_qualifying (set_scrollY (λ _, 1500%Z) portfolio)).
  - compute_done.
  - compute_done.
Defined.

(** On the portfolio page scrolled to 1500 the marker of "skills" (top 1600)
    is the active one, and scrolled above every section none is. *)
Example update_marks_portfolio :
  last_qualifying (set_scrollY (λ _, 1500%Z) portfolio) = Some "skills"
  ∧ (marker_active (settle (updateActiveNavigation (set_scrollY (λ _, 1500%Z) portfolio))))
      <$> [6; 7; 8; 9; 10] = [false; false; true; false; false]
  ∧ last_qualifying (set_scrollY (λ _, (-300)%Z) portfolio) = None
  ∧ (marker_active (settle (updateActiveNavigation (set_scrollY (λ _, (-300)%Z) portfolio))))
      <$> [6; 7; 8; 9; 10] = [false; false; false; false; false].
Proof. by_evaluation. Qed.

(** ** Announcements (C9) *)

(** Element objects and timer handles in use are below the next ones to be
    handed out. *)
Definition nodes_below (s : state) : Prop :=
  Forall (λ n, n < next_node s) (tree s).

Definition timers_below (s : state) : Prop :=
  Forall (λ t, (tm_id t < next_timer s)%positive) (timers s).

Lemma filter_ne_below (a : nat) (l : list nat) :
  Forall (λ n, n < a) l → filter (λ n, n ≠ a) l = l.
Proof.
  induction 1 as [|x l Hx _ IH]; [done|].
  rewrite filter_cons, decide_True by lia. by rewrite IH.
Qed.

Lemma filter_ne_below_snoc (a : nat) (l : list nat) :
  Forall (λ n, n < a) l → filter (λ n, n ≠ a) (l ++ [a]) = l.
Proof.
  intros Hl. rewrite filter_app, filter_ne_below by done.
  rewrite filter_cons, decide_False by (by intros ?). apply app_nil_r.
Qed.

Lemma filter_timers_below (id : positive) (l : list timer) :
  Forall (λ t, (tm_id t < id)%positive) l → filter (λ t, tm_id t ≠ id) l = l.
Proof.
  induction 1 as [|x l Hx _ IH]; [done|].
  rewrite filter_cons, decide_True by lia. by rewrite IH.
Qed.

Lemma find_timer_below (id : positive) (l l' : list timer) (t : timer) :
  Forall (λ t, (tm_id t < id)%positive) l → tm_id t = id →
  List.find (λ t, bool_decide (tm_id t = id)) (l ++ t :: l') = Some t.
Proof.
  intros Hl Ht. induction Hl as [|x l Hx _ IH]; cbn.
  - by rewrite bool_decide_eq_true_2.
  - rewrite bool_decide_eq_false_2 by lia. done.
Qed.

(** What announceToScreenReader does to the page and to the timer table:
    [s1] is [s] after the announcement of [msg], made with the element [a]
    and the timer [id]. *)
Definition announced (msg : string) (s s1 : state) (a : node) (id : positive) : Prop :=
  tree s1 = tree s ++ [a]
  ∧ textContent s1 a = msg
  ∧ el_parent (get s1 a) = Some body
  ∧ getAttribute s1 a "aria-live" = Some "polite"
  ∧ timers s1 = timers s ++ [Timer id false 1000 (now s + 1000)
                                   (CbRemoveAnnouncement a)]
  ∧ next_node s1 = S a
  ∧ next_timer s1 = Pos.succ id
  ∧ now s1 = now s ∧ reloaded s1 = reloaded s ∧ uncaught s1 = uncaught s
  ∧ (∀ n, n ≠ a → get s1 n = get s n).

Lemma announce_effect (msg : string) (s : state) :
  nodes_below s →
  announced msg s (announceToScreenReader msg s) (next_node s) (next_timer s).
Proof.
  intros Hn. unfold announced, announceToScreenReader. cbn.
  split_and!; try done.
  - by rewrite filter_ne_below.
  - unfold textContent, get. cbn. by rewrite !lookup_total_insert_eq.
  - unfold get. cbn. by rewrite !lookup_total_insert_eq.
  - unfold getAttribute, get. cbn. by rewrite !lookup_total_insert_eq.
  - intros n Hne. unfold get. cbn. by rewrite !lookup_total_insert_ne.
Qed.

(** Firing the removal timer of an announcement that is the child of the
    body: not before its due time; from then on it takes the element out and
    the timer with it. *)
Lemma fire_removal (s : state) (l l' : list timer) (id : positive) (due : nat) (a : node) :
  timers s = l ++ Timer id false 1000 due (CbRemoveAnnouncement a) :: l' →
  Forall (λ t, (tm_id t < id)%positive) l →
  Forall (λ t, tm_id t ≠ id) l' →
  el_parent (get s a) = Some body →
  (now s < due → fire_timer id s = s)
  ∧ (due ≤ now s →
     let s2 := fire_timer id s in
     tree s2 = filter (λ n, n ≠ a) (tree s)
     ∧ timers s2 = l ++ l'
     ∧ el_parent (get s2 a) = None
     ∧ removed s2 = removed s ++ [a]
     ∧ uncaught s2 = uncaught s
     ∧ (∀ n, n ≠ a → get s2 n = get s n)).
Proof.
  intros Htm Hl Hl' Hp. unfold fire_timer.
  rewrite Htm, (find_timer_below id l l') by done. cbn [tm_due tm_repeat tm_cb].
  split.
  - intros Hlt. by rewrite (proj2 (Nat.leb_gt _ _)).
  - intros Hle. rewrite (proj2 (Nat.leb_le _ _)) by done.
    cbn [run_callback]. unfold removeAnnouncement, removeChild.
    assert (Hp' : el_parent (get (clearTimer (Some id) s) a) = Some body) by done.
    rewrite bool_decide_eq_true_2 by done. cbn.
    split_and!; try done.
    + rewrite Htm, filter_app, filter_timers_below by done.
      rewrite filter_cons, decide_False by (by intros ?).
      f_equal. clear Htm. induction Hl' as [|x l'' Hx _ IH]; [done|].
      by rewrite filter_cons, decide_True, IH.
    + unfold get. cbn. by rewrite lookup_total_insert_eq.
    + intros n Hne. unfold get. cbn. by rewrite lookup_total_insert_ne.
Qed.

Lemma dispatch_elapse prm ms s :
  reloaded s = false → dispatch prm (EvElapse ms) s = set_now (λ t, t + ms) s.
Proof. intros Hr. unfold dispatch. by rewrite Hr. Qed.

Lemma dispatch_timer prm id s :
  reloaded s = false → dispatch prm (EvTimer id) s = fire_timer id s.
Proof. intros Hr. unfold dispatch. by rewrite Hr. Qed.

(** One announcement: its removal is not early and leaves no residue. *)
Lemma announced_removal prm msg s s1 a id :
  Forall (λ n, n < a) (tree s) →
  Forall (λ t, (tm_id t < id)%positive) (timers s) →
  reloaded s = false →
  announced msg s s1 a id →
  (∀ ms, ms < 1000 →
     dispatch prm (EvTimer id) (dispatch prm (EvElapse ms) s1)
     = dispatch prm (EvElapse ms) s1)
  ∧ (∀ ms, 1000 ≤ ms →
       let s2 := dispatch prm (EvTimer id) (dispatch prm (EvElapse ms) s1) in
       tree s2 = tree s ∧ timers s2 = timers s
       ∧ el_parent (get s2 a) = None ∧ uncaught s2 = uncaught s).
Proof.
  intros Hbelow Htbelow Hr
    (Htree & Htext & Hpar & _ & Htm & Hnn & Hnt & Hnow & Hrel & Hunc & Hfr).
  assert (Hrel1 : reloaded s1 = false) by congruence.
  assert (Hfire : ∀ ms,
            dispatch prm (EvTimer id) (dispatch prm (EvElapse ms) s1)
            = fire_timer id (set_now (λ t, t + ms) s1)).
  { intros ms. rewrite dispatch_elapse by done. by apply dispatch_timer. }
  split.
  - intros ms Hms. rewrite Hfire, dispatch_elapse by done.
    edestruct (fire_removal (set_now (λ t, t + ms) s1) (timers s) [] id) as [Hearly _];
      [exact Htm | exact Htbelow | constructor | exact Hpar |].
    apply Hearly. cbn [now set_now]. lia.
  - intros ms Hms. cbv zeta. rewrite Hfire.
    edestruct (fire_removal (set_now (λ t, t + ms) s1) (timers s) [] id) as [_ Hlate];
      [exact Htm | exact Htbelow | constructor | exact Hpar |].
    destruct Hlate as (Htree2 & Htm2 & Hpar2 & _ & Hunc2 & _); [cbn [now set_now]; lia|].
    split_and!.
    + rewrite Htree2. cbn [tree set_now]. rewrite Htree. by apply filter_ne_below_snoc.
    + rewrite Htm2. apply app_nil_r.
    + done.
    + by rewrite Hunc2.
Qed.

(** Two announcements: each removal takes out its own element only. *)
Lemma announced_twice prm msg msg' s s1 s1'' a id ms :
  Forall (λ n, n < a) (tree s) →
  Forall (λ t, (tm_id t < id)%positive) (timers s) →
  reloaded s = false →
  announced msg s s1 a id →
  announced msg' s1 s1'' (S a) (Pos.succ id) →
  1000 ≤ ms →
  let s1' := dispatch prm (EvElapse ms) s1'' in
  let first_gone := dispatch prm (EvTimer id) s1' in
  let second_gone := dispatch prm (EvTimer (Pos.succ id)) s1' in
  tree s1' = tree s ++ [a; S a]
  ∧ textContent s1' a = msg ∧ textContent s1' (S a) = msg'
  ∧ tree first_gone = tree s ++ [S a] ∧ textContent first_gone (S a) = msg'
  ∧ timers first_gone
    = timers s ++ [Timer (Pos.succ id) false 1000 (now s + 1000)
                         (CbRemoveAnnouncement (S a))]
  ∧ tree second_gone = tree s ++ [a] ∧ textContent second_gone a = msg
  ∧ timers second_gone
    = timers s ++ [Timer id false 1000 (now s + 1000) (CbRemoveAnnouncement a)].
Proof.
  intros Hbelow Htbelow Hr
    (Htree & Htext & Hpar & _ & Htm & Hnn & Hnt & Hnow & Hrel & Hunc & Hfr)
    (Htree' & Htext' & Hpar' & _ & Htm' & Hnn' & Hnt' & Hnow' & Hrel' & Hunc' & Hfr')
    Hms s1' first_gone second_gone.
  rewrite Hnow in Htm'.
  assert (Hrel'' : reloaded s1'' = false) by congruence.
  assert (Haa : a ≠ S a) by lia.
  assert (Hpa : el_parent (get s1'' a) = Some body) by (by rewrite Hfr').
  assert (Hta : textContent s1'' a = msg) by (unfold textContent; by rewrite Hfr').
  assert (Hs1' : s1' = set_now (λ t, t + ms) s1'') by (by apply dispatch_elapse).
  clearbody s1'.
  assert (Htm1 : timers s1'
                 = timers s ++ Timer id false 1000 (now s + 1000) (CbRemoveAnnouncement a)
                     :: [Timer (Pos.succ id) false 1000 (now s + 1000)
                               (CbRemoveAnnouncement (S a))]).
  { rewrite Hs1'. cbn [timers set_now]. rewrite Htm', Htm. by rewrite <- app_assoc. }
  assert (Htm2 : timers s1'
                 = (timers s ++ [Timer id false 1000 (now s + 1000) (CbRemoveAnnouncement a)])
                     ++ Timer (Pos.succ id) false 1000 (now s + 1000)
                          (CbRemoveAnnouncement (S a)) :: []).
  { rewrite Htm1. by rewrite <- app_assoc. }
  assert (Htr1 : tree s1' = tree s ++ [a; S a]).
  { rewrite Hs1'. cbn [tree set_now]. rewrite Htree', Htree. by rewrite <- app_assoc. }
  assert (Hdue : now s + 1000 ≤ now s1').
  { rewrite Hs1'. cbn [now set_now]. rewrite Hnow', Hnow. lia. }
  assert (Hrel1' : reloaded s1' = false) by (by rewrite Hs1').
  assert (Hpa1 : el_parent (get s1' a) = Some body) by (by rewrite Hs1').
  assert (Hpa2 : el_parent (get s1' (S a)) = Some body) by (by rewrite Hs1').
  assert (Hta1 : textContent s1' a = msg) by (by rewrite Hs1').
  assert (Hta2 : textContent s1' (S a) = msg') by (by rewrite Hs1').
  assert (Hfirst : first_gone = fire_timer id s1') by (by apply dispatch_timer).
  assert (Hsecond : second_gone = fire_timer (Pos.succ id) s1')
    by (by apply dispatch_timer).
  clearbody first_gone second_gone. clear Hs1'.
  edestruct (fire_removal s1' (timers s)
               [Timer (Pos.succ id) false 1000 (now s + 1000)
                      (CbRemoveAnnouncement (S a))] id)
    as [_ Hlate1];
    [exact Htm1 | exact Htbelow | | exact Hpa1 |].
  { repeat constructor. cbn. lia. }
  destruct (Hlate1 Hdue) as (Ht1 & Htmr1 & _ & _ & _ & Hfr1).
  edestruct (fire_removal s1'
               (timers s ++ [Timer id false 1000 (now s + 1000) (CbRemoveAnnouncement a)])
               [] (Pos.succ id)) as [_ Hlate2];
    [exact Htm2 | | constructor | exact Hpa2 |].
  { apply Forall_app. split.
    - eapply Forall_impl; [exact Htbelow|]. cbn. lia.
    - repeat constructor. cbn. lia. }
  destruct (Hlate2 Hdue) as (Ht2 & Htmr2 & _ & _ & _ & Hfr2).
  rewrite <- Hfirst in Ht1, Htmr1, Hfr1. rewrite <- Hsecond in Ht2, Htmr2, Hfr2.
  split_and!.
  - done.
  - done.
  - done.
  - rewrite Ht1, Htr1. rewrite filter_app, filter_ne_below by done.
    rewrite !filter_cons, decide_False, decide_True by (by intros ?). done.
  - unfold textContent in *. by rewrite Hfr1.
  - done.
  - rewrite Ht2, Htr1. rewrite filter_app.
    rewrite (filter_ne_below (S a)).
    2:{ eapply Forall_impl; [exact Hbelow|]. cbn. lia. }
    rewrite !filter_cons, decide_True, decide_False by (by intros ?). done.
  - unfold textContent in *. by rewrite Hfr2.
  - rewrite Htmr2. apply app_nil_r.
Qed.

(** C9: for every message, Announce(message) appends to the body one new
    element whose text is the message and schedules its removal 1000 ms
    later; the removal does not happen earlier, and when it happens the page
    has the elements it had before the call, without residue.  A second
    announcement made meanwhile has an element and a timer of its own: either
    removal takes out its own element and leaves the other, with its text
    and its timer, in place. *)
Theorem announce_inserts_then_removes (prm : bool) (msg : string) (s : state) :
  nodes_below s → timers_below s → reloaded s = false →
  let a := next_node s in
  let id := next_timer s in
  let s1 := announceToScreenReader msg s in
  (tree s1 = tree s ++ [a] ∧ textContent s1 a = msg
   ∧ el_parent (get s1 a) = Some body
   ∧ timers s1 = timers s ++ [Timer id false 1000 (now s + 1000)
                                    (CbRemoveAnnouncement a)])
  ∧ (∀ ms, ms < 1000 →
       dispatch prm (EvTimer id) (dispatch prm (EvElapse ms) s1)
       = dispatch prm (EvElapse ms) s1)
  ∧ (∀ ms, 1000 ≤ ms →
       let s2 := dispatch prm (EvTimer id) (dispatch prm (EvElapse ms) s1) in
       tree s2 = tree s ∧ timers s2 = timers s
       ∧ el_parent (get s2 a) = None ∧ uncaught s2 = uncaught s)
  ∧ (∀ msg' ms, 1000 ≤ ms →
       let s1' := dispatch prm (EvElapse ms) (announceToScreenReader msg' s1) in
       let first_gone := dispatch prm (EvTimer id) s1' in
       let second_gone := dispatch prm (EvTimer (Pos.succ id)) s1' in
       tree s1' = tree s ++ [a; S a]
       ∧ textContent s1' a = msg ∧ textContent s1' (S a) = msg'
       ∧ tree first_gone = tree s ++ [S a] ∧ textContent first_gone (S a) = msg'
       ∧ timers first_gone
         = timers s ++ [Timer (Pos.succ id) false 1000 (now s + 1000)
                              (CbRemoveAnnouncement (S a))]
       ∧ tree second_gone = tree s ++ [a] ∧ textContent second_gone a = msg
       ∧ timers second_gone
         = timers s ++ [Timer id false 1000 (now s + 1000) (CbRemoveAnnouncement a)]).
Proof.
  intros Hn Ht Hr a id s1.
  pose proof (announce_effect msg s Hn) as H1. fold a id s1 in H1.
  assert (Hbelow : Forall (λ n, n < a) (tree s)) by exact Hn.
  assert (Htbelow : Forall (λ t, (tm_id t < id)%positive) (timers s)) by exact Ht.
  assert (Hn1 : nodes_below s1).
  { destruct H1 as (Htree & _ & _ & _ & _ & Hnn & _).
    unfold nodes_below. rewrite Htree, Hnn. apply Forall_app. split.
    - eapply Forall_impl; [exact Hbelow|]. cbn. lia.
    - repeat constructor. }
  assert (H2 : ∀ msg', announced msg' s1 (announceToScreenReader msg' s1)
                         (S a) (Pos.succ id)).
  { intros msg'. pose proof (announce_effect msg' s1 Hn1) as H2.
    destruct H1 as (_ & _ & _ & _ & _ & Hnn & Hnt & _).
    by rewrite Hnn, Hnt in H2. }
  clearbody s1 a id.
  destruct (announced_removal prm msg s s1 a id Hbelow Htbelow Hr H1) as [Hearly Hlate].
  split; [|split; [|split]].
  - by destruct H1 as (? & ? & ? & _ & ? & _).
  - exact Hearly.
  - exact Hlate.
  - intros msg' ms Hms.
    exact (announced_twice prm msg msg' s s1 _ a id ms Hbelow Htbelow Hr H1 (H2 msg') Hms).
Qed.

Lemma announce_inserts_then_removes_witness :
  let s := page_load false portfolio in
  let s1 := announceToScreenReader "Navigating to about section" s in
  tree s1 = tree s ++ [16]
  ∧ textContent s1 16 = "Navigating to about section"
  ∧ el_parent (get s1 16) = Some body
  ∧ timers s1 = timers s ++ [Timer 2 false 1000 1000 (CbRemoveAnnouncement 16)].
Proof.
  cbv zeta.
  refine (proj1 (announce_inserts_then_removes false "Navigating to about section"
                   (page_load false portfolio) _ _ _)).
  - compute_done.
  - compute_done.
  - reflexivity.
Defined.

(** ** Reasoning about handlers *)

(** The state an outcome carries, thrown or not. *)
Definition outcome_state (o : outcome) : state :=
  match o with
  | Ok s => s
  | Throw _ s => s
  end.

Lemma heap_upd s n f m :
  heap (upd n f s) !!! m = if decide (n = m) then f (heap s !!! n) else heap s !!! m.
Proof. apply get_upd. Qed.

Lemma heap_alloc s n e m :
  heap (set_heap (insert n e) s) !!! m = if decide (n = m) then e else heap s !!! m.
Proof.
  cbn. destruct (decide (n = m)) as [->|];
    [by rewrite lookup_total_insert_eq | by rewrite lookup_total_insert_ne].
Qed.

(** Unfold the operations of the page down to [upd] and the field setters. *)
Lemma removeSkipButton_cases (button : node) (s : state) :
  (el_parent (get s button) = None ∧ removeSkipButton button s = Ok s)
  ∨ (el_parent (get s button) ≠ None
     ∧ removeSkipButton button s
       = Ok (set_removed (λ r, r ++ [button]) (detach button s))).
Proof.
  unfold removeSkipButton, removeChild.
  destruct (el_parent (get s button)) as [p|]; [|by left].
  right. by rewrite bool_decide_eq_true_2.
Qed.

Lemma removeChild_cases (parent child : node) (s : state) :
  (el_parent (get s child) ≠ Some parent
   ∧ removeChild parent child s = Throw NotFoundError s)
  ∨ (el_parent (get s child) = Some parent
     ∧ removeChild parent child s
       = Ok (set_removed (λ r, r ++ [child]) (detach child s))).
Proof. unfold removeChild. case_bool_decide; [by right | by left]. Qed.

(** Split on whether a removal finds its element attached. *)
Ltac case_remove :=
  match goal with
  | |- context [removeSkipButton ?b ?s] =>
      destruct (removeSkipButton_cases b s) as [[_ ->] | [_ ->]]
  | |- context [removeChild ?p ?a ?s] =>
      destruct (removeChild_cases p a s) as [[_ ->] | [_ ->]]
  end.

Ltac unfold_prims :=
  unfold announceToScreenReader, createSkipAnimationButton, createElement,
    setAttribute, removeAttribute, set_style, set_cssText, set_textContent,
    classList_toggle, body_appendChild, body_insertFirst, detach,
    scrollIntoView, focus, addEventListener, requestAnimationFrame,
    setTimeout, setInterval, clearTimer, textContent, getAttribute, get in *.

(** Read fields through the setters that do not touch them. *)
Ltac st_cbn :=
  cbn [heap next_node tree scrollY activeElement scroll_log removed timers
       next_timer now raf listeners scrollTimeout typing ticking uncaught
       reloaded
       set_next_node set_tree set_scrollY set_activeElement set_scroll_log
       set_removed set_timers set_next_timer set_now set_raf set_listeners
       set_scrollTimeout set_typing set_ticking set_uncaught set_reloaded
       fst snd bind outcome_state
       el_tag el_attrs el_class el_text el_style el_offsetTop el_clientHeight
       el_parent with_attrs with_class with_text with_style with_parent] in *.

(** Read an element through the updates of the store, by cases on which
    element each update touched. *)
Ltac st_heap :=
  repeat (st_cbn;
          first [ rewrite heap_upd | rewrite heap_alloc ];
          destruct (decide _) as [?|?]; [subst|]; st_cbn;
          try lia; try congruence);
  st_cbn; rewrite ?lookup_insert_ne by done; try done; try congruence.

Lemma filter_Forall {A} (P Q : A → Prop) `{∀ x, Decision (Q x)} (l : list A) :
  Forall P l → Forall P (filter Q l).
Proof.
  intros Hl. apply Forall_forall. intros x Hx.
  apply list_elem_of_filter in Hx as [_ Hx]. by apply (proj1 (Forall_forall _ _) Hl).
Qed.

Ltac solve_Forall :=
  repeat first [ apply Forall_app_2 | apply Forall_cons_2 | apply Forall_nil_2
               | apply filter_Forall ];
  try done.

Lemma fold_left_preserves {A} (P : state → Prop) (f : state → A → state) (l : list A) :
  (∀ x s, x ∈ l → P s → P (f s x)) → ∀ s, P s → P (fold_left f l s).
Proof.
  induction l as [|x l IH]; intros Hf s Hs; [done|].
  cbn. apply IH.
  - intros y s' Hy. apply Hf. by right.
  - apply Hf; [by left | done].
Qed.

Lemma forEach_preserves {A} (P : state → Prop) (f : A → state → outcome) (l : list A) :
  (∀ x s, x ∈ l → P s → P (outcome_state (f x s))) →
  ∀ s, P s → P (outcome_state (forEach f l s)).
Proof.
  induction l as [|x l IH]; intros Hf s Hs; [done|].
  cbn [forEach]. pose proof (Hf x s ltac:(by left) Hs) as Hx.
  destruct (f x s) as [s1|e s1]; cbn [bind outcome_state] in *; [|done].
  apply IH; [|done]. intros y s' Hy. apply Hf. by right.
Qed.

(** ** No parallax under reduced motion (C8) *)

(** The inline background position of the body. *)
Definition background (s : state) : option string :=
  el_style (get s body) !! "backgroundPosition".

(** No parallax listener, no parallax frame pending or on a timer, and the
    background position is [c]. *)
Definition parallax_free (c : option string) (s : state) : Prop :=
  Forall (λ l, ls_handler l ≠ HParallaxScroll) (listeners s)
  ∧ raf s = []
  ∧ Forall (λ t, tm_cb t ≠ CbParallaxFrame) (timers s)
  ∧ background s = c
  ∧ body < next_node s.

Ltac pf_start :=
  unfold parallax_free, background, body; intros (Hl & Hr & Ht & Hb & Hn).

Ltac pf_goal :=
  match goal with
  | |- Forall _ _ => cbn; solve_Forall
  | |- raf _ = [] => cbn; done
  | |- _ !! _ = _ => st_heap
  | |- _ < _ => cbn; lia
  end.

Ltac pf_finish := unfold_prims; split_and!; pf_goal.

Lemma pf_settle c o : parallax_free c (outcome_state o) → parallax_free c (settle o).
Proof. by destruct o. Qed.

Lemma pf_announce c msg s :
  parallax_free c s → parallax_free c (announceToScreenReader msg s).
Proof. pf_start. pf_finish. Qed.

Lemma pf_navigate c prm el s :
  parallax_free c s → parallax_free c (navigateToSection prm el s).
Proof.
  pf_start. unfold navigateToSection.
  destruct (getElementById _ _) as [sec|]; [|done]. pf_finish.
Qed.

Lemma pf_scroll_throttle c s :
  parallax_free c s → parallax_free c (scroll_throttle s).
Proof.
  pf_start. unfold scroll_throttle.
  destruct (scrollTimeout s); pf_finish.
Qed.

Lemma pf_update_dot c cur d s :
  parallax_free c s → parallax_free c (outcome_state (update_dot cur d s)).
Proof.
  pf_start. unfold update_dot.
  destruct (getAttribute _ _ _); pf_finish.
Qed.

Lemma pf_updateActiveNavigation c s :
  parallax_free c s → parallax_free c (outcome_state (updateActiveNavigation s)).
Proof.
  intros Hs. unfold updateActiveNavigation.
  apply (forEach_preserves (parallax_free c)); [|done].
  intros. by apply pf_update_dot.
Qed.

Lemma pf_card c prm this s :
  parallax_free c s →
  parallax_free c (card_mouseenter prm this s)
  ∧ parallax_free c (card_mouseleave prm this s)
  ∧ parallax_free c (card_focus prm this s)
  ∧ parallax_free c (card_blur prm this s).
Proof.
  pf_start. unfold card_mouseenter, card_mouseleave, card_focus, card_blur.
  destruct prm; cbn [negb]; pf_finish.
Qed.

Lemma pf_skip_click c s :
  parallax_free c s → parallax_free c (outcome_state (skip_click s)).
Proof.
  pf_start. unfold skip_click. destruct (typing s) as [env|]; [|done].
  case_remove; destruct (ty_interval env); pf_finish.
Qed.

Lemma pf_typeWriter c s :
  parallax_free c s → parallax_free c (outcome_state (typeWriter s)).
Proof.
  pf_start. unfold typeWriter. destruct (typing s) as [env|]; [|done].
  destruct (_ <? _); [pf_finish|].
  case_remove; destruct (ty_interval env); pf_finish.
Qed.

Lemma pf_handler c prm h t key s :
  h ≠ HParallaxScroll →
  parallax_free c s → parallax_free c (settle (run_handler prm h t key s)).
Proof.
  intros Hh Hs. apply pf_settle.
  destruct (pf_card c prm (this_of t) s Hs) as (? & ? & ? & ?).
  destruct h; cbn [run_handler outcome_state]; try done.
  - by apply pf_navigate.
  - destruct (_ || _); [by apply pf_navigate | done].
  - by apply pf_scroll_throttle.
  - by apply pf_skip_click.
  - revert Hs. pf_start. pf_finish.
  - revert Hs. pf_start. pf_finish.
Qed.

Lemma pf_callback c cb s :
  cb ≠ CbParallaxFrame →
  parallax_free c s → parallax_free c (settle (run_callback cb s)).
Proof.
  intros Hcb Hs. apply pf_settle.
  destruct cb; cbn [run_callback outcome_state]; try done.
  - by apply pf_updateActiveNavigation.
  - revert Hs. pf_start. pf_finish.
  - revert Hs. pf_start. unfold startTyping. pf_finish.
  - by apply pf_typeWriter.
  - revert Hs. pf_start. unfold removeAnnouncement. case_remove; pf_finish.
Qed.

Lemma pf_deliver c prm t e key s :
  parallax_free c s → parallax_free c (deliver prm t e key s).
Proof.
  intros Hs. unfold deliver.
  apply (fold_left_preserves (parallax_free c)); [|done].
  intros l s' Hl Hs'. apply pf_handler; [|done].
  apply list_elem_of_filter in Hl as [_ Hl].
  destruct Hs as (Hall & _). by apply (proj1 (Forall_forall _ _) Hall).
Qed.

Lemma pf_dispatch c prm ev s :
  parallax_free c s → parallax_free c (dispatch prm ev s).
Proof.
  intros Hs. unfold dispatch. destruct (reloaded s); [done|].
  destruct ev; try (apply pf_deliver; revert Hs; pf_start; by pf_finish).
  - unfold fire_timer.
    destruct (List.find _ _) as [t|] eqn:Hfind; [|done].
    destruct (_ <=? _); [|done].
    apply find_some in Hfind as [Hin _].
    destruct Hs as (Hl & Hr & Ht & Hb & Hn).
    apply pf_callback.
    + apply (proj1 (Forall_forall _ _) Ht). by apply list_elem_of_In.
    + destruct (tm_repeat t); unfold parallax_free, background, body in *;
        pf_finish.
      apply Forall_fmap. eapply Forall_impl; [exact Ht|].
      cbn. intros t' Ht'. by destruct (bool_decide _).
  - unfold run_frame. destruct Hs as (Hl & Hr & Ht & Hb & Hn). rewrite Hr. cbn.
    unfold parallax_free, background, body in *. pf_finish.
  - revert Hs. pf_start. pf_finish.
Qed.

Lemma pf_run c prm evs s :
  parallax_free c s → parallax_free c (run prm evs s).
Proof.
  intros Hs. unfold run. apply (fold_left_preserves (parallax_free c)); [|done].
  intros. by apply pf_dispatch.
Qed.


Lemma pf_init_nav_dot c dot s :
  parallax_free c s → parallax_free c (outcome_state (init_nav_dot dot s)).
Proof.
  pf_start. unfold init_nav_dot. destruct (getAttribute _ _ _); pf_finish.
Qed.

Lemma pf_init_card c card s :
  parallax_free c s → parallax_free c (init_card card s).
Proof.
  pf_start. unfold init_card. destruct (negb _); pf_finish.
Qed.

Lemma pf_script c s :
  parallax_free c s → parallax_free c (outcome_state (script s)).
Proof.
  intros Hs. unfold script.
  pose proof (forEach_preserves (parallax_free c) init_nav_dot
                (querySelectorAll s ".nav-dot")
                (λ x s' _, pf_init_nav_dot c x s') s Hs) as Hdots.
  destruct (forEach _ _ _) as [s1|e s1]; cbn [bind outcome_state] in *; [|done].
  apply (fold_left_preserves (parallax_free c)).
  - intros. by apply pf_init_card.
  - revert Hdots. pf_start. pf_finish.
Qed.

Lemma pf_on_DOMContentLoaded c s :
  parallax_free c s → parallax_free c (outcome_state (on_DOMContentLoaded true s)).
Proof.
  intros Hs. unfold on_DOMContentLoaded.
  assert (H1 : parallax_free c (addSkipToContentLink s)).
  { revert Hs. pf_start. unfold addSkipToContentLink. pf_finish. }
  assert (H2 : parallax_free c (initTypingEffect true (addSkipToContentLink s))).
  { revert H1. generalize (addSkipToContentLink s). intros s1. pf_start.
    unfold initTypingEffect. destruct (querySelector _ _); [|done].
    cbn [negb]. pf_finish. }
  unfold initParallaxEffect.
  pose proof (pf_updateActiveNavigation c _ H2) as H3.
  destruct (updateActiveNavigation _) as [s3|e s3]; cbn [bind outcome_state] in *;
    [|done].
  revert H3. pf_start. pf_finish.
Qed.

Lemma pf_page_load c s :
  parallax_free c s → parallax_free c (page_load true s).
Proof.
  intros Hs. unfold page_load. pose proof (pf_script c s Hs) as H1.
  destruct (script s) as [s1|e s1]; cbn [outcome_state] in H1.
  - apply pf_settle. by apply pf_on_DOMContentLoaded.
  - revert H1. pf_start. pf_finish.
Qed.

Lemma pf_page els : parallax_free (background (page els)) (page els).
Proof. unfold parallax_free. split_and!; try done. cbn; unfold body; lia. Qed.

(** C8: with Motion Preference true, initParallaxEffect returns at once and
    attaches nothing; on any page, after any sequence of events (scrolls,
    timers, display refreshes, clicks, ...), no parallax scroll listener is
    attached, no parallax frame is pending, and the background position of
    the body is the one the page was parsed with. *)
Theorem reduced_motion_no_parallax (els : list (nat * element)) (evs : list event) :
  let s := run true evs (page_load true (page els)) in
  (∀ s0, initParallaxEffect true s0 = s0)
  ∧ Forall (λ l, ls_handler l ≠ HParallaxScroll) (listeners s)
  ∧ raf s = []
  ∧ background s = background (page els).
Proof.
  intros s. split; [done|].
  destruct (pf_run (background (page els)) true evs
              (page_load true (page els))) as (Hl & Hr & _ & Hb & _).
  { apply pf_page_load, pf_page. }
  done.
Qed.

(** With Motion Preference false the listener is attached, and a scroll
    followed by a display refresh moves the background by half the
    offset. *)
Example motion_allowed_parallax :
  let s := page_load false portfolio in
  Listener TWindow EScroll HParallaxScroll ∈ listeners s
  ∧ background (run false [EvScroll 25; EvFrame] s) = Some "center 12.5px"
  ∧ background (run true [EvScroll 25; EvFrame] (page_load true portfolio)) = None.
Proof. cbv zeta. split_and!; [vm_compute; set_solver | by_evaluation..]. Qed.

(** ** The skip control is removed once (C5) *)

(** How many times removeChild took [n] out. *)
Definition removals (s : state) (n : node) : nat :=
  length (filter (λ x, x = n) (removed s)).

(** What stays true of the skip control [btn] once the typing effect is set
    up: it is the button of the typing environment, only announcements made
    later have removal timers, the skip listener is on its click and nowhere
    else, and it is either attached and never removed, or detached and
    removed once. *)
Definition skip_shape (btn : node) (s : state) : Prop :=
  (∃ env, typing s = Some env ∧ ty_skipButton env = btn)
  ∧ btn < next_node s
  ∧ Forall (λ t, tm_cb t ≠ CbRemoveAnnouncement btn) (timers s)
  ∧ Forall (λ cb, cb = CbParallaxFrame) (raf s)
  ∧ Forall (λ l, ls_handler l = HSkipClick
                 → ls_target l = TNode btn ∧ ls_type l = EClick) (listeners s)
  ∧ Listener (TNode btn) EClick HSkipClick ∈ listeners s.

Definition skip_inv (btn : node) (s : state) : Prop :=
  skip_shape btn s
  ∧ ((el_parent (get s btn) ≠ None ∧ removals s btn = 0)
     ∨ (el_parent (get s btn) = None ∧ removals s btn = 1)).

(** A step that leaves the skip control alone. *)
Definition quiet (btn : node) (s s' : state) : Prop :=
  skip_shape btn s'
  ∧ el_parent (get s' btn) = el_parent (get s btn)
  ∧ removals s' btn = removals s btn.

(** A step after which the skip control is gone. *)
Definition finishing (btn : node) (s' : state) : Prop :=
  skip_inv btn s' ∧ el_parent (get s' btn) = None.

Lemma quiet_inv btn s s' : skip_inv btn s → quiet btn s s' → skip_inv btn s'.
Proof. intros [_ Hd] (Hs & Hp & Hr). split; [done|]. by rewrite Hp, Hr. Qed.

Lemma quiet_refl btn s : skip_inv btn s → quiet btn s s.
Proof. by intros [? _]. Qed.

Lemma quiet_trans btn s1 s2 s3 : quiet btn s1 s2 → quiet btn s2 s3 → quiet btn s1 s3.
Proof.
  intros (_ & Hp1 & Hr1) (Hs & Hp2 & Hr2). split; [done|]. split; congruence.
Qed.

Lemma quiet_finishing btn s s' :
  el_parent (get s btn) = None → skip_inv btn s → quiet btn s s' → finishing btn s'.
Proof.
  intros Hnone Hi Hq. split; [by eapply quiet_inv|].
  destruct Hq as (_ & -> & _). done.
Qed.

Ltac sk_start :=
  unfold finishing, quiet, skip_inv, skip_shape, removals;
  intros (((env0 & Hty & Hbtn) & Hn & Ht & Hr & Hl' & Hl) & Hd).

Ltac sk_goal :=
  match goal with
  | |- ∃ _, _ =>
      cbn; try match goal with H : typing _ = Some _ |- _ => rewrite H end;
      cbn; eexists; split; [reflexivity | done]
  | |- _ < _ => cbn; lia
  | |- Forall _ _ =>
      cbn; solve_Forall; try (intros [= ?]; lia); try (intros [= ?]; done)
  | |- _ ∈ _ => cbn; repeat (apply elem_of_app; left); done
  | |- el_parent _ = _ => st_heap
  | |- el_parent _ ≠ _ => st_heap
  | |- _ ∨ _ => first [ solve [left; split; sk_goal] | solve [right; split; sk_goal] ]
  | |- length _ = _ =>
      cbn; rewrite ?filter_app, ?length_app, ?filter_cons, ?filter_nil;
      repeat case_decide; cbn; try lia
  | |- _ => idtac
  end.

Ltac sk_finish := unfold_prims; split_and!; sk_goal.

Lemma quiet_settle btn s o :
  quiet btn s (outcome_state o) → quiet btn s (settle o).
Proof. by destruct o. Qed.

Lemma finishing_settle btn o :
  finishing btn (outcome_state o) → finishing btn (settle o).
Proof. by destruct o. Qed.

Lemma quiet_announce btn msg s :
  skip_inv btn s → quiet btn s (announceToScreenReader msg s).
Proof. sk_start. sk_finish. Qed.

Lemma quiet_navigate btn prm el s :
  skip_inv btn s → quiet btn s (navigateToSection prm el s).
Proof.
  intros Hi. unfold navigateToSection.
  destruct (getElementById _ _) as [sec|]; [|by apply quiet_refl].
  revert Hi. sk_start. sk_finish.
Qed.

Lemma quiet_scroll_throttle btn s :
  skip_inv btn s → quiet btn s (scroll_throttle s).
Proof. sk_start. unfold scroll_throttle. destruct (scrollTimeout s); sk_finish. Qed.

Lemma quiet_update_dot btn cur d s :
  skip_inv btn s → quiet btn s (outcome_state (update_dot cur d s)).
Proof. sk_start. unfold update_dot. destruct (getAttribute _ _ _); sk_finish. Qed.

Lemma forEach_quiet {A} btn (f : A → state → outcome) (l : list A) :
  (∀ x s, skip_inv btn s → quiet btn s (outcome_state (f x s))) →
  ∀ s, skip_inv btn s → quiet btn s (outcome_state (forEach f l s)).
Proof.
  intros Hf. induction l as [|x l IH]; intros s Hs; [by apply quiet_refl|].
  cbn [forEach]. pose proof (Hf x s Hs) as Hx.
  destruct (f x s) as [s1|e s1]; cbn [bind outcome_state] in *; [|done].
  eapply quiet_trans; [exact Hx|]. apply IH. by eapply quiet_inv.
Qed.

Lemma quiet_updateActiveNavigation btn s :
  skip_inv btn s → quiet btn s (outcome_state (updateActiveNavigation s)).
Proof.
  intros Hs. unfold updateActiveNavigation.
  apply forEach_quiet; [|done]. intros. by apply quiet_update_dot.
Qed.

Lemma quiet_card btn prm this s :
  skip_inv btn s →
  quiet btn s (card_mouseenter prm this s)
  ∧ quiet btn s (card_mouseleave prm this s)
  ∧ quiet btn s (card_focus prm this s)
  ∧ quiet btn s (card_blur prm this s).
Proof.
  sk_start. unfold card_mouseenter, card_mouseleave, card_focus, card_blur.
  destruct prm; cbn [negb]; sk_finish.
Qed.

Lemma removeSkipButton_finishing btn s :
  skip_inv btn s → ∃ s', removeSkipButton btn s = Ok s' ∧ finishing btn s'.
Proof.
  intros Hi.
  destruct (removeSkipButton_cases btn s) as [[Hp ->] | [Hp ->]].
  - by exists s.
  - eexists. split; [done|]. revert Hi. sk_start.
    destruct Hd as [[_ Hd]|[Hd _]]; [|done].
    sk_finish.
Qed.

Lemma skip_click_finishing btn s :
  skip_inv btn s → finishing btn (outcome_state (skip_click s)).
Proof.
  intros Hi. unfold skip_click.
  destruct Hi as [Hshape Hd]. pose proof Hshape as ((env & Hty & Hbtn) & _).
  rewrite Hty, Hbtn.
  set (s1 := set_textContent _ _ _).
  assert (Hq1 : quiet btn s s1).
  { subst s1. generalize (conj Hshape Hd). clear. sk_start.
    destruct (ty_interval env); sk_finish. }
  destruct (removeSkipButton_finishing btn s1) as (s2 & -> & Hf2 & Hp2).
  { eapply quiet_inv; [|exact Hq1]. by split. }
  cbn [bind outcome_state].
  eapply quiet_finishing; [| exact Hf2 |].
  - done.
  - revert Hf2. clear. sk_start. sk_finish.
Qed.

(** typeWriter has reached the end of the text: its next call finishes. *)
Definition completing (s : state) : Prop :=
  ∃ env, typing s = Some env ∧ String.length (ty_text env) ≤ ty_i env.

Lemma typeWriter_step btn s :
  skip_inv btn s →
  (completing s → finishing btn (outcome_state (typeWriter s)))
  ∧ (¬ completing s → quiet btn s (outcome_state (typeWriter s))).
Proof.
  intros Hi. unfold typeWriter, completing.
  destruct Hi as [Hshape Hd]. pose proof Hshape as ((env & Hty & Hbtn) & _).
  rewrite Hty, Hbtn.
  destruct (ty_i env <? String.length (ty_text env)) eqn:Hlt.
  - apply Nat.ltb_lt in Hlt. split.
    + intros (env' & [= <-] & Hle). lia.
    + intros _. generalize (conj Hshape Hd). clear. sk_start. sk_finish.
  - apply Nat.ltb_ge in Hlt. split; [intros _|intros Hn; destruct Hn; eauto].
    set (s1 := clearTimer _ _).
    assert (Hq1 : quiet btn s s1).
    { subst s1. generalize (conj Hshape Hd). clear. sk_start.
      destruct (ty_interval env); sk_finish. }
    destruct (removeSkipButton_finishing btn s1) as (s2 & -> & Hf2 & Hp2).
    { eapply quiet_inv; [|exact Hq1]. by split. }
    cbn [bind outcome_state].
    eapply quiet_finishing; [| exact Hf2 |].
    + done.
    + revert Hf2. clear. sk_start. sk_finish.
Qed.

Lemma quiet_removeAnnouncement btn a s :
  a ≠ btn → skip_inv btn s → quiet btn s (outcome_state (removeAnnouncement a s)).
Proof.
  intros Ha Hi. unfold removeAnnouncement.
  destruct (removeChild_cases body a s) as [[_ ->] | [_ ->]];
    [by apply quiet_refl|].
  revert Hi. sk_start. sk_finish.
Qed.

(** A step either leaves the skip control alone or ends with it gone. *)
Definition advance (btn : node) (s s' : state) : Prop :=
  quiet btn s s' ∨ finishing btn s'.

Lemma advance_inv btn s s' : skip_inv btn s → advance btn s s' → skip_inv btn s'.
Proof.
  unfold advance, finishing. intros Hi [Hq|[Hf _]]; [by eapply quiet_inv | done].
Qed.

Lemma advance_gone btn s s' :
  advance btn s s' → el_parent (get s btn) = None → el_parent (get s' btn) = None.
Proof.
  unfold advance, quiet, finishing. intros [(_ & Hp & _)|[_ Hf]] Hnone; [|done].
  by rewrite Hp.
Qed.

Lemma handler_step btn prm h t key s :
  skip_inv btn s →
  let s' := settle (run_handler prm h t key s) in
  (h = HSkipClick → finishing btn s') ∧ (h ≠ HSkipClick → quiet btn s s').
Proof.
  intros Hi s'. split.
  - intros ->. subst s'. cbn [run_handler].
    by apply finishing_settle, skip_click_finishing.
  - intros Hh. subst s'. apply quiet_settle.
    destruct (quiet_card btn prm (this_of t) s Hi) as (? & ? & ? & ?).
    destruct h; cbn [run_handler outcome_state]; try done.
    + by apply quiet_navigate.
    + destruct (_ || _); [by apply quiet_navigate | by apply quiet_refl].
    + by apply quiet_scroll_throttle.
    + revert Hi. sk_start. unfold parallax_scroll. destruct (negb _); sk_finish.
    + revert Hi. sk_start. sk_finish.
    + revert Hi. sk_start. sk_finish.
    + revert Hi. sk_start. sk_finish.
Qed.

Lemma callback_step btn cb s :
  skip_inv btn s → cb ≠ CbRemoveAnnouncement btn →
  let s' := settle (run_callback cb s) in
  (cb = CbTypeWriter ∧ completing s → finishing btn s')
  ∧ (¬ (cb = CbTypeWriter ∧ completing s) → quiet btn s s').
Proof.
  intros Hi Hcb s'. split.
  - intros [-> Hc]. subst s'. cbn [run_callback].
    by apply finishing_settle, typeWriter_step.
  - intros Hnot. subst s'. apply quiet_settle.
    destruct cb; cbn [run_callback outcome_state].
    + by apply quiet_updateActiveNavigation.
    + revert Hi. sk_start. sk_finish.
    + revert Hi. sk_start. unfold startTyping. sk_finish.
    + apply typeWriter_step; [done|]. intros Hc. by apply Hnot.
    + apply quiet_removeAnnouncement; [congruence | done].
    + revert Hi. sk_start. unfold parallax_frame. sk_finish.
Qed.

Lemma fold_handlers_step btn prm t key (ls : list listener) s :
  skip_inv btn s →
  let s' := fold_left (λ s l, settle (run_handler prm (ls_handler l) t key s)) ls s in
  (Forall (λ l, ls_handler l ≠ HSkipClick) ls → quiet btn s s')
  ∧ (el_parent (get s btn) = None ∨ Exists (λ l, ls_handler l = HSkipClick) ls
     → finishing btn s').
Proof.
  revert s. induction ls as [|l ls IH]; intros s Hi; cbn [fold_left].
  - split; [intros _; by apply quiet_refl|].
    intros [Hp|Hex]; [by split | by apply Exists_nil in Hex].
  - destruct (handler_step btn prm (ls_handler l) t key s Hi) as [Hskip Hother].
    set (s1 := settle _) in *.
    destruct (decide (ls_handler l = HSkipClick)) as [Heq|Hne].
    + destruct (Hskip Heq) as [Hi1 Hp1].
      destruct (IH s1 Hi1) as [_ IHf]. split.
      * intros Hall. apply Forall_cons in Hall as [Hl _]. done.
      * intros _. apply IHf. by left.
    + pose proof (Hother Hne) as Hq.
      assert (Hi1 : skip_inv btn s1) by by eapply quiet_inv.
      destruct (IH s1 Hi1) as [IHq IHf]. split.
      * intros Hall. apply Forall_cons in Hall as [_ Hall].
        eapply quiet_trans; [exact Hq | by apply IHq].
      * intros [Hp|Hex]; apply IHf.
        -- left. destruct Hq as (_ & -> & _). done.
        -- apply Exists_cons in Hex as [Hl|Hex]; [done | by right].
Qed.

Lemma deliver_step btn prm t e key s :
  skip_inv btn s →
  let s' := deliver prm t e key s in
  (t = TNode btn ∧ e = EClick → finishing btn s')
  ∧ (¬ (t = TNode btn ∧ e = EClick) → quiet btn s s').
Proof.
  intros Hi s'. subst s'. unfold deliver.
  destruct (fold_handlers_step btn prm t key
              (filter (λ l, ls_target l = t ∧ ls_type l = e) (listeners s)) s Hi)
    as [Hq Hf].
  destruct Hi as [(_ & _ & _ & _ & Hl' & Hl) _].
  split.
  - intros [-> ->]. apply Hf. right. apply Exists_exists.
    exists (Listener (TNode btn) EClick HSkipClick). split; [|done].
    apply list_elem_of_filter. by split.
  - intros Hnot. apply Hq. apply Forall_forall. intros l Hin Hh.
    apply list_elem_of_filter in Hin as [[<- <-] Hin].
    apply Hnot. by apply (proj1 (Forall_forall _ _) Hl').
Qed.

Lemma fold_callbacks_quiet btn (cbs : list callback) s :
  Forall (λ cb, cb = CbParallaxFrame) cbs → skip_inv btn s →
  quiet btn s (fold_left (λ s cb, settle (run_callback cb s)) cbs s).
Proof.
  intros Hall. revert s. induction Hall as [|cb cbs -> _ IH]; intros s Hi;
    [by apply quiet_refl|].
  cbn [fold_left].
  destruct (callback_step btn CbParallaxFrame s Hi) as [_ Hq]; [done|].
  specialize (Hq ltac:(by intros [? _])).
  eapply quiet_trans; [exact Hq|]. apply IH. by eapply quiet_inv.
Qed.

(** The timer [id] is due and is the typing timer at the end of the
    text. *)
Definition completes (id : positive) (s : state) : Prop :=
  ∃ t, List.find (λ t, bool_decide (tm_id t = id)) (timers s) = Some t
       ∧ tm_cb t = CbTypeWriter ∧ tm_due t ≤ now s ∧ completing s.

Lemma fire_timer_step btn id s :
  skip_inv btn s →
  let s' := fire_timer id s in
  (completes id s → finishing btn s') ∧ (¬ completes id s → quiet btn s s').
Proof.
  intros Hi s'. subst s'. unfold fire_timer, completes.
  destruct (List.find _ (timers s)) as [t|] eqn:Hfind.
  2:{ split; [by intros (? & ? & _) | intros _; by apply quiet_refl]. }
  destruct (tm_due t <=? now s) eqn:Hdue.
  2:{ apply Nat.leb_gt in Hdue. split; [|intros _; by apply quiet_refl].
      intros (t' & [= <-] & _ & ? & _). lia. }
  apply Nat.leb_le in Hdue.
  set (s1 := if tm_repeat t then _ else _).
  assert (Hq1 : quiet btn s s1 ∧ typing s1 = typing s).
  { subst s1. revert Hi. clear. sk_start.
    destruct (tm_repeat t); (split; [|done]); sk_finish.
    apply Forall_fmap. eapply Forall_impl; [exact Ht|].
    cbn. intros t' Ht'. by destruct (bool_decide _). }
  destruct Hq1 as [Hq1 Hty1].
  assert (Hi1 : skip_inv btn s1) by by eapply quiet_inv.
  assert (Hcb : tm_cb t ≠ CbRemoveAnnouncement btn).
  { destruct Hi as [(_ & _ & Ht & _) _]. apply find_some in Hfind as [Hin _].
    apply (proj1 (Forall_forall _ _) Ht). by apply list_elem_of_In. }
  destruct (callback_step btn (tm_cb t) s1 Hi1 Hcb) as [Hf Hq].
  assert (Hc : completing s1 ↔ completing s).
  { unfold completing. by rewrite Hty1. }
  split.
  - intros (t' & [= <-] & Hcbt & _ & Hcomp). apply Hf. split; [done|]. by apply Hc.
  - intros Hnot. eapply quiet_trans; [exact Hq1|]. apply Hq.
    intros [Hcbt Hcomp]. apply Hnot. exists t. split_and!; try done. by apply Hc.
Qed.

(** The events on which the presenter finishes: a click on the skip
    control, or the typing timer firing once the whole text is out. *)
Definition finishes (btn : node) (ev : event) (s : state) : Prop :=
  ev = EvClick btn ∨ ∃ id, ev = EvTimer id ∧ completes id s.

Lemma completing_dec s : completing s ∨ ¬ completing s.
Proof.
  unfold completing. destruct (typing s) as [env|].
  - destruct (decide (String.length (ty_text env) ≤ ty_i env)).
    + left. by exists env.
    + right. by intros (? & [= <-] & ?).
  - right. by intros (? & ? & _).
Qed.

Lemma completes_dec id s : completes id s ∨ ¬ completes id s.
Proof.
  unfold completes. destruct (List.find _ _) as [t|].
  - destruct (decide (tm_cb t = CbTypeWriter));
      [|right; by intros (? & [= <-] & ? & _)].
    destruct (decide (tm_due t ≤ now s));
      [|right; by intros (? & [= <-] & _ & ? & _)].
    destruct (completing_dec s);
      [|right; by intros (? & _ & _ & _ & ?)].
    left. by exists t.
  - right. by intros (? & ? & _).
Qed.

Lemma finishes_dec btn ev s : finishes btn ev s ∨ ¬ finishes btn ev s.
Proof.
  unfold finishes. destruct ev;
    try (right; by intros [?|(? & ? & _)]).
  - destruct (decide (n = btn)) as [->|]; [left; by left|].
    right. intros [[= ?]|(? & ? & _)]; done.
  - destruct (completes_dec id s); [left; right; by exists id|].
    right. intros [?|(? & [= <-] & ?)]; done.
Qed.

Lemma dispatch_step btn prm ev s :
  skip_inv btn s →
  let s' := dispatch prm ev s in
  (finishes btn ev s → reloaded s = false → finishing btn s')
  ∧ (¬ finishes btn ev s → quiet btn s s')
  ∧ advance btn s s'.
Proof.
  intros Hi s'.
  assert (Hmain : (finishes btn ev s → reloaded s = false → finishing btn s')
                  ∧ (¬ finishes btn ev s ∨ reloaded s = true → quiet btn s s')).
  { subst s'. unfold dispatch. destruct (reloaded s).
    { split; [done | intros _; by apply quiet_refl]. }
    assert (Hsub : ∀ t e key s1, quiet btn s s1 →
              ¬ (t = TNode btn ∧ e = EClick) →
              quiet btn s (deliver prm t e key s1)).
    { intros t e key s1 Hq1 Hne. eapply quiet_trans; [exact Hq1|].
      apply deliver_step; [by eapply quiet_inv | done]. }
    unfold finishes.
    destruct ev; cbv beta iota.
    - destruct (deliver_step btn prm (TNode n) EClick "" s Hi) as [Hf Hq]. split.
      + intros [[= ->]|(? & ? & _)] _; [by apply Hf | done].
      + intros [Hnot|?]; [|done]. apply Hq. intros [[= ->] _]. apply Hnot. by left.
    - split; [by intros [?|(? & ? & _)] | intros _].
      apply Hsub; [by apply quiet_refl | by intros [_ ?]].
    - split; [by intros [?|(? & ? & _)] | intros _].
      apply Hsub; [by apply quiet_refl | by intros [_ ?]].
    - split; [by intros [?|(? & ? & _)] | intros _].
      apply Hsub; [by apply quiet_refl | by intros [_ ?]].
    - split; [by intros [?|(? & ? & _)] | intros _].
      apply Hsub; [|by intros [_ ?]]. revert Hi. clear. sk_start. sk_finish.
    - split; [by intros [?|(? & ? & _)] | intros _].
      apply Hsub; [|by intros [_ ?]]. revert Hi. clear. sk_start. sk_finish.
    - split; [by intros [?|(? & ? & _)] | intros _].
      apply Hsub; [|by intros [? _]]. revert Hi. clear. sk_start. sk_finish.
    - split; [by intros [?|(? & ? & _)] | intros _].
      apply Hsub; [by apply quiet_refl | by intros [? _]].
    - destruct (fire_timer_step btn id s Hi) as [Hf Hq]. split.
      + intros [?|(id' & [= <-] & Hc)] _; [done | by apply Hf].
      + intros [Hnot|?]; [|done]. apply Hq. intros Hc. apply Hnot. right. eauto.
    - split; [by intros [?|(? & ? & _)] | intros _].
      unfold run_frame.
      assert (Hq0 : quiet btn s (set_raf (λ _, []) s)).
      { revert Hi. clear. sk_start. sk_finish. }
      eapply quiet_trans; [exact Hq0|].
      apply fold_callbacks_quiet; [|by eapply quiet_inv].
      by destruct Hi as [(_ & _ & _ & Hr & _) _].
    - split; [by intros [?|(? & ? & _)] | intros _].
      revert Hi. clear. sk_start. sk_finish. }
  destruct Hmain as [Hf Hq]. split_and!; [done | intros ?; apply Hq; by left |].
  destruct (reloaded s) eqn:Hrel; [left; apply Hq; by right|].
  destruct (finishes_dec btn ev s); [right; by apply Hf | left; apply Hq; by left].
Qed.

Lemma run_skip_inv btn prm evs s : skip_inv btn s → skip_inv btn (run prm evs s).
Proof.
  intros Hs. unfold run. apply (fold_left_preserves (skip_inv btn)); [|done].
  intros ev s' _ Hs'. eapply advance_inv; [done|]. by apply dispatch_step.
Qed.


(** A page on which the typing effect has not been set up. *)
Definition blank (s : state) : Prop :=
  typing s = None ∧ timers s = [] ∧ raf s = [] ∧ removed s = []
  ∧ Forall (λ l, ls_handler l ≠ HSkipClick) (listeners s).

Ltac bl_start := unfold blank; intros (Hty & Ht & Hr & Hrm & Hl).
Ltac bl_finish := unfold_prims; split_and!; cbn; solve_Forall.

Lemma blank_script s : blank s → blank (outcome_state (script s)).
Proof.
  intros Hs. unfold script.
  assert (Hdots : blank (outcome_state
                    (forEach init_nav_dot (querySelectorAll s ".nav-dot") s))).
  { apply (forEach_preserves blank); [|done]. intros dot s' _. clear.
    bl_start. unfold init_nav_dot. destruct (getAttribute _ _ _); bl_finish. }
  destruct (forEach _ _ _) as [s1|e s1]; cbn [bind outcome_state] in *; [|done].
  apply (fold_left_preserves blank).
  - intros card s' _. clear. bl_start. unfold init_card.
    destruct (negb _); bl_finish.
  - revert Hdots. bl_start. bl_finish.
Qed.

Lemma typing_updateActiveNavigation s :
  typing (outcome_state (updateActiveNavigation s)) = typing s.
Proof.
  unfold updateActiveNavigation.
  apply (forEach_preserves (λ s', typing s' = typing s)); [|done].
  intros d s' _ <-. unfold update_dot. by destruct (getAttribute _ _ _).
Qed.

Lemma initTypingEffect_skip_inv s sub :
  blank s → querySelector s ".subtitle" = Some sub →
  skip_inv (next_node s) (initTypingEffect false s)
  ∧ el_parent (get (initTypingEffect false s) (next_node s)) ≠ None
  ∧ ∃ text, typing (initTypingEffect false s)
            = Some (TypingEnv sub text (next_node s) 0 None).
Proof.
  bl_start. intros Hq. unfold initTypingEffect. rewrite Hq.
  cbn [negb]. unfold skip_inv, skip_shape, removals. unfold_prims.
  assert (Hp : el_parent
                 (heap (upd sub (with_attrs <["aria-live":="polite"]>)
                   (upd sub (with_text (λ _, ""))
                     (upd (next_node s) (with_parent (Some body))
                       (upd (next_node s) (with_parent None) s)))) !!! next_node s)
               ≠ None).
  { st_heap. }
  split_and!.
  - cbn. by eexists.
  - cbn. lia.
  - cbn. rewrite Ht. solve_Forall.
  - cbn. by rewrite Hr.
  - cbn. solve_Forall. eapply Forall_impl; [exact Hl|]. by intros l Hne Heq.
  - cbn. set_solver.
  - left. split; [|cbn; by rewrite Hrm]. st_heap.
  - st_heap.
  - cbn. by eexists.
Qed.

(** The last two steps of the DOMContentLoaded listener. *)
Definition finish_loading (s : state) : outcome :=
  let! s := updateActiveNavigation s in
  Ok (addEventListener TMotionQuery EChange HMotionChange s).

Lemma on_DOMContentLoaded_unfold prm s :
  on_DOMContentLoaded prm s
  = finish_loading
      (initParallaxEffect prm (initTypingEffect prm (addSkipToContentLink s))).
Proof. reflexivity. Qed.

Lemma typing_finish_loading s :
  typing (settle (finish_loading s)) = typing s.
Proof.
  unfold finish_loading. pose proof (typing_updateActiveNavigation s) as Hty.
  by destruct (updateActiveNavigation s).
Qed.

Lemma quiet_finish_loading btn s :
  skip_inv btn s → quiet btn s (settle (finish_loading s)).
Proof.
  intros Hi. apply quiet_settle. unfold finish_loading.
  pose proof (quiet_updateActiveNavigation btn s Hi) as Hq.
  destruct (updateActiveNavigation s) as [s5|e s5]; cbn [bind outcome_state] in *;
    [|done].
  eapply quiet_trans; [exact Hq|].
  assert (Hi5 : skip_inv btn s5) by by eapply quiet_inv.
  revert Hi5. clear. sk_start. sk_finish.
Qed.

Lemma quiet_initParallaxEffect btn prm s :
  skip_inv btn s → quiet btn s (initParallaxEffect prm s).
Proof.
  intros Hi. unfold initParallaxEffect. destruct prm; [by apply quiet_refl|].
  revert Hi. sk_start. sk_finish.
Qed.

Lemma typing_initParallaxEffect prm s :
  typing (initParallaxEffect prm s) = typing s.
Proof. unfold initParallaxEffect. by destruct prm. Qed.

Lemma initTypingEffect_cases s :
  blank s →
  typing (initTypingEffect false s) = None
  ∨ ∃ env, typing (initTypingEffect false s) = Some env
           ∧ skip_inv (ty_skipButton env) (initTypingEffect false s)
           ∧ el_parent (get (initTypingEffect false s) (ty_skipButton env)) ≠ None.
Proof.
  intros Hs. destruct (querySelector s ".subtitle") as [sub|] eqn:Hq.
  - right. destruct (initTypingEffect_skip_inv s sub Hs Hq) as (Hi & Hp & text & Hty).
    eexists. split; [exact Hty|]. by split.
  - left. unfold initTypingEffect. rewrite Hq. by destruct Hs.
Qed.

Lemma blank_addSkipToContentLink s : blank s → blank (addSkipToContentLink s).
Proof. bl_start. unfold addSkipToContentLink. bl_finish. Qed.

(** After the page has loaded with the typing effect set up, the skip
    control is in place, attached and not yet removed. *)
Lemma page_load_skip_inv s env :
  blank s → typing (page_load false s) = Some env →
  skip_inv (ty_skipButton env) (page_load false s)
  ∧ el_parent (get (page_load false s) (ty_skipButton env)) ≠ None.
Proof.
  intros Hs. unfold page_load. pose proof (blank_script s Hs) as H1.
  destruct (script s) as [s1|e s1]; cbn [outcome_state] in H1.
  2:{ destruct H1 as [Hty _]. cbn [typing set_uncaught]. by rewrite Hty. }
  clear Hs. rewrite on_DOMContentLoaded_unfold.
  pose proof (blank_addSkipToContentLink s1 H1) as H2.
  pose proof (initTypingEffect_cases _ H2) as H3.
  generalize dependent (initTypingEffect false (addSkipToContentLink s1)).
  intros s3 H3 Henv.
  rewrite typing_finish_loading, typing_initParallaxEffect in Henv.
  destruct H3 as [Hnone | (env' & Hty & Hi & Hp)]; [congruence|].
  assert (env' = env) as -> by congruence.
  pose proof (quiet_initParallaxEffect (ty_skipButton env) false s3 Hi) as Hq4.
  assert (Hi4 : skip_inv (ty_skipButton env) (initParallaxEffect false s3))
    by by eapply quiet_inv.
  pose proof (quiet_finish_loading _ _ Hi4) as Hq5.
  generalize dependent (settle (finish_loading (initParallaxEffect false s3))).
  generalize dependent (initParallaxEffect false s3).
  intros s4 Hq4 Hi4 s5 Hq5.
  split; [by eapply quiet_inv|].
  destruct Hq5 as (_ & -> & _). by destruct Hq4 as (_ & -> & _).
Qed.

Lemma blank_page els : blank (page els).
Proof. unfold blank. by split_and!. Qed.

(** C5: on any page where the typing effect starts (Motion Preference
    false, a subtitle present), after any sequence of events the skip
    control has been removed at most once, and exactly once precisely when
    it is detached; it is attached and not removed when the page has loaded;
    an event that finishes the presenter (a click on the skip control, or
    the typing timer firing once the whole text is out) leaves it removed
    exactly once, whichever of the two comes first; no other event removes
    it; and once it is gone no event removes it again. *)
Theorem skip_control_removed_once (els : list (nat * element)) (evs : list event) (ev : event) :
  let s0 := page_load false (page els) in
  ∀ env, typing s0 = Some env →
  let btn := ty_skipButton env in
  let s := run false evs s0 in
  let s' := dispatch false ev s in
  (removals s0 btn = 0 ∧ el_parent (get s0 btn) ≠ None)
  ∧ removals s btn ≤ 1
  ∧ (removals s btn = 1 ↔ el_parent (get s btn) = None)
  ∧ (finishes btn ev s → reloaded s = false → removals s' btn = 1)
  ∧ (removals s' btn ≠ removals s btn → finishes btn ev s)
  ∧ (el_parent (get s btn) = None →
     el_parent (get s' btn) = None ∧ removals s' btn = 1).
Proof.
  intros s0 env Henv btn s s'.
  destruct (page_load_skip_inv (page els) env (blank_page els) Henv) as [Hi0 Hp0].
  fold s0 btn in Hi0, Hp0.
  assert (Hi : skip_inv btn s) by by apply run_skip_inv.
  destruct (dispatch_step btn false ev s Hi) as (Hfin & Hquiet & Hadv).
  fold s' in Hfin, Hquiet, Hadv.
  assert (Hi' : skip_inv btn s') by by eapply advance_inv.
  clearbody s' s s0 btn.
  split_and!.
  - destruct Hi0 as [_ [[_ ?]|[? _]]]; done.
  - done.
  - destruct Hi as [_ [[_ ->]|[_ ->]]]; lia.
  - destruct Hi as [_ [[? ->]|[? ->]]]; split; done.
  - intros Hf Hrel. destruct (Hfin Hf Hrel) as [[_ Hd] Hp].
    destruct Hd as [[? _]|[_ ?]]; done.
  - intros Hne. destruct (finishes_dec btn ev s) as [|Hnot]; [done|].
    destruct (Hquiet Hnot) as (_ & _ & ?). done.
  - intros Hp. pose proof (advance_gone btn s s' Hadv Hp) as Hp'.
    split; [done|]. destruct Hi' as [_ [[? _]|[_ ?]]]; done.
Qed.

Lemma skip_control_removed_once_witness :
  let s0 := page_load false portfolio in
  removals s0 15 = 0 ∧ el_parent (get s0 15) ≠ None.
Proof.
  cbv zeta.
  refine (proj1 (skip_control_removed_once _ [] (EvClick 15)
                   (TypingEnv 11 "Hi" 15 0 None) _)).
  vm_compute. reflexivity.
Defined.

(** On the portfolio page the control is removed once on either path: by
    the skip click, or by the tick after the last character; a later click
    or tick removes nothing more. *)
Example skip_control_paths :
  let s0 := page_load false portfolio in
  let typed := [EvElapse 1000; EvTimer 1; EvElapse 50; EvTimer 2;
                EvElapse 50; EvTimer 2; EvElapse 50; EvTimer 2] in
  removed (run false [EvClick 15] s0) = [15]
  ∧ removed (run false [EvClick 15; EvClick 15] s0) = [15]
  ∧ removed (run false typed s0) = [15]
  ∧ textContent (run false typed s0) 11 = "Hi"
  ∧ timers (run false typed s0) = []
  ∧ removed (run false (typed ++ [EvClick 15]) s0) = [15].
Proof. by_evaluation. Qed.

(** ** Invariants of the event loop *)

(** A property of the page that every listener, timer and display refresh
    keeps is kept by every turn of the event loop.  [HL] is what the property
    knows about the listeners in place. *)
Section Invariant.

Context (prm : bool) (P : state → Prop) (HL : listener → Prop).

Hypothesis P_listeners : ∀ s, P s → Forall HL (listeners s).
Hypothesis P_handler : ∀ l key s,
  HL l → P s → P (settle (run_handler prm (ls_handler l) (ls_target l) key s)).
Hypothesis P_focus : ∀ n s, P s → P (set_activeElement (λ _, n) s).
Hypothesis P_scroll : ∀ y s, P s → P (set_scrollY (λ _, y) s).
Hypothesis P_elapse : ∀ ms s, P s → P (set_now (λ t, t + ms) s).
Hypothesis P_timer : ∀ id s, P s → P (fire_timer id s).
Hypothesis P_frame : ∀ s, P s → P (run_frame s).

Lemma deliver_invariant t e key s : P s → P (deliver prm t e key s).
Proof.
  intros Hs. unfold deliver.
  apply (fold_left_preserves P); [|done].
  intros l s' Hl Hs'. apply list_elem_of_filter in Hl as [[<- _] Hl].
  apply P_handler; [|done].
  by apply (proj1 (Forall_forall _ _) (P_listeners s Hs)).
Qed.

Lemma dispatch_invariant ev s : P s → P (dispatch prm ev s).
Proof.
  intros Hs. unfold dispatch. destruct (reloaded s); [done|].
  destruct ev; auto using deliver_invariant.
Qed.

Lemma run_invariant evs s : P s → P (run prm evs s).
Proof.
  intros Hs. unfold run. apply (fold_left_preserves P); [|done].
  intros. by apply dispatch_invariant.
Qed.

End Invariant.

(** A timer that fires is rescheduled or retired, then its function runs. *)
Lemma fire_timer_invariant (P : state → Prop) (C : callback → Prop) :
  (∀ s, P s → Forall (λ t, C (tm_cb t)) (timers s)) →
  (∀ cb s, C cb → P s → P (settle (run_callback cb s))) →
  (∀ id s, P s → P (clearTimer (Some id) s)) →
  (∀ id due s, P s →
     P (set_timers (map (λ t', if bool_decide (tm_id t' = id)
                               then Timer id true (tm_delay t') (due + tm_delay t') (tm_cb t')
                               else t')) s)) →
  ∀ id s, P s → P (fire_timer id s).
Proof.
  intros Ht Hcb Hclear Hre id s Hs. unfold fire_timer.
  destruct (List.find _ _) as [t|] eqn:Hfind; [|done].
  destruct (_ <=? _); [|done].
  apply find_some in Hfind as [Hin _]. apply list_elem_of_In in Hin.
  apply Hcb; [by apply (proj1 (Forall_forall _ _) (Ht s Hs))|].
  destruct (tm_repeat t); [apply Hre | apply Hclear]; done.
Qed.

(** A display refresh takes the pending frame functions and runs them. *)
Lemma run_frame_invariant (P : state → Prop) (C : callback → Prop) :
  (∀ s, P s → Forall C (raf s)) →
  (∀ cb s, C cb → P s → P (settle (run_callback cb s))) →
  (∀ s, P s → P (set_raf (λ _, []) s)) →
  ∀ s, P s → P (run_frame s).
Proof.
  intros Hr Hcb Hclear s Hs. unfold run_frame.
  apply (fold_left_preserves P); [|by apply Hclear].
  intros cb s' Hin Hs'. apply Hcb; [|done].
  by apply (proj1 (Forall_forall _ _) (Hr s Hs)).
Qed.

(** A loop throws only what one of its rounds throws. *)
Lemma forEach_throws {A} (E : exn → Prop) (f : A → state → outcome) (l : list A) :
  (∀ x s e s', f x s = Throw e s' → E e) →
  ∀ s e s', forEach f l s = Throw e s' → E e.
Proof.
  intros Hf. induction l as [|x l IH]; intros s e s' Hthrow; [done|].
  cbn [forEach] in Hthrow. destruct (f x s) as [s1|e1 s1] eqn:Hx; cbn [bind] in Hthrow.
  - by eapply IH.
  - injection Hthrow as <- _. by eapply Hf.
Qed.

(** What holds of the parsed page and is kept by every statement that runs
    while the page loads, holds of the loaded page.  [E] is what is known of
    an exception that the two loops over the dots can throw. *)
Lemma page_load_invariant_exn (prm : bool) (P : state → Prop) (E : exn → Prop) :
  (∀ dot s, P s → P (outcome_state (init_nav_dot dot s))) →
  (∀ dot s e s', init_nav_dot dot s = Throw e s' → E e) →
  (∀ s, P s → P (addEventListener TWindow EScroll HScrollThrottle
                   (set_scrollTimeout (λ _, None) s))) →
  (∀ card s, P s → P (init_card card s)) →
  (∀ s, P s → P (addSkipToContentLink s)) →
  (∀ s, P s → P (initTypingEffect prm s)) →
  (∀ s, P s → P (initParallaxEffect prm s)) →
  (∀ cur dot s, P s → P (outcome_state (update_dot cur dot s))) →
  (∀ cur dot s e s', update_dot cur dot s = Throw e s' → E e) →
  (∀ s, P s → P (addEventListener TMotionQuery EChange HMotionChange s)) →
  (∀ e s, E e → P s → P (set_uncaught (λ l, l ++ [e]) s)) →
  ∀ s, P s → P (page_load prm s).
Proof.
  intros Hdot Edot Hthr Hcard Hlink Hty Hpar Hupd Eupd Hmq Hunc s Hs.
  unfold page_load, script.
  pose proof (forEach_preserves P init_nav_dot (querySelectorAll s ".nav-dot")
                (λ x s' _, Hdot x s') s Hs) as Hdots.
  pose proof (forEach_throws E init_nav_dot (querySelectorAll s ".nav-dot") Edot s)
    as Edots.
  destruct (forEach _ _ _) as [s1|e s1]; cbn [bind outcome_state] in *;
    [|apply Hunc; [by eapply Edots | done]].
  assert (H2 : P (fold_left (λ s card, init_card card s)
                    (querySelectorAll (addEventListener TWindow EScroll HScrollThrottle
                       (set_scrollTimeout (λ _, None) s1)) ".project-card")
                    (addEventListener TWindow EScroll HScrollThrottle
                       (set_scrollTimeout (λ _, None) s1)))).
  { apply (fold_left_preserves P); [|by apply Hthr]. intros. by apply Hcard. }
  revert H2. generalize (fold_left (λ s card, init_card card s)
                    (querySelectorAll (addEventListener TWindow EScroll HScrollThrottle
                       (set_scrollTimeout (λ _, None) s1)) ".project-card")
                    (addEventListener TWindow EScroll HScrollThrottle
                       (set_scrollTimeout (λ _, None) s1))).
  clear Hdots Edots Hs. intros s2 H2. unfold on_DOMContentLoaded.
  assert (H3 : P (initParallaxEffect prm (initTypingEffect prm (addSkipToContentLink s2))))
    by auto.
  revert H3. generalize (initParallaxEffect prm (initTypingEffect prm (addSkipToContentLink s2))).
  intros s3 H3. unfold updateActiveNavigation.
  pose proof (forEach_preserves P (update_dot (current_section s3))
                (querySelectorAll s3 ".nav-dot") (λ x s' _, Hupd _ x s') s3 H3) as H4.
  pose proof (forEach_throws E (update_dot (current_section s3))
                (querySelectorAll s3 ".nav-dot") (Eupd _) s3) as E4.
  destruct (forEach _ _ _) as [s4|e s4]; cbn [bind outcome_state settle] in *;
    [auto | apply Hunc; [by eapply E4 | done]].
Qed.

Lemma page_load_invariant (prm : bool) (P : state → Prop) :
  (∀ dot s, P s → P (outcome_state (init_nav_dot dot s))) →
  (∀ s, P s → P (addEventListener TWindow EScroll HScrollThrottle
                   (set_scrollTimeout (λ _, None) s))) →
  (∀ card s, P s → P (init_card card s)) →
  (∀ s, P s → P (addSkipToContentLink s)) →
  (∀ s, P s → P (initTypingEffect prm s)) →
  (∀ s, P s → P (initParallaxEffect prm s)) →
  (∀ cur dot s, P s → P (outcome_state (update_dot cur dot s))) →
  (∀ s, P s → P (addEventListener TMotionQuery EChange HMotionChange s)) →
  (∀ e s, P s → P (set_uncaught (λ l, l ++ [e]) s)) →
  ∀ s, P s → P (page_load prm s).
Proof.
  intros Hdot Hthr Hcard Hlink Hty Hpar Hupd Hmq Hunc.
  apply (page_load_invariant_exn prm P (λ _, True)); auto.
Qed.

Lemma settle_invariant (P : state → Prop) :
  (∀ e s, P s → P (set_uncaught (λ l, l ++ [e]) s)) →
  ∀ o, P (outcome_state o) → P (settle o).
Proof. intros Hunc [s|e s]; cbn; auto. Qed.

Lemma updateActiveNavigation_invariant (P : state → Prop) :
  (∀ cur dot s, P s → P (outcome_state (update_dot cur dot s))) →
  ∀ s, P s → P (outcome_state (updateActiveNavigation s)).
Proof.
  intros Hupd s Hs. unfold updateActiveNavigation.
  apply (forEach_preserves P); [|done]. intros. by apply Hupd.
Qed.

(** Split the body of a listener, a timer function or a start-up function on
    the tests it makes; [rm] splits on whether a removal finds its element
    attached. *)
Ltac body_cases_with rm :=
  unfold navigateToSection, scroll_throttle, card_mouseenter, card_mouseleave,
    card_focus, card_blur, parallax_scroll, skip_click, typeWriter,
    removeAnnouncement, startTyping, parallax_frame, update_dot, init_nav_dot,
    init_card, addSkipToContentLink, initTypingEffect, initParallaxEffect;
  repeat match goal with
  | |- context [if ?b || ?c then _ else _] => destruct (b || c)
  | |- context [match getElementById ?s ?i with _ => _ end] =>
      destruct (getElementById s i)
  | |- context [match scrollTimeout ?s with _ => _ end] =>
      destruct (scrollTimeout s)
  | |- context [match typing ?s with _ => _ end] =>
      destruct (typing s) as [?env|] eqn:?Hty
  | |- context [negb true] => cbn [negb]
  | |- context [negb false] => cbn [negb]
  | |- context [negb ?b] => destruct b; cbn [negb]
  | |- context [if ?a <? ?b then _ else _] => destruct (a <? b)
  | |- context [removeSkipButton _ _] => rm
  | |- context [removeChild _ _ _] => rm
  | |- context [clearTimer (ty_interval ?env)] => destruct (ty_interval env) eqn:?Hiv
  | |- context [match getAttribute ?s ?n ?a with _ => _ end] =>
      destruct (getAttribute s n a)
  | |- context [match querySelector ?s ?sel with _ => _ end] =>
      destruct (querySelector s sel)
  | |- context [if ?b then _ else _ ] => is_var b; destruct b
  end;
  cbn [bind settle outcome_state].

Ltac body_cases := body_cases_with ltac:(idtac; case_remove).

(** ** Removing a transient element never faults (C6) *)

(** Timers that remove the same announcement are the same timer. *)
Definition distinct_removals (l : list timer) : Prop :=
  ∀ t1 t2 a, t1 ∈ l → t2 ∈ l →
    tm_cb t1 = CbRemoveAnnouncement a → tm_cb t2 = CbRemoveAnnouncement a →
    tm_id t1 = tm_id t2.

(** Timer handles are handed out once: those in use differ from one another
    and are below the next one. *)
Definition handles_below (n : positive) (l : list timer) : Prop :=
  NoDup (tm_id <$> l) ∧ Forall (λ t, (tm_id t < n)%positive) l.

Lemma handles_below_snoc n l t :
  handles_below n l → tm_id t = n → handles_below (Pos.succ n) (l ++ [t]).
Proof.
  intros [Hnd Hlt] <-. split.
  - rewrite fmap_app. apply NoDup_app. split_and!; [done| |apply NoDup_singleton].
    intros id Hin Hin'. apply list_elem_of_singleton in Hin' as ->.
    apply list_elem_of_fmap in Hin as (u & Hid & Hu).
    pose proof (proj1 (Forall_forall _ _) Hlt u Hu) as Hlt'. cbn in Hlt'. lia.
  - apply Forall_app_2; [|apply Forall_cons_2; [lia | apply Forall_nil_2]].
    eapply Forall_impl; [exact Hlt|]. cbn. intros. lia.
Qed.

Lemma handles_below_filter (P : timer → Prop) `{∀ t, Decision (P t)} n l :
  handles_below n l → handles_below n (filter P l).
Proof.
  intros [Hnd Hlt]. split; [|by apply filter_Forall].
  eapply sublist_NoDup; [exact Hnd|]. apply fmap_sublist, sublist_filter.
Qed.

Lemma handles_below_reschedule n id due l :
  handles_below n l →
  handles_below n
    (map (λ t', if bool_decide (tm_id t' = id)
                then Timer id true (tm_delay t') (due + tm_delay t') (tm_cb t')
                else t') l).
Proof.
  intros [Hnd Hlt]. split.
  - assert (Heq : tm_id <$> map (λ t', if bool_decide (tm_id t' = id)
                then Timer id true (tm_delay t') (due + tm_delay t') (tm_cb t')
                else t') l = tm_id <$> l); [|by rewrite Heq].
    clear. induction l as [|x l IH]; [done|]. cbn. rewrite <- IH.
    f_equal. by case_bool_decide.
  - apply Forall_fmap. eapply Forall_impl; [exact Hlt|].
    cbn. intros t' Ht'. by case_bool_decide; subst.
Qed.

Lemma distinct_removals_filter (P : timer → Prop) `{∀ t, Decision (P t)} l :
  distinct_removals l → distinct_removals (filter P l).
Proof.
  intros Hl t1 t2 a H1 H2. apply list_elem_of_filter in H1 as [_ H1].
  apply list_elem_of_filter in H2 as [_ H2]. by apply Hl.
Qed.

Lemma distinct_removals_snoc l t :
  distinct_removals l →
  (∀ a, tm_cb t = CbRemoveAnnouncement a →
        Forall (λ t', tm_cb t' ≠ CbRemoveAnnouncement a) l) →
  distinct_removals (l ++ [t]).
Proof.
  intros Hl Ht t1 t2 a H1 H2 Hc1 Hc2.
  apply elem_of_app in H1 as [H1|H1]; apply elem_of_app in H2 as [H2|H2].
  - by apply (Hl t1 t2 a).
  - apply list_elem_of_singleton in H2 as ->.
    by destruct (proj1 (Forall_forall _ _) (Ht a Hc2) t1 H1).
  - apply list_elem_of_singleton in H1 as ->.
    by destruct (proj1 (Forall_forall _ _) (Ht a Hc1) t2 H2).
  - apply list_elem_of_singleton in H1 as ->.
    by apply list_elem_of_singleton in H2 as ->.
Qed.

Lemma distinct_removals_reschedule id due l :
  distinct_removals l →
  distinct_removals
    (map (λ t', if bool_decide (tm_id t' = id)
                then Timer id true (tm_delay t') (due + tm_delay t') (tm_cb t')
                else t') l).
Proof.
  intros Hl t1 t2 a H1 H2 Hc1 Hc2.
  apply list_elem_of_fmap in H1 as (u1 & -> & H1).
  apply list_elem_of_fmap in H2 as (u2 & -> & H2).
  assert (tm_id u1 = tm_id u2) as Hid.
  { apply (Hl u1 u2 a); [done..| |].
    - by destruct (bool_decide (tm_id u1 = id)).
    - by destruct (bool_decide (tm_id u2 = id)). }
  do 2 case_bool_decide; cbn; congruence.
Qed.

Lemma toggle_other (c c' : string) (b : bool) (cl : list string) :
  c ≠ c' →
  bool_decide (c ∈ (if b then (if bool_decide (c' ∈ cl) then cl else cl ++ [c'])
                    else filter (λ x, x ≠ c') cl))
  = bool_decide (c ∈ cl).
Proof.
  intros Hne. apply bool_decide_ext. destruct b.
  - case_bool_decide; [done|]. rewrite elem_of_app, list_elem_of_singleton.
    split; [by intros [?|?] | by left].
  - rewrite list_elem_of_filter. split; [by intros [_ ?] | done].
Qed.

Ltac so_typing :=
  cbn;
  repeat match goal with H : typing _ = _ |- _ => rewrite H end;
  try match goal with
      | |- context [_ <$> typing ?s] => destruct (typing s) as [?env|] eqn:?Hty
      end;
  cbn.

(** One element of the page through the updates of a step. *)
Ltac so_heap :=
  st_heap; rewrite ?lookup_delete_ne by done; rewrite ?toggle_other by done;
  try done;
  try (match goal with e : @eq nat _ _ |- _ => rewrite e in *; by auto end);
  try (intros; exfalso;
       match goal with
       | H : bool_decide (_ ∈ _) = true |- _ =>
           apply bool_decide_eq_true in H; set_solver
       end).

(** The four facts about a pending removal of [a], once it is known how its
    timer came about. *)
Ltac so_facts :=
  split_and!;
  [ so_heap;
    try (exfalso;
         match goal with
         | Hbtn : ∀ env, _ → _ ≠ _ |- _ => by eapply Hbtn
         end)
  | cbn; lia
  | first [ done | cbn; done ]
  | so_typing; first [ assumption | done
                     | let env := fresh "env" in let H := fresh "H" in
                       intros env H; try discriminate;
                       try (injection H as <-); cbn;
                       first [ lia | by eauto
                             | match goal with
                               | Hb : ∀ env, _ = Some env → _ < _ |- _ =>
                                   first [ specialize (Hb _ eq_refl)
                                         | specialize (Hb _ H) ];
                                   cbn in Hb; lia
                               end ] ] ].

Ltac so_member Hin :=
  cbn in Hin;
  repeat first
    [ apply elem_of_app in Hin as [Hin|Hin]
    | apply list_elem_of_filter in Hin as [_ Hin]
    | apply list_elem_of_singleton in Hin as -> ].

Ltac so_goal :=
  match goal with
  | |- ∀ n : nat, bool_decide _ = true → _ =>
      let n := fresh "n" in
      intros n; match goal with Hd : ∀ n : nat, _ |- _ => specialize (Hd n); revert Hd end;
      so_heap
  | |- Forall _ (raf _) => cbn; solve_Forall
  | |- Forall _ (timers _) =>
      let t := fresh "t" in let Hin := fresh "Hin" in
      let a := fresh "a" in let Hcb := fresh "Hcb" in
      apply Forall_forall; intros t Hin a Hcb; so_member Hin;
      [ match goal with
        | Ha : Forall _ (timers ?s) |- _ =>
            destruct (proj1 (Forall_forall _ _) Ha t Hin a Hcb)
              as (Hp & Hlt & Hrep & Hbtn)
        end; so_facts
      | cbn in Hcb; try discriminate; try (injection Hcb as <-); so_facts .. ]
  | |- distinct_removals _ =>
      cbn;
      repeat first [ assumption
                   | apply distinct_removals_filter
                   | apply distinct_removals_reschedule
                   | apply distinct_removals_snoc ];
      try (let a := fresh "a" in let Hcb := fresh "Hcb" in
           cbn; intros a Hcb; try discriminate; injection Hcb as <-;
           match goal with Ha : Forall _ (timers ?s) |- _ =>
             eapply Forall_impl; [exact Ha|];
             let t := fresh "t" in let Ht := fresh "Ht" in let Heq := fresh "Heq" in
             cbn beta; intros t Ht Heq; destruct (Ht _ Heq) as (_ & ? & _); lia
           end)
  | |- ∀ env, _ = Some env → _ < _ =>
      so_typing; let env := fresh "env" in let H := fresh "H" in
      intros env H; try discriminate; try (injection H as <-); cbn;
      try match goal with Hb : ∀ env, _ = Some env → _ < _ |- _ =>
        first [ specialize (Hb _ eq_refl) | specialize (Hb _ H) ]; cbn in Hb end;
      lia
  | |- uncaught _ = [] => cbn; done
  | |- handles_below _ _ =>
      cbn;
      repeat first [ assumption
                   | apply handles_below_filter
                   | apply handles_below_reschedule
                   | apply handles_below_snoc; [|reflexivity] ]
  | |- _ => idtac
  end.

Ltac so_finish := body_cases; unfold get in *; unfold_prims; split_and!; so_goal.






















(** ** Activating a marker without a target (C10) *)

(** The two listeners of a navigation dot (lines 17 and 22). *)
Definition dot_listeners (d : nat) : list listener :=
  [Listener (TNode d) EClick HNavClick; Listener (TNode d) EKeydown HNavKeydown].

(** No listener, timer function or frame function adds or removes a
    listener. *)
Lemma listeners_callback cb s : listeners (settle (run_callback cb s)) = listeners s.
Proof.
  apply (settle_invariant (λ s', listeners s' = listeners s)); [done|].
  destruct cb; cbn [run_callback]; body_cases; try reflexivity.
  apply (updateActiveNavigation_invariant (λ s', listeners s' = listeners s)); [|done].
  intros cur dot s' <-. body_cases; reflexivity.
Qed.

Lemma listeners_dispatch prm ev s : listeners (dispatch prm ev s) = listeners s.
Proof.
  apply (dispatch_invariant prm (λ s', listeners s' = listeners s) (λ _, True));
    try done.
  - intros. by apply Forall_true.
  - intros [t e h] key s' _ <-.
    destruct h; cbn [run_handler ls_handler ls_target]; body_cases; reflexivity.
  - apply (fire_timer_invariant (λ s', listeners s' = listeners s) (λ _, True));
      try done.
    + intros. by apply Forall_true.
    + intros cb s' _ <-. apply listeners_callback.
  - apply (run_frame_invariant (λ s', listeners s' = listeners s) (λ _, True));
      try done.
    + intros. by apply Forall_true.
    + intros cb s' _ <-. apply listeners_callback.
Qed.

Lemma listeners_run prm evs s : listeners (run prm evs s) = listeners s.
Proof.
  apply (fold_left_preserves (λ s', listeners s' = listeners s)); [|done].
  intros ev s' _ <-. apply listeners_dispatch.
Qed.

(** What the first loop of the script leaves as it was. *)
Definition dots_only (s s' : state) : Prop :=
  tree s' = tree s ∧ next_node s' = next_node s ∧ typing s' = typing s
  ∧ timers s' = timers s ∧ uncaught s' = uncaught s
  ∧ ∀ n, marker_target s' n = marker_target s n.

Lemma init_nav_dot_returns d s t :
  marker_target s d = Some t →
  ∃ s1, init_nav_dot d s = Ok s1
    ∧ listeners s1 = listeners s ++ dot_listeners d
    ∧ dots_only s s1
    ∧ ∀ n, n ≠ d → get s1 n = get s n.
Proof.
  intros Ht. unfold init_nav_dot.
  match goal with
  | |- context [match ?g with Some _ => _ | None => _ end] =>
      assert (g = Some t) as ->
  end.
  { by rewrite !getAttribute_setAttribute, !decide_False by (by intros [_ ?]). }
  eexists. split; [reflexivity|]. split_and!.
  - cbn. by rewrite <- app_assoc.
  - unfold dots_only, marker_target, getAttribute, get. unfold_prims.
    split_and!; try done. intros n. st_heap.
  - intros n Hn. unfold get. unfold_prims. st_heap.
Qed.

Lemma init_nav_dot_throws d s :
  marker_target s d = None →
  ∃ s1, init_nav_dot d s = Throw TypeError s1
    ∧ listeners s1 = listeners s
    ∧ dots_only s s1
    ∧ getAttribute s1 d "role" = Some "button"
    ∧ getAttribute s1 d "tabindex" = Some "0"
    ∧ getAttribute s1 d "aria-label" = getAttribute s d "aria-label".
Proof.
  intros Ht. unfold init_nav_dot.
  match goal with
  | |- context [match ?g with Some _ => _ | None => _ end] =>
      assert (g = None) as ->
  end.
  { by rewrite !getAttribute_setAttribute, !decide_False by (by intros [_ ?]). }
  eexists. split; [reflexivity|]. split_and!.
  - done.
  - unfold dots_only, marker_target, getAttribute, get. unfold_prims.
    split_and!; try done. intros n. st_heap.
  - unfold getAttribute, get. unfold_prims. st_heap. by rewrite lookup_insert_eq.
  - unfold getAttribute, get. unfold_prims. st_heap. by rewrite lookup_insert_eq.
  - unfold getAttribute, get. unfold_prims. st_heap.
Qed.

Lemma dots_only_trans s1 s2 s3 : dots_only s1 s2 → dots_only s2 s3 → dots_only s1 s3.
Proof.
  intros (? & ? & ? & ? & ? & Htg1) (? & ? & ? & ? & ? & Htg2).
  split_and!; first [congruence | intros n; by rewrite Htg2, Htg1].
Qed.

Lemma forEach_init_nav_dot_returns l s :
  Forall (λ x, is_Some (marker_target s x)) l →
  ∃ s1, forEach init_nav_dot l s = Ok s1
    ∧ listeners s1 = listeners s ++ (l ≫= dot_listeners)
    ∧ dots_only s s1
    ∧ ∀ n, n ∉ l → get s1 n = get s n.
Proof.
  revert s. induction l as [|d l IH]; intros s Hall.
  - exists s. rewrite app_nil_r. by split_and!.
  - apply Forall_cons in Hall as [[t Ht] Hall].
    destruct (init_nav_dot_returns d s t Ht) as (s1 & Hs1 & Hl1 & Hd1 & Hg1).
    destruct (IH s1) as (s2 & Hs2 & Hl2 & Hd2 & Hg2).
    { destruct Hd1 as (_ & _ & _ & _ & _ & Htg).
      eapply Forall_impl; [exact Hall|]. cbn. intros n. by rewrite Htg. }
    exists s2. cbn [forEach]. rewrite Hs1. cbn [bind]. split_and!.
    + done.
    + rewrite Hl2, Hl1, bind_cons. by rewrite <- app_assoc.
    + by eapply dots_only_trans.
    + intros n Hn. apply not_elem_of_cons in Hn as [Hnd Hnl].
      by rewrite Hg2, Hg1.
Qed.

Lemma forEach_app {A} (f : A → state → outcome) (l1 l2 : list A) (s : state) :
  forEach f (l1 ++ l2) s = let! s1 := forEach f l1 s in forEach f l2 s1.
Proof.
  revert s. induction l1 as [|x l1 IH]; intros s; [done|].
  cbn [app forEach]. destruct (f x s); cbn [bind]; [apply IH | done].
Qed.

(** A list with an element that fails a test has a first such element. *)
Lemma first_failing {A} (P : A → Prop) `{∀ x, Decision (P x)} (l : list A) (x : A) :
  x ∈ l → ¬ P x → ∃ l1 y l2, l = l1 ++ y :: l2 ∧ Forall P l1 ∧ ¬ P y.
Proof.
  intros Hin Hx. induction l as [|z l IH]; [by apply elem_of_nil in Hin|].
  destruct (decide (P z)) as [Hz|Hz].
  - apply elem_of_cons in Hin as [->|Hin]; [done|].
    destruct (IH Hin) as (l1 & y & l2 & -> & Hall & Hy).
    exists (z :: l1), y, l2. split_and!; [done | by apply Forall_cons_2 | done].
  - exists [], z, l. by split_and!.
Qed.

(** The listeners in place when the first loop of the script has stopped at
    a dot without a data-section attribute: those of the dots before it. *)
Lemma page_load_stopped_listeners (prm : bool) (s : state) (l1 l2 : list nat) (d : nat) :
  querySelectorAll s ".nav-dot" = l1 ++ d :: l2 →
  Forall (λ x, is_Some (marker_target s x)) l1 →
  marker_target s d = None →
  listeners (page_load prm s) = listeners s ++ (l1 ≫= dot_listeners).
Proof.
  intros Hdots Hall Hd. unfold page_load, script.
  rewrite Hdots, forEach_app.
  destruct (forEach_init_nav_dot_returns l1 s Hall)
    as (s1 & -> & Hl1 & (_ & _ & _ & _ & _ & Htg1) & _).
  cbn [bind forEach].
  destruct (init_nav_dot_throws d s1) as (s2 & -> & Hl2 & _).
  { by rewrite Htg1. }
  cbn [bind]. cbn [listeners set_uncaught]. by rewrite Hl2, Hl1.
Qed.

Lemma dot_listeners_other (l : list nat) (d : nat) :
  d ∉ l → filter (λ x, ls_target x = TNode d) (l ≫= dot_listeners) = [].
Proof.
  intros Hd. induction l as [|x l IH]; [done|].
  apply not_elem_of_cons in Hd as [Hne Hd].
  rewrite bind_cons, filter_app, IH, app_nil_r by done.
  unfold dot_listeners. rewrite !filter_cons, filter_nil.
  rewrite !decide_False; [done | cbn; congruence..].
Qed.

(** An event at a target nothing listens on changes nothing. *)
Lemma deliver_no_listener (prm : bool) (t : target) (e : evtype) (key : string)
    (s : state) :
  filter (λ l, ls_target l = t) (listeners s) = [] → deliver prm t e key s = s.
Proof.
  intros Hnone. unfold deliver.
  assert (filter (λ l, ls_target l = t ∧ ls_type l = e) (listeners s) = []) as ->;
    [|done].
  induction (listeners s) as [|l ls IH]; [done|].
  rewrite filter_cons in Hnone. rewrite filter_cons.
  destruct (decide (ls_target l = t)) as [Ht|Ht]; [done|].
  rewrite decide_False by (by intros [? _]). by apply IH.
Qed.

(** C10: activating a navigation marker that has no data-section attribute
    is a silent no-op.  On every page, under either preference and after any
    sequence of events, nothing listens on such a marker (the script stopped
    at line 13 when it reached the first marker without the attribute, before
    any listener was added to it), so a click on it and a key pressed on it,
    Enter and Space included, leave the whole page as it was: no
    announcement, no scroll, no focus change, no timer and no exception. *)
Theorem activating_marker_without_target_is_noop (prm : bool)
    (els : list (nat * element)) (evs : list event) (dot : node) :
  dot ∈ querySelectorAll (page els) ".nav-dot" →
  marker_target (page els) dot = None →
  let s := run prm evs (page_load prm (page els)) in
  filter (λ l, ls_target l = TNode dot) (listeners s) = []
  ∧ dispatch prm (EvClick dot) s = s
  ∧ ∀ key, dispatch prm (EvKeydown dot key) s = s.
Proof.
  intros Hin Hnone. cbv zeta.
  destruct (first_failing (λ x, is_Some (marker_target (page els) x))
              (querySelectorAll (page els) ".nav-dot") dot Hin)
    as (l1 & d0 & l2 & Hdots & Hall & Hd0).
  { rewrite Hnone. by intros [? ?]. }
  assert (Hl : filter (λ l, ls_target l = TNode dot)
                 (listeners (run prm evs (page_load prm (page els)))) = []).
  { rewrite listeners_run.
    rewrite (page_load_stopped_listeners prm (page els) l1 l2 d0 Hdots Hall).
    - cbn [listeners page app]. apply dot_listeners_other.
      intros Hin1. pose proof (proj1 (Forall_forall _ _) Hall dot Hin1) as [t Ht].
      congruence.
    - destruct (marker_target (page els) d0) eqn:Ht; [|done].
      by destruct Hd0. }
  revert Hl. generalize (run prm evs (page_load prm (page els))). intros s Hl.
  split_and!; [done| |intros key]; unfold dispatch; destruct (reloaded s); try done;
    by apply deliver_no_listener.
Qed.

Lemma activating_marker_without_target_is_noop_witness :
  let s := run false [EvClick 2; EvKeydown 2 "Enter"; EvElapse 1000]
             (page_load false page_id_null) in
  filter (λ l, ls_target l = TNode 2) (listeners s) = []
  ∧ dispatch false (EvClick 2) s = s
  ∧ ∀ key, dispatch false (EvKeydown 2 key) s = s.
Proof.
  apply (activating_marker_without_target_is_noop false _
           [EvClick 2; EvKeydown 2 "Enter"; EvElapse 1000] 2).
  - vm_compute. set_solver.
  - reflexivity.
Defined.

(** * Further properties *)

(** ** Skipping once the typing timer runs (lines 176-181) *)

(** typingInterval, None while undefined or before the effect is set up. *)
Definition interval_of (s : state) : option positive :=
  env ← typing s; ty_interval env.

(** While the effect is set up: the typing environment belongs to
    [subtitle] and [text]; the interval timers that run typeWriter are the
    one typingInterval names; the start-up timeout is the timer [start] and
    is pending only while typingInterval is undefined. *)
Definition typing_timers (subtitle : node) (text : string) (start : positive)
    (s : state) : Prop :=
  ty_subtitle <$> typing s = Some subtitle
  ∧ ty_text <$> typing s = Some text
  ∧ Forall (λ t, tm_cb t = CbTypeWriter → interval_of s = Some (tm_id t)) (timers s)
  ∧ Forall (λ t, tm_cb t = CbStartTyping
                 → interval_of s = None ∧ tm_id t = start ∧ tm_repeat t = false)
      (timers s)
  ∧ Forall (λ cb, cb = CbParallaxFrame) (raf s)
  ∧ subtitle < next_node s
  ∧ Forall (λ t, tm_id t = start → tm_cb t = CbStartTyping) (timers s)
  ∧ (start < next_timer s)%positive.

(** After a skip that found the timer running: no typing timer is left and
    the subtitle shows the full text. *)
Definition halted (subtitle : node) (text : string) (s : state) : Prop :=
  ty_subtitle <$> typing s = Some subtitle
  ∧ ty_text <$> typing s = Some text
  ∧ Forall (λ t, tm_cb t ≠ CbTypeWriter ∧ tm_cb t ≠ CbStartTyping) (timers s)
  ∧ Forall (λ cb, cb = CbParallaxFrame) (raf s)
  ∧ subtitle < next_node s
  ∧ textContent s subtitle = text.

Ltac ty_rewrite :=
  cbn; repeat match goal with H : typing _ = Some _ |- _ => rewrite H end; cbn;
  repeat match goal with H : ty_interval _ = _ |- _ => rewrite H end.

Ltac tt_goal :=
  match goal with
  | |- Forall _ _ =>
      ty_rewrite; solve_Forall; try (cbn; intros; discriminate);
      try (cbn; split; discriminate); try (cbn; intros; lia)
  | |- _ <$> _ = Some _ => ty_rewrite; first [done | congruence]
  | |- _ < _ => cbn; lia
  | |- (_ < _)%positive => cbn; lia
  | |- el_text _ = _ => st_heap
  | |- typing _ = _ => cbn; done
  | |- _ ≫= _ = _ => ty_rewrite; done
  | |- _ => idtac
  end.

Ltac tt_finish := unfold_prims; cbn [bind settle]; split_and!; tt_goal.

Ltac tt_start :=
  unfold typing_timers, halted, interval_of, textContent, get;
  intros (Hsub & Htext & Hg & Hh & Hraf & Hn & Hst & Hlt).

Ltac ht_start :=
  unfold halted, textContent, get;
  intros (Hsub & Htext & Hg & Hraf & Hn & Htx).

(** Split a listener's body on the tests it makes. *)
Ltac handler_cases :=
  unfold navigateToSection, scroll_throttle, card_mouseenter, card_mouseleave,
    card_focus, card_blur, parallax_scroll;
  repeat match goal with
  | |- context [if ?b || ?c then _ else _] => destruct (b || c)
  | |- context [match getElementById ?s ?i with _ => _ end] =>
      destruct (getElementById s i)
  | |- context [match scrollTimeout ?s with _ => _ end] =>
      destruct (scrollTimeout s)
  | |- context [negb ?b] => destruct b; cbn [negb]
  end.

Lemma skip_click_typing sub text start s :
  typing_timers sub text start s →
  typing_timers sub text start (outcome_state (skip_click s))
  ∧ typing (outcome_state (skip_click s)) = typing s.
Proof.
  tt_start. unfold skip_click.
  destruct (typing s) as [env|] eqn:Hty; [|done].
  cbn in Hsub, Htext, Hg, Hh. injection Hsub as Hsub. injection Htext as Htext.
  case_remove; destruct (ty_interval env) eqn:Hiv; tt_finish.
Qed.

(** No listener changes the typing environment, and each keeps the typing
    timers as they should be. *)
Lemma handler_typing_timers sub text start prm h t key s :
  typing_timers sub text start s →
  typing_timers sub text start (settle (run_handler prm h t key s))
  ∧ typing (settle (run_handler prm h t key s)) = typing s.
Proof.
  intros Hs. pose proof (skip_click_typing sub text start s Hs) as Hskip.
  destruct h; cbn [run_handler]; try (by destruct (skip_click s)).
  all: revert Hs; clear Hskip; tt_start; cbn [settle]; handler_cases; tt_finish.
Qed.

Lemma handler_halted sub text prm h t key s :
  halted sub text s → halted sub text (settle (run_handler prm h t key s)).
Proof.
  intros Hs.
  assert (Hskip : halted sub text (outcome_state (skip_click s))).
  { revert Hs. ht_start. unfold skip_click.
    destruct (typing s) as [env|] eqn:Hty; [|done].
    cbn in Hsub, Htext. injection Hsub as Hsub. injection Htext as Htext.
    rewrite Hsub, Htext.
    case_remove; destruct (ty_interval env); tt_finish. }
  destruct h; cbn [run_handler]; try (by destruct (skip_click s)).
  all: revert Hs; clear Hskip; ht_start; cbn [settle]; handler_cases; tt_finish.
Qed.

(** updateActiveNavigation, whether it returns or throws, changes elements
    only, and of an element only its attributes and classes. *)
Lemma updateActiveNavigation_frame s :
  let s' := outcome_state (updateActiveNavigation s) in
  s' = set_heap (λ _, heap s') s
  ∧ ∀ n, el_text (get s' n) = el_text (get s n)
         ∧ el_style (get s' n) = el_style (get s n)
         ∧ el_parent (get s' n) = el_parent (get s n).
Proof.
  cbv zeta. unfold updateActiveNavigation.
  apply (forEach_preserves
           (λ s', s' = set_heap (λ _, heap s') s
                  ∧ ∀ n, el_text (get s' n) = el_text (get s n)
                         ∧ el_style (get s' n) = el_style (get s n)
                         ∧ el_parent (get s' n) = el_parent (get s n))).
  - intros d s' _ [Hshell Hfr]. unfold update_dot.
    destruct (getAttribute _ _ _); cbn [outcome_state]; (split;
      [ rewrite Hshell; reflexivity
      | intros n; destruct (Hfr n) as (<- & <- & <-);
        unfold_prims; split_and!; st_heap ]).
  - split; [by destruct s | done].
Qed.

(** The skip listener, run while typingInterval names the running timer,
    cancels every typing timer and shows the full text. *)
Lemma skip_click_halts sub text start s id :
  typing_timers sub text start s → interval_of s = Some id →
  halted sub text (outcome_state (skip_click s)).
Proof.
  tt_start. intros Hid. unfold skip_click.
  destruct (typing s) as [env|] eqn:Hty; [|done].
  cbn in Hsub, Htext, Hg, Hh, Hid. injection Hsub as Hsub. injection Htext as Htext.
  rewrite Hid in *.
  assert (Hnone : Forall (λ t, tm_cb t ≠ CbTypeWriter ∧ tm_cb t ≠ CbStartTyping)
                    (filter (λ t, tm_id t ≠ id) (timers s))).
  { apply Forall_forall. intros t Hin.
    apply list_elem_of_filter in Hin as [Hne Hin].
    pose proof (proj1 (Forall_forall _ _) Hg t Hin) as Hg1.
    pose proof (proj1 (Forall_forall _ _) Hh t Hin) as Hh1.
    split; intros Hcb.
    - specialize (Hg1 Hcb). congruence.
    - by destruct (Hh1 Hcb). }
  case_remove; unfold_prims; split_and!;
    first [ by (ty_rewrite; exact Hnone) | tt_goal ].
  all: st_heap.
Qed.

Lemma callback_typing_timers sub text start cb s :
  cb ≠ CbStartTyping →
  typing_timers sub text start s →
  typing_timers sub text start (settle (run_callback cb s))
  ∧ interval_of (settle (run_callback cb s)) = interval_of s.
Proof.
  intros Hcb. tt_start. destruct cb; cbn [run_callback].
  - destruct (updateActiveNavigation_frame s) as [Hshell _].
    assert (Hsettle : ∀ o, outcome_state o = set_heap (λ _, heap (outcome_state o)) s →
              typing_timers sub text start (settle o)
              ∧ interval_of (settle o) = interval_of s).
    { intros [s'|e s'] Hsh; cbn [outcome_state settle] in *; rewrite Hsh;
        unfold typing_timers, interval_of; by split_and!. }
    by apply Hsettle.
  - tt_finish.
  - done.
  - unfold typeWriter. destruct (typing s) as [env|] eqn:Hty; [|done].
    cbn in Hsub, Htext, Hg, Hh. injection Hsub as Hsub. injection Htext as Htext.
    destruct (_ <? _); [tt_finish|].
    case_remove; destruct (ty_interval env) eqn:Hiv; tt_finish.
  - unfold removeAnnouncement. case_remove; tt_finish.
  - unfold parallax_frame. tt_finish.
Qed.

Lemma callback_halted sub text cb s :
  cb ≠ CbStartTyping → cb ≠ CbTypeWriter →
  halted sub text s → halted sub text (settle (run_callback cb s)).
Proof.
  intros Hcb1 Hcb2. ht_start. destruct cb; cbn [run_callback].
  - destruct (updateActiveNavigation_frame s) as [Hshell Hfr].
    destruct (Hfr sub) as (Htx' & _ & _).
    assert (Hsettle : ∀ o, outcome_state o = set_heap (λ _, heap (outcome_state o)) s →
              el_text (heap (outcome_state o) !!! sub) = el_text (heap s !!! sub) →
              halted sub text (settle o)).
    { intros [s'|e s'] Hsh Ht; cbn [outcome_state settle] in *; rewrite Hsh;
        unfold halted, textContent, get; cbn [heap set_heap set_uncaught];
        rewrite Ht; by split_and!. }
    by apply Hsettle.
  - tt_finish.
  - done.
  - done.
  - unfold removeAnnouncement. case_remove; tt_finish.
  - unfold parallax_frame. tt_finish.
Qed.

Lemma typing_timers_settle sub text start o :
  typing_timers sub text start (outcome_state o) →
  typing_timers sub text start (settle o).
Proof. by destruct o. Qed.

(** Rescheduling or retiring the timer that fires keeps the shape. *)
Lemma typing_timers_retire sub text start id (t : timer) s :
  typing_timers sub text start s → t ∈ timers s → tm_id t = id →
  let s1 := if tm_repeat t
            then set_timers
                   (map (λ t', if bool_decide (tm_id t' = id)
                               then Timer id true (tm_delay t') (now s + tm_delay t')
                                      (tm_cb t')
                               else t')) s
            else clearTimer (Some id) s in
  typing_timers sub text start s1 ∧ typing s1 = typing s.
Proof.
  intros Hs Hin Hid. revert Hs. tt_start. cbv zeta.
  destruct (tm_repeat t) eqn:Hrep; (split; [|try done]); tt_finish.
  - apply Forall_fmap. eapply Forall_impl; [exact Hg|].
    cbn. intros t' Ht'. case_bool_decide as Hid'; [|done].
    cbn. intros Hcb. rewrite (Ht' Hcb). congruence.
  - apply Forall_fmap. apply Forall_forall. intros t' Hin'.
    pose proof (proj1 (Forall_forall _ _) Hh t' Hin') as Hh'.
    cbn. case_bool_decide as Hid'; [|done].
    cbn. intros Hcb. destruct (Hh' Hcb) as (_ & Hstart & _).
    assert (Hcbt : tm_cb t = CbStartTyping).
    { apply (proj1 (Forall_forall _ _) Hst t Hin). congruence. }
    destruct (proj1 (Forall_forall _ _) Hh t Hin Hcbt) as (_ & _ & ?). congruence.
  - apply Forall_fmap. eapply Forall_impl; [exact Hst|].
    cbn. intros t' Ht'. by case_bool_decide; cbn; [intros <-; auto|].
Qed.

Lemma fire_timer_typing_timers sub text start id s :
  typing_timers sub text start s → typing_timers sub text start (fire_timer id s).
Proof.
  intros Hs. unfold fire_timer.
  destruct (List.find _ (timers s)) as [t|] eqn:Hfind; [|done].
  destruct (tm_due t <=? now s); [|done].
  apply find_some in Hfind as [Hin Hid]. apply bool_decide_eq_true_1 in Hid.
  apply list_elem_of_In in Hin.
  destruct (decide (tm_cb t = CbStartTyping)) as [Hcb|Hcb].
  - (* the start-up timeout: it is the only one, and nothing runs yet *)
    rewrite Hcb. cbn [run_callback settle].
    revert Hs. tt_start.
    destruct (proj1 (Forall_forall _ _) Hh t Hin Hcb) as (Hnone & Hstart & Hrep).
    rewrite Hrep.
    assert (Hclean : Forall (λ t', tm_cb t' ≠ CbTypeWriter ∧ tm_cb t' ≠ CbStartTyping)
                       (filter (λ t', tm_id t' ≠ id) (timers s))).
    { apply Forall_forall. intros t' Hin'.
      apply list_elem_of_filter in Hin' as [Hne Hin'].
      pose proof (proj1 (Forall_forall _ _) Hg t' Hin') as Hg1.
      pose proof (proj1 (Forall_forall _ _) Hh t' Hin') as Hh1.
      split; intros Hcb'.
      - specialize (Hg1 Hcb'). congruence.
      - destruct (Hh1 Hcb') as (_ & ? & _). congruence. }
    destruct (typing s) as [env|] eqn:Hty; [|done].
    unfold startTyping. unfold_prims. split_and!.
    + ty_rewrite. done.
    + ty_rewrite. done.
    + ty_rewrite. apply Forall_app_2; [|by repeat constructor].
      eapply Forall_impl; [exact Hclean|]. cbn. by intros t' [? _] ?.
    + ty_rewrite. apply Forall_app_2; [|by repeat constructor].
      eapply Forall_impl; [exact Hclean|]. cbn. by intros t' [_ ?] ?.
    + cbn. done.
    + cbn. lia.
    + cbn. apply Forall_app_2; [|repeat constructor; cbn; intros; lia].
      apply Forall_forall. intros t' Hin'.
      apply list_elem_of_filter in Hin' as [Hne Hin']. intros Heq. congruence.
    + cbn. lia.
  - destruct (typing_timers_retire sub text start id t s Hs Hin Hid) as [Hs1 _].
    cbv zeta in Hs1.
    by apply (callback_typing_timers sub text start (tm_cb t) _ Hcb).
Qed.

Lemma fold_callbacks_preserve (P : state → Prop) (cbs : list callback) s :
  (∀ s', P s' → P (settle (run_callback CbParallaxFrame s'))) →
  Forall (λ cb, cb = CbParallaxFrame) cbs → P s →
  P (fold_left (λ s cb, settle (run_callback cb s)) cbs s).
Proof.
  intros Hstep Hall. revert s. induction Hall as [|cb cbs -> _ IH]; intros s Hs;
    [done|].
  cbn [fold_left]. by apply IH, Hstep.
Qed.

Lemma dispatch_typing_timers sub text start prm ev s :
  typing_timers sub text start s → typing_timers sub text start (dispatch prm ev s).
Proof.
  intros Hs. unfold dispatch. destruct (reloaded s); [done|].
  assert (Hdel : ∀ t e key s1, typing_timers sub text start s1 →
            typing_timers sub text start (deliver prm t e key s1)).
  { intros t e key s1 Hs1. unfold deliver.
    apply (fold_left_preserves (typing_timers sub text start)); [|done].
    intros l s' _ Hs'. by apply handler_typing_timers. }
  destruct ev; try (apply Hdel; revert Hs; tt_start; by tt_finish).
  - by apply fire_timer_typing_timers.
  - unfold run_frame.
    apply fold_callbacks_preserve.
    + intros s' Hs'. by apply (callback_typing_timers sub text start CbParallaxFrame).
    + by destruct Hs as (_ & _ & _ & _ & ? & _).
    + revert Hs. tt_start. tt_finish.
  - revert Hs. tt_start. tt_finish.
Qed.

Lemma dispatch_halted sub text prm ev s :
  halted sub text s → halted sub text (dispatch prm ev s).
Proof.
  intros Hs. unfold dispatch. destruct (reloaded s); [done|].
  assert (Hdel : ∀ t e key s1, halted sub text s1 →
            halted sub text (deliver prm t e key s1)).
  { intros t e key s1 Hs1. unfold deliver.
    apply (fold_left_preserves (halted sub text)); [|done].
    intros l s' _ Hs'. by apply handler_halted. }
  destruct ev; try (apply Hdel; revert Hs; ht_start; by tt_finish).
  - unfold fire_timer.
    destruct (List.find _ (timers s)) as [t|] eqn:Hfind; [|done].
    destruct (tm_due t <=? now s); [|done].
    apply find_some in Hfind as [Hin _]. apply list_elem_of_In in Hin.
    destruct Hs as (Hsub & Htext & Hg & Hraf & Hn & Htx).
    destruct (proj1 (Forall_forall _ _) Hg t Hin) as [Hcb1 Hcb2].
    apply callback_halted; [done..|].
    destruct (tm_repeat t); unfold halted, textContent, get in *; tt_finish.
    apply Forall_fmap. eapply Forall_impl; [exact Hg|].
    cbn. intros t' Ht'. by destruct (bool_decide _).
  - unfold run_frame.
    apply fold_callbacks_preserve.
    + intros s' Hs'. by apply callback_halted.
    + by destruct Hs as (_ & _ & _ & ? & _).
    + revert Hs. ht_start. tt_finish.
  - revert Hs. ht_start. tt_finish.
Qed.

Lemma run_typing_timers sub text start prm evs s :
  typing_timers sub text start s → typing_timers sub text start (run prm evs s).
Proof.
  intros Hs. unfold run.
  apply (fold_left_preserves (typing_timers sub text start)); [|done].
  intros. by apply dispatch_typing_timers.
Qed.

Lemma run_halted sub text prm evs s :
  halted sub text s → halted sub text (run prm evs s).
Proof.
  intros Hs. unfold run. apply (fold_left_preserves (halted sub text)); [|done].
  intros. by apply dispatch_halted.
Qed.

Lemma halted_settle sub text o :
  halted sub text (outcome_state o) → halted sub text (settle o).
Proof. by destruct o. Qed.

Lemma fold_handlers_halt sub text start id prm t key (ls : list listener) s :
  typing_timers sub text start s → interval_of s = Some id →
  Exists (λ l, ls_handler l = HSkipClick) ls →
  halted sub text
    (fold_left (λ s l, settle (run_handler prm (ls_handler l) t key s)) ls s).
Proof.
  revert s. induction ls as [|l ls IH]; intros s Hs Hid Hex;
    [by apply Exists_nil in Hex|].
  cbn [fold_left].
  destruct (decide (ls_handler l = HSkipClick)) as [Heq|Hne].
  - rewrite Heq. cbn [run_handler].
    apply (fold_left_preserves (halted sub text)).
    + intros l' s' _ Hs'. by apply handler_halted.
    + apply halted_settle. by eapply skip_click_halts.
  - destruct (handler_typing_timers sub text start prm (ls_handler l) t key s Hs)
      as [Hs1 Hty1].
    apply IH; [done | |].
    + unfold interval_of in *. by rewrite Hty1.
    + apply Exists_cons in Hex as [?|?]; done.
Qed.

Lemma insert_before_first_elem (P : nat → bool) (x y : nat) (t : list nat) :
  y ∈ insert_before_first P x t ↔ y = x ∨ y ∈ t.
Proof.
  induction t as [|z t IH]; cbn.
  - rewrite list_elem_of_singleton, elem_of_nil. tauto.
  - destruct (P z); [apply elem_of_cons|]. rewrite !elem_of_cons, IH. tauto.
Qed.

(** The script itself creates no element and starts no timer. *)
Lemma script_shell s :
  tree (outcome_state (script s)) = tree s
  ∧ next_node (outcome_state (script s)) = next_node s.
Proof.
  unfold script.
  assert (Hdots : ∀ l s1, tree s1 = tree s ∧ next_node s1 = next_node s →
            tree (outcome_state (forEach init_nav_dot l s1)) = tree s
            ∧ next_node (outcome_state (forEach init_nav_dot l s1)) = next_node s).
  { intros l s1 Hs1.
    apply (forEach_preserves (λ s', tree s' = tree s ∧ next_node s' = next_node s));
      [|done].
    intros d s' _ Hs'. unfold init_nav_dot. by destruct (getAttribute _ _ _). }
  specialize (Hdots (querySelectorAll s ".nav-dot") s ltac:(done)).
  destruct (forEach _ _ _) as [s1|e s1]; cbn [bind outcome_state] in *; [|done].
  apply (fold_left_preserves (λ s', tree s' = tree s ∧ next_node s' = next_node s)).
  - intros c s' _ Hs'. unfold init_card. by destruct (negb _).
  - done.
Qed.

Lemma nodes_below_addSkipToContentLink s :
  nodes_below s → nodes_below (addSkipToContentLink s).
Proof.
  unfold nodes_below, addSkipToContentLink. unfold_prims. cbn. intros Hn.
  apply Forall_forall. intros y Hy.
  apply insert_before_first_elem in Hy as [->|Hy]; [lia|].
  apply list_elem_of_filter in Hy as [_ Hy].
  pose proof (proj1 (Forall_forall _ _) Hn y Hy). cbn in *. lia.
Qed.

Lemma querySelector_in_tree s sel n : querySelector s sel = Some n → n ∈ tree s.
Proof.
  unfold querySelector, querySelectorAll. destruct sel as [|c sel]; [done|].
  destruct (Ascii.eqb_spec c "."%char) as [->|Hne].
  - intros Hh. apply head_Some_elem_of in Hh.
    by apply list_elem_of_filter in Hh as [_ ?].
  - intros Hh. exfalso. revert Hh.
    destruct c as [[] [] [] [] [] [] [] []]; done.
Qed.

(** Right after initTypingEffect the start-up timeout is the only typing
    timer. *)
Lemma initTypingEffect_typing_timers s env :
  blank s → nodes_below s →
  typing (initTypingEffect false s) = Some env →
  typing_timers (ty_subtitle env) (ty_text env) (next_timer s)
    (initTypingEffect false s).
Proof.
  intros (Hty & Ht & Hr & Hrm & Hl) Hn. unfold initTypingEffect.
  destruct (querySelector s ".subtitle") as [sub|] eqn:Hq; [|congruence].
  apply querySelector_in_tree in Hq.
  pose proof (proj1 (Forall_forall _ _) Hn sub Hq) as Hsub. cbn in Hsub.
  cbn [negb]. unfold_prims. cbn. intros [= <-]. cbn.
  unfold typing_timers, interval_of. cbn. rewrite Ht, Hr. cbn.
  split_and!; try done; try lia; repeat constructor; cbn; try done; try lia.
Qed.

Lemma typing_timers_finish_loading sub text start s :
  typing_timers sub text start s →
  typing_timers sub text start (settle (finish_loading s)).
Proof.
  intros Hs. unfold finish_loading.
  destruct (updateActiveNavigation_frame s) as [Hshell _].
  destruct (updateActiveNavigation s) as [s'|e s']; cbn [outcome_state bind settle] in *;
    rewrite Hshell; revert Hs; unfold typing_timers, interval_of; cbn; done.
Qed.

Lemma page_load_typing_timers s env :
  blank s → nodes_below s → typing (page_load false s) = Some env →
  ∃ start, typing_timers (ty_subtitle env) (ty_text env) start (page_load false s).
Proof.
  intros Hs Hn. unfold page_load. pose proof (blank_script s Hs) as H1.
  pose proof (script_shell s) as [Htree Hnext].
  destruct (script s) as [s1|e s1]; cbn [outcome_state] in *.
  2:{ destruct H1 as [Hty _]. cbn [typing set_uncaught]. by rewrite Hty. }
  assert (Hn1 : nodes_below s1) by (unfold nodes_below; by rewrite Htree, Hnext).
  clear Hs Hn Htree Hnext. rewrite on_DOMContentLoaded_unfold.
  pose proof (blank_addSkipToContentLink s1 H1) as H2.
  pose proof (nodes_below_addSkipToContentLink s1 Hn1) as Hn2.
  assert (H3 : ∀ env, typing (initTypingEffect false (addSkipToContentLink s1)) = Some env →
            ∃ start, typing_timers (ty_subtitle env) (ty_text env) start
                       (initTypingEffect false (addSkipToContentLink s1))).
  { intros env' Henv'. eexists.
    by apply (initTypingEffect_typing_timers (addSkipToContentLink s1)). }
  generalize dependent (initTypingEffect false (addSkipToContentLink s1)).
  intros s3 H3 Henv.
  rewrite typing_finish_loading, typing_initParallaxEffect in Henv.
  destruct (H3 env Henv) as [start Htt]. exists start. clear H3.
  apply typing_timers_finish_loading.
  revert Htt. clear. tt_start. unfold initParallaxEffect. tt_finish.
Qed.

Lemma nodes_below_page els : nodes_below (page els).
Proof.
  unfold nodes_below, page. cbn. induction els as [|[n e] els IH]; [done|].
  cbn. constructor; [lia|]. eapply Forall_impl; [exact IH|]. cbn. lia.
Qed.

(** With Motion Preference false, once the start-up delay is over (the
    per-character timer runs and typingInterval names it), a click on the
    skip control cancels that timer for good: whatever happens afterwards,
    including further clicks on the control, no typing timer is pending, so
    typeWriter is never called again, and the subtitle shows the full
    captured text, once. *)
Theorem skip_after_start_halts (els : list (nat * element)) (evs evs' : list event) :
  let s0 := page_load false (page els) in
  ∀ env0 id, typing s0 = Some env0 →
  let s := run false evs s0 in
  interval_of s = Some id → reloaded s = false →
  let s' := run false evs' (dispatch false (EvClick (ty_skipButton env0)) s) in
  textContent s' (ty_subtitle env0) = ty_text env0
  ∧ Forall (λ t, tm_cb t ≠ CbTypeWriter ∧ tm_cb t ≠ CbStartTyping) (timers s').
Proof.
  intros s0 env0 id Henv s Hid Hrel s'.
  destruct (page_load_typing_timers (page els) env0 (blank_page els)
              (nodes_below_page els) Henv) as [start Htt0].
  destruct (page_load_skip_inv (page els) env0 (blank_page els) Henv) as [Hi0 _].
  fold s0 in Htt0, Hi0.
  assert (Htt : typing_timers (ty_subtitle env0) (ty_text env0) start s)
    by by apply run_typing_timers.
  assert (Hi : skip_inv (ty_skipButton env0) s) by by apply run_skip_inv.
  assert (Hh : halted (ty_subtitle env0) (ty_text env0) s').
  { subst s'. apply run_halted. unfold dispatch. rewrite Hrel. unfold deliver.
    eapply fold_handlers_halt; [exact Htt | exact Hid |].
    apply Exists_exists.
    exists (Listener (TNode (ty_skipButton env0)) EClick HSkipClick).
    split; [|done]. apply list_elem_of_filter. split; [done|].
    by destruct Hi as [(_ & _ & _ & _ & _ & ?) _]. }
  clearbody s' s s0.
  by destruct Hh as (_ & _ & ? & _ & _ & ?).
Qed.

Lemma skip_after_start_halts_witness :
  let s := run false [EvElapse 1000; EvTimer 1; EvElapse 50; EvTimer 2]
             (page_load false portfolio) in
  let s' := run false [EvClick 15; EvElapse 500] (dispatch false (EvClick 15) s) in
  textContent s' 11 = "Hi"
  ∧ Forall (λ t, tm_cb t ≠ CbTypeWriter ∧ tm_cb t ≠ CbStartTyping) (timers s').
Proof.
  cbv zeta.
  apply (skip_after_start_halts _ [EvElapse 1000; EvTimer 1; EvElapse 50; EvTimer 2]
           [EvClick 15; EvElapse 500] (TypingEnv 11 "Hi" 15 0 None) 2%positive).
  - vm_compute. reflexivity.
  - vm_compute. reflexivity.
  - vm_compute. reflexivity.
Defined.

(** ** The typing effect shows a prefix of the text *)

Lemma substring_succ (s : string) (i : nat) :
  i < String.length s →
  String.substring 0 (S i) s = String.substring 0 i s +:+ charAt s i.
Proof.
  revert i. induction s as [|c s IH]; intros i Hi; cbn in Hi; [lia|].
  destruct i as [|i]; [by destruct s|].
  cbn [String.substring]. rewrite IH by lia.
  unfold charAt. cbn [String.get]. by destruct i.
Qed.

Lemma substring_full (s : string) : String.substring 0 (String.length s) s = s.
Proof. induction s as [|c s IH]; [done|]. cbn. by rewrite IH. Qed.

(** The subtitle shows the first [i] characters of the captured text, [i]
    being the counter of typeWriter. *)
Definition typing_progress (subtitle : node) (text : string) (s : state) : Prop :=
  (∃ env, typing s = Some env
          ∧ ty_subtitle env = subtitle ∧ ty_text env = text
          ∧ ty_i env ≤ String.length text
          ∧ el_text (get s subtitle) = String.substring 0 (ty_i env) text)
  ∧ subtitle < next_node s.

Ltac pg_start :=
  unfold typing_progress, get; intros ((env & Hty & Hsub & Htext & Hle & Htx) & Hn).

Ltac pg_finish :=
  unfold_prims; cbn [bind settle outcome_state];
  split;
  [ eexists; split;
    [ cbn; match goal with H : typing _ = Some _ |- _ => rewrite ?H end;
      cbn; reflexivity
    | cbn [ty_subtitle ty_text ty_i set_i set_interval];
      split_and!; try done; try lia; st_heap ]
  | cbn; lia ].

Lemma handler_progress sub text prm h t key s :
  h ≠ HSkipClick →
  typing_progress sub text s →
  typing_progress sub text (settle (run_handler prm h t key s)).
Proof.
  intros Hne. pg_start.
  destruct h; cbn [run_handler]; try done; handler_cases; pg_finish.
Qed.

Lemma callback_progress sub text cb s :
  typing_progress sub text s →
  typing_progress sub text (settle (run_callback cb s)).
Proof.
  intros Hs. destruct cb; cbn [run_callback].
  - destruct (updateActiveNavigation_frame s) as [Hshell Hfr].
    destruct (Hfr sub) as (Htx' & _ & _).
    revert Hs. pg_start.
    destruct (updateActiveNavigation s) as [s'|e s'];
      cbn [outcome_state settle] in *; unfold get in *; rewrite Hshell;
      (split; [exists env; cbn; split_and!; try done; congruence | done]).
  - revert Hs. pg_start. pg_finish.
  - revert Hs. pg_start. unfold startTyping. pg_finish.
  - revert Hs. pg_start. unfold typeWriter. rewrite Hty, Hsub, Htext.
    destruct (ty_i env <? String.length text) eqn:Hlt.
    + apply Nat.ltb_lt in Hlt. pg_finish.
      rewrite Htx. symmetry. by apply substring_succ.
    + case_remove; destruct (ty_interval env); pg_finish.
  - revert Hs. pg_start. unfold removeAnnouncement. case_remove; pg_finish.
  - revert Hs. pg_start. unfold parallax_frame. pg_finish.
Qed.

Lemma progress_settle sub text o :
  typing_progress sub text (outcome_state o) → typing_progress sub text (settle o).
Proof. by destruct o. Qed.

(** An event other than a click on the skip control keeps the subtitle at
    the prefix typed so far. *)
Lemma dispatch_progress sub text btn prm ev s :
  ev ≠ EvClick btn → skip_inv btn s →
  typing_progress sub text s → typing_progress sub text (dispatch prm ev s).
Proof.
  intros Hev Hi Hs. unfold dispatch. destruct (reloaded s); [done|].
  assert (Hdel : ∀ t e key s1, ¬ (t = TNode btn ∧ e = EClick) →
            listeners s1 = listeners s →
            typing_progress sub text s1 →
            typing_progress sub text (deliver prm t e key s1)).
  { intros t e key s1 Hne Hls Hs1. unfold deliver. rewrite Hls.
    apply (fold_left_preserves (typing_progress sub text)); [|done].
    intros l s' Hin Hs'. apply handler_progress; [|done].
    intros Hh. apply list_elem_of_filter in Hin as [[<- <-] Hin].
    destruct Hi as [(_ & _ & _ & _ & Hl' & _) _].
    by apply Hne, (proj1 (Forall_forall _ _) Hl' l Hin). }
  destruct ev.
  - apply Hdel; [|done..]. intros [[= ->] _]. done.
  - apply Hdel; [by intros [_ ?]|done..].
  - apply Hdel; [by intros [_ ?]|done..].
  - apply Hdel; [by intros [_ ?]|done..].
  - apply Hdel; [by intros [_ ?]|done|]. revert Hs. pg_start. pg_finish.
  - apply Hdel; [by intros [_ ?]|done|]. revert Hs. pg_start. pg_finish.
  - apply Hdel; [by intros [? _]|done|]. revert Hs. pg_start. pg_finish.
  - apply Hdel; [by intros [? _]|done..].
  - unfold fire_timer.
    destruct (List.find _ (timers s)) as [t|]; [|done].
    destruct (tm_due t <=? now s); [|done].
    apply callback_progress.
    revert Hs. pg_start. destruct (tm_repeat t); pg_finish.
  - unfold run_frame.
    apply (fold_left_preserves (typing_progress sub text)).
    + intros cb s' _ Hs'. by apply callback_progress.
    + revert Hs. pg_start. pg_finish.
  - revert Hs. pg_start. pg_finish.
Qed.

(** Right after initTypingEffect the subtitle is empty, the counter is zero
    and the captured text is what the subtitle showed. *)
Lemma initTypingEffect_progress s env :
  blank s → nodes_below s →
  typing (initTypingEffect false s) = Some env →
  typing_progress (ty_subtitle env) (ty_text env) (initTypingEffect false s)
  ∧ ty_i env = 0.
Proof.
  intros (Hty & _) Hn. unfold initTypingEffect.
  destruct (querySelector s ".subtitle") as [sub|] eqn:Hq; [|congruence].
  apply querySelector_in_tree in Hq.
  pose proof (proj1 (Forall_forall _ _) Hn sub Hq) as Hsub. cbn in Hsub.
  cbn [negb]. intros Henv.
  assert (env = TypingEnv sub (textContent s sub) (next_node s) 0 None) as ->.
  { revert Henv. unfold_prims. cbn. congruence. }
  clear Henv. split; [|done]. unfold typing_progress, get. unfold_prims.
  split; [|cbn; lia].
  eexists. split; [cbn; reflexivity|].
  cbn [ty_subtitle ty_text ty_i]. split_and!; try done; try lia.
  st_heap. by destruct (el_text _).
Qed.

Lemma progress_finish_loading sub text s :
  typing_progress sub text s → typing_progress sub text (settle (finish_loading s)).
Proof.
  intros Hs. unfold finish_loading.
  destruct (updateActiveNavigation_frame s) as [Hshell Hfr].
  destruct (Hfr sub) as (Htx' & _ & _).
  revert Hs. pg_start.
  destruct (updateActiveNavigation s) as [s'|e s'];
    cbn [outcome_state bind settle] in *; unfold get in *; rewrite Hshell;
    (split; [exists env; cbn; split_and!; try done; congruence | done]).
Qed.

Lemma page_load_progress s env :
  blank s → nodes_below s → typing (page_load false s) = Some env →
  typing_progress (ty_subtitle env) (ty_text env) (page_load false s)
  ∧ ty_i env = 0.
Proof.
  intros Hs Hn. unfold page_load. pose proof (blank_script s Hs) as H1.
  pose proof (script_shell s) as [Htree Hnext].
  destruct (script s) as [s1|e s1]; cbn [outcome_state] in *.
  2:{ destruct H1 as [Hty _]. cbn [typing set_uncaught]. by rewrite Hty. }
  assert (Hn1 : nodes_below s1) by (unfold nodes_below; by rewrite Htree, Hnext).
  clear Hs Hn Htree Hnext. rewrite on_DOMContentLoaded_unfold.
  pose proof (blank_addSkipToContentLink s1 H1) as H2.
  pose proof (nodes_below_addSkipToContentLink s1 Hn1) as Hn2.
  pose proof (λ env, initTypingEffect_progress (addSkipToContentLink s1) env H2 Hn2)
    as H3.
  generalize dependent (initTypingEffect false (addSkipToContentLink s1)).
  intros s3 H3 Henv.
  rewrite typing_finish_loading, typing_initParallaxEffect in Henv.
  destruct (H3 env Henv) as [Hp Hi0]. split; [|done]. clear H3.
  apply progress_finish_loading.
  revert Hp. generalize (ty_subtitle env) (ty_text env). clear.
  intros sub text. pg_start. unfold initParallaxEffect. pg_finish.
Qed.

(** With Motion Preference false, as long as the skip control is not
    clicked, the subtitle shows exactly the first [i] characters of the text
    captured at start-up, [i] being the number of characters typeWriter has
    emitted, never more than the text has; it starts empty, and shows the
    whole text once [i] has reached its length. *)
Theorem typing_shows_prefix (els : list (nat * element)) (evs : list event) :
  let s0 := page_load false (page els) in
  ∀ env0, typing s0 = Some env0 →
  EvClick (ty_skipButton env0) ∉ evs →
  let s := run false evs s0 in
  textContent s0 (ty_subtitle env0) = ""
  ∧ ∃ env, typing s = Some env
      ∧ ty_text env = ty_text env0
      ∧ ty_i env ≤ String.length (ty_text env0)
      ∧ textContent s (ty_subtitle env0)
        = String.substring 0 (ty_i env) (ty_text env0)
      ∧ (ty_i env = String.length (ty_text env0) →
         textContent s (ty_subtitle env0) = ty_text env0).
Proof.
  intros s0 env0 Henv Hev s.
  destruct (page_load_progress (page els) env0 (blank_page els)
              (nodes_below_page els) Henv) as [Hp0 Hi0].
  destruct (page_load_skip_inv (page els) env0 (blank_page els) Henv) as [Hk0 _].
  fold s0 in Hp0, Hk0.
  assert (Hboth : skip_inv (ty_skipButton env0) s
                  ∧ typing_progress (ty_subtitle env0) (ty_text env0) s).
  { subst s. unfold run.
    apply (fold_left_preserves
             (λ s, skip_inv (ty_skipButton env0) s
                   ∧ typing_progress (ty_subtitle env0) (ty_text env0) s)
             (λ s ev, dispatch false ev s));
      [|done].
    intros ev s' Hin [Hk Hp]. split.
    - eapply advance_inv; [done|]. by apply dispatch_step.
    - eapply dispatch_progress; [|done..]. intros ->. done. }
  split.
  - destruct Hp0 as [(env & Hty & _ & _ & _ & Htx) _].
    unfold textContent. rewrite Htx.
    assert (env = env0) as -> by congruence.
    rewrite Hi0. by destruct (ty_text env0).
  - clearbody s s0. destruct Hboth as [_ [(env & Hty & _ & Htext & Hle & Htx) _]].
    exists env. unfold textContent. split_and!; try done.
    intros Hfull. rewrite Htx, Hfull. apply substring_full.
Qed.

Lemma typing_shows_prefix_witness :
  let s := run false [EvElapse 1000; EvTimer 1; EvElapse 50; EvTimer 2]
             (page_load false portfolio) in
  ∃ env, typing s = Some env
      ∧ ty_text env = "Hi"
      ∧ ty_i env ≤ 2
      ∧ textContent s 11 = String.substring 0 (ty_i env) "Hi"
      ∧ (ty_i env = 2 → textContent s 11 = "Hi").
Proof.
  cbv zeta.
  refine (proj2 (typing_shows_prefix _ [EvElapse 1000; EvTimer 1; EvElapse 50; EvTimer 2]
                   (TypingEnv 11 "Hi" 15 0 None) _ _)).
  - vm_compute. reflexivity.
  - vm_compute. intros H. repeat (apply elem_of_cons in H as [H|H]; [discriminate|]).
    by apply elem_of_nil in H.
Defined.

(** ** Scrolling to a section (lines 38-42) *)

(** Every scrollIntoView call so far asked for the behaviour [b]. *)
Definition scrolls_as (b : string) (s : state) : Prop :=
  Forall (λ p : nat * string, p.2 = b) (scroll_log s).

Ltac sa_solve :=
  unfold scrolls_as; intros; body_cases; unfold_prims; cbn; solve_Forall.

Lemma scrolls_as_handler (prm : bool) l key s :
  scrolls_as (if prm then "auto" else "smooth") s →
  scrolls_as (if prm then "auto" else "smooth")
    (settle (run_handler prm (ls_handler l) (ls_target l) key s)).
Proof.
  destruct l as [t e h]. destruct h; cbn [run_handler ls_handler ls_target]; sa_solve.
Qed.

Lemma scrolls_as_callback b cb s :
  scrolls_as b s → scrolls_as b (settle (run_callback cb s)).
Proof.
  intros Hs. apply (settle_invariant (scrolls_as b)); [sa_solve|].
  destruct cb; cbn [run_callback]; try (revert Hs; sa_solve).
  apply (updateActiveNavigation_invariant (scrolls_as b)); [sa_solve | done].
Qed.

Lemma scrolls_as_dispatch (prm : bool) ev s :
  scrolls_as (if prm then "auto" else "smooth") s →
  scrolls_as (if prm then "auto" else "smooth") (dispatch prm ev s).
Proof.
  apply (dispatch_invariant prm _ (λ _, True)); try done.
  - intros. by apply Forall_true.
  - intros. by apply scrolls_as_handler.
  - apply (fire_timer_invariant _ (λ _, True)); try done.
    + intros. by apply Forall_true.
    + intros. by apply scrolls_as_callback.
  - apply (run_frame_invariant _ (λ _, True)); try done.
    + intros. by apply Forall_true.
    + intros. by apply scrolls_as_callback.
Qed.

(** Every scroll the script asks for is instant when the visitor prefers
    reduced motion and smooth when not: on any page, after any sequence of
    events, each scrollIntoView call made so far carried the behaviour that
    goes with the preference read at start-up. *)
Theorem scroll_behaviour_follows_preference (prm : bool)
    (els : list (nat * element)) (evs : list event) :
  Forall (λ p : nat * string, p.2 = if prm then "auto" else "smooth")
    (scroll_log (run prm evs (page_load prm (page els)))).
Proof.
  apply (fold_left_preserves (scrolls_as (if prm then "auto" else "smooth"))).
  - intros. by apply scrolls_as_dispatch.
  - apply (page_load_invariant prm (scrolls_as (if prm then "auto" else "smooth")));
      sa_solve.
Qed.

(** ** The scroll throttle (lines 56-65) *)

(** The pending calls of updateActiveNavigation. *)
Definition nav_pending (s : state) : list timer :=
  filter (λ t, tm_cb t = CbUpdateNav) (timers s).

(** At most one call of updateActiveNavigation is pending, and
    [scrollTimeout] names it. *)
Definition throttled (s : state) : Prop :=
  length (nav_pending s) ≤ 1
  ∧ Forall (λ t, tm_cb t = CbUpdateNav → scrollTimeout s = Some (tm_id t)) (timers s).

Lemma length_filter_filter {A} (P Q : A → Prop) `{∀ x, Decision (P x)}
    `{∀ x, Decision (Q x)} (l : list A) :
  length (filter P (filter Q l)) ≤ length (filter P l).
Proof.
  induction l as [|x l IH]; [done|].
  rewrite !filter_cons. destruct (decide (Q x)), (decide (P x));
    rewrite ?filter_cons; repeat case_decide; cbn; try done; lia.
Qed.

Lemma filter_reschedule (c : callback) (id : positive) (due : nat) (l : list timer) :
  length (filter (λ t, tm_cb t = c)
            (map (λ t', if bool_decide (tm_id t' = id)
                        then Timer id true (tm_delay t') (due + tm_delay t') (tm_cb t')
                        else t') l))
  = length (filter (λ t, tm_cb t = c) l).
Proof.
  induction l as [|x l IH]; [done|].
  cbn [map]. rewrite !filter_cons.
  assert (tm_cb (if bool_decide (tm_id x = id)
                 then Timer id true (tm_delay x) (due + tm_delay x) (tm_cb x)
                 else x) = tm_cb x) as Hcb by (by destruct (bool_decide _)).
  rewrite Hcb. destruct (decide (tm_cb x = c)); cbn; by rewrite IH.
Qed.

Lemma nav_pending_cleared (id : positive) (l : list timer) :
  Forall (λ t, tm_cb t = CbUpdateNav → Some id = Some (tm_id t)) l →
  filter (λ t, tm_cb t = CbUpdateNav) (filter (λ t, tm_id t ≠ id) l) = [].
Proof.
  intros Hall. induction Hall as [|x l Hx Hall IH]; [done|].
  rewrite filter_cons. destruct (decide (tm_id x ≠ id)) as [Hne|]; [|done].
  rewrite filter_cons. destruct (decide (tm_cb x = CbUpdateNav)) as [Hcb|]; [|done].
  specialize (Hx Hcb). congruence.
Qed.

Lemma nav_pending_none (l : list timer) :
  Forall (λ t, tm_cb t = CbUpdateNav → None = Some (tm_id t)) l →
  filter (λ t, tm_cb t = CbUpdateNav) l = [].
Proof.
  intros Hall. induction Hall as [|x l Hx Hall IH]; [done|].
  rewrite filter_cons. destruct (decide (tm_cb x = CbUpdateNav)) as [Hcb|]; [|done].
  by specialize (Hx Hcb).
Qed.

Lemma none_pending_throttled s :
  Forall (λ t, tm_cb t ≠ CbUpdateNav) (timers s) → throttled s.
Proof.
  intros Hall. unfold throttled, nav_pending. split.
  - induction Hall as [|t l Ht Hall IH]; [cbn; lia|].
    rewrite filter_cons. by destruct (decide _).
  - eapply Forall_impl; [exact Hall|]. done.
Qed.

(** The scroll listener leaves exactly one call pending, due 16 ms later. *)
Lemma scroll_throttle_restarts s :
  throttled s →
  nav_pending (scroll_throttle s)
  = [Timer (next_timer s) false 16 (now s + 16) CbUpdateNav].
Proof.
  unfold throttled, nav_pending, scroll_throttle. intros [_ Hall].
  destruct (scrollTimeout s) as [id|]; unfold_prims; cbn;
    rewrite filter_app, filter_cons, filter_nil;
    (destruct (decide _); [|done]).
  - by rewrite nav_pending_cleared.
  - by rewrite nav_pending_none.
Qed.

Lemma throttled_scroll_throttle s : throttled s → throttled (scroll_throttle s).
Proof.
  intros Hs. pose proof (scroll_throttle_restarts s Hs) as Hp.
  split; [by rewrite Hp|]. clear Hp. destruct Hs as [_ Hall].
  unfold scroll_throttle. destruct (scrollTimeout s) as [id|]; unfold_prims; cbn.
  all: apply Forall_app_2; [|by apply Forall_cons_2].
  all: apply Forall_forall; intros t Hin Hcb; exfalso.
  - pose proof (nav_pending_cleared id (timers s) Hall) as Hnil.
    assert (t ∈ filter (λ t, tm_cb t = CbUpdateNav) (filter (λ t, tm_id t ≠ id) (timers s)))
      as Hin' by (by apply list_elem_of_filter).
    rewrite Hnil in Hin'. by apply elem_of_nil in Hin'.
  - pose proof (nav_pending_none (timers s) Hall) as Hnil.
    assert (t ∈ filter (λ t, tm_cb t = CbUpdateNav) (timers s))
      as Hin' by (by apply list_elem_of_filter).
    rewrite Hnil in Hin'. by apply elem_of_nil in Hin'.
Qed.

Ltac th_solve :=
  unfold throttled, nav_pending; intros *; intros [Hlen Hall];
  body_cases; unfold_prims; cbn;
  (split;
   [ rewrite ?filter_app, ?filter_cons, ?filter_nil; repeat case_decide;
     try discriminate; cbn; rewrite ?app_nil_r, ?filter_reschedule;
     first [ exact Hlen
           | eapply Nat.le_trans; [apply length_filter_filter | exact Hlen] ]
   | solve_Forall ]).

Lemma throttled_handler prm l key s :
  throttled s → throttled (settle (run_handler prm (ls_handler l) (ls_target l) key s)).
Proof.
  destruct l as [t e h].
  destruct h; cbn [run_handler ls_handler ls_target settle];
    first [ exact (throttled_scroll_throttle s) | th_solve ].
Qed.

Lemma throttled_callback cb s :
  throttled s → throttled (settle (run_callback cb s)).
Proof.
  intros Hs. apply (settle_invariant throttled); [th_solve|].
  destruct cb; cbn [run_callback]; try (revert Hs; th_solve).
  apply (updateActiveNavigation_invariant throttled); [th_solve | done].
Qed.

Lemma throttled_dispatch prm ev s : throttled s → throttled (dispatch prm ev s).
Proof.
  apply (dispatch_invariant prm _ (λ _, True)); try done.
  - intros. by apply Forall_true.
  - intros. by apply throttled_handler.
  - apply (fire_timer_invariant _ (λ _, True)).
    + intros. by apply Forall_true.
    + intros. by apply throttled_callback.
    + th_solve.
    + intros id' due s' [Hlen Hall]. split.
      * unfold nav_pending. cbn [timers set_timers].
        by rewrite (filter_reschedule CbUpdateNav).
      * cbn [timers set_timers scrollTimeout].
        apply Forall_fmap. eapply Forall_impl; [exact Hall|].
        cbn. intros t'. case_bool_decide; [subst id'|]; done.
  - apply (run_frame_invariant _ (λ _, True)); try done.
    + intros. by apply Forall_true.
    + intros. by apply throttled_callback.
Qed.

(** Scroll events are coalesced: on any page, after any sequence of events,
    at most one call of updateActiveNavigation is pending and scrollTimeout
    is its timer; and the scroll listener, run then, leaves exactly one
    pending call, due 16 ms after that scroll, whatever was pending
    before. *)
Theorem scroll_updates_coalesce (prm : bool) (els : list (nat * element))
    (evs : list event) :
  let s := run prm evs (page_load prm (page els)) in
  length (nav_pending s) ≤ 1
  ∧ (∀ t, t ∈ nav_pending s → scrollTimeout s = Some (tm_id t))
  ∧ nav_pending (scroll_throttle s)
    = [Timer (next_timer s) false 16 (now s + 16) CbUpdateNav].
Proof.
  intros s.
  assert (Hs : throttled s).
  { apply (fold_left_preserves throttled).
    - intros. by apply throttled_dispatch.
    - apply none_pending_throttled.
      apply (page_load_invariant prm
               (λ s, Forall (λ t, tm_cb t ≠ CbUpdateNav) (timers s)));
        intros; body_cases; unfold_prims; cbn; solve_Forall. }
  clearbody s. split; [apply Hs|]. split; [|by apply scroll_throttle_restarts].
  intros t Hin. apply list_elem_of_filter in Hin as [Hcb Hin].
  destruct Hs as [_ Hall]. by apply (proj1 (Forall_forall _ _) Hall).
Qed.

(** ** Parallax frames (lines 218-235) *)

(** [ticking] tells whether a frame is requested: one parallax frame is
    pending while it is true, none while it is false; the frame function is
    never on a timer. *)
Definition frame_pending (s : state) : Prop :=
  raf s = (if ticking s then [CbParallaxFrame] else [])
  ∧ Forall (λ t, tm_cb t ≠ CbParallaxFrame) (timers s).

Ltac fp_solve :=
  unfold frame_pending; intros *; intros [Hraf Ht];
  body_cases; unfold_prims; cbn;
  (split; [ first [ done | by rewrite Hraf ] | solve_Forall ]).

Lemma frame_pending_handler prm l key s :
  frame_pending s →
  frame_pending (settle (run_handler prm (ls_handler l) (ls_target l) key s)).
Proof.
  destruct l as [t e h].
  destruct h; cbn [run_handler ls_handler ls_target settle]; try fp_solve.
  unfold frame_pending, parallax_scroll. intros [Hraf Ht].
  destruct (ticking s) eqn:Htick; cbn; rewrite ?Htick; [done|]. by rewrite Hraf.
Qed.

Lemma frame_pending_callback cb s :
  cb ≠ CbParallaxFrame →
  frame_pending s → frame_pending (settle (run_callback cb s)).
Proof.
  intros Hcb Hs. apply (settle_invariant frame_pending); [fp_solve|].
  destruct cb; cbn [run_callback]; try done; try (revert Hs; fp_solve).
  apply (updateActiveNavigation_invariant frame_pending); [fp_solve | done].
Qed.

(** A display refresh runs the pending frame, which paints the body's
    background at half the scroll offset of that moment. *)
Lemma run_frame_paints s :
  frame_pending s →
  frame_pending (run_frame s)
  ∧ ticking (run_frame s) = false
  ∧ background (run_frame s)
    = if ticking s
      then Some ("center " +:+ half_to_string (scrollY s) +:+ "px")
      else background s.
Proof.
  unfold frame_pending, run_frame, background. intros [Hraf Ht]. rewrite Hraf.
  destruct (ticking s) eqn:Htick; cbn [fold_left run_callback settle].
  - unfold parallax_frame, get. unfold_prims. cbn.
    split_and!; try done. rewrite lookup_total_insert_eq.
    cbn [el_style with_style]. by rewrite lookup_insert_eq.
  - cbn. by rewrite Htick.
Qed.

Lemma frame_pending_dispatch prm ev s :
  frame_pending s → frame_pending (dispatch prm ev s).
Proof.
  apply (dispatch_invariant prm _ (λ _, True)); try done.
  - intros. by apply Forall_true.
  - intros. by apply frame_pending_handler.
  - apply (fire_timer_invariant _ (λ cb, cb ≠ CbParallaxFrame)).
    + by intros s' [_ Ht].
    + intros. by apply frame_pending_callback.
    + fp_solve.
    + fp_solve. apply Forall_fmap. eapply Forall_impl; [exact Ht|].
      cbn. intros t'. by case_bool_decide.
  - intros s' Hs'. by apply run_frame_paints.
Qed.

(** The parallax effect asks for one frame at a time: on any page, after
    any sequence of events, a parallax frame is pending exactly when
    [ticking] is true, and there is never more than one; the next display
    refresh clears [ticking] and, when a frame was pending, sets the
    background of the body to half the scroll offset at the time of the
    refresh (not of the scroll event that asked for the frame). *)
Theorem parallax_one_frame (prm : bool) (els : list (nat * element))
    (evs : list event) :
  let s := run prm evs (page_load prm (page els)) in
  raf s = (if ticking s then [CbParallaxFrame] else [])
  ∧ ticking (run_frame s) = false
  ∧ raf (run_frame s) = []
  ∧ background (run_frame s)
    = if ticking s
      then Some ("center " +:+ half_to_string (scrollY s) +:+ "px")
      else background s.
Proof.
  intros s.
  assert (Hs : frame_pending s).
  { apply (fold_left_preserves frame_pending).
    - intros. by apply frame_pending_dispatch.
    - assert (Hload : raf (page_load prm (page els)) = []
                      ∧ ticking (page_load prm (page els)) = false
                      ∧ Forall (λ t, tm_cb t ≠ CbParallaxFrame)
                          (timers (page_load prm (page els)))).
      { apply (page_load_invariant prm
                 (λ s, raf s = [] ∧ ticking s = false
                       ∧ Forall (λ t, tm_cb t ≠ CbParallaxFrame) (timers s)));
          try (intros *; intros (Hr & Htk & Ht); body_cases; unfold_prims; cbn;
               split_and!; solve_Forall).
        by split_and!. }
      destruct Hload as (Hr & Htk & Ht). split; [by rewrite Hr, Htk | done]. }
  clearbody s. destruct (run_frame_paints s Hs) as ([Hr' _] & Htk' & Hbg).
  split; [apply Hs|]. split; [done|]. split; [|done]. by rewrite Hr', Htk'.
Qed.

(** ** No uncaught exception *)

(** Every navigation dot names a section; every announcement with a
    pending removal is a child of the body, is removed once and by one
    timer, and is not the skip control; nothing has been thrown. *)
Definition sound (s : state) : Prop :=
  (∀ n, has_class s "nav-dot" n = true → is_Some (getAttribute s n "data-section"))
  ∧ Forall (λ t, ∀ a, tm_cb t = CbRemoveAnnouncement a →
               el_parent (get s a) = Some body ∧ a < next_node s
               ∧ tm_repeat t = false
               ∧ (∀ env, typing s = Some env → ty_skipButton env ≠ a))
      (timers s)
  ∧ distinct_removals (timers s)
  ∧ (∀ env, typing s = Some env → ty_skipButton env < next_node s)
  ∧ Forall (λ cb, cb = CbParallaxFrame) (raf s)
  ∧ uncaught s = []
  ∧ handles_below (next_timer s) (timers s).

Ltac so_start :=
  unfold sound, has_class; intros *; intros (Hd & Ha & Hu & Hb & Hr & Hun & Hids).

Lemma sound_announce msg s : sound s → sound (announceToScreenReader msg s).
Proof. so_start. so_finish. Qed.

Lemma sound_navigate prm el s : sound s → sound (navigateToSection prm el s).
Proof.
  intros Hs. unfold navigateToSection.
  destruct (getElementById _ _) as [sec|]; [|done]. cbv zeta.
  pose proof (sound_announce
                ("Navigating to " +:+ ToString (getAttribute s el "data-section")
                 +:+ " section") s Hs) as Hs1.
  revert Hs1. generalize (announceToScreenReader
                ("Navigating to " +:+ ToString (getAttribute s el "data-section")
                 +:+ " section") s).
  clear Hs. intros s1. so_start. so_finish.
Qed.

Lemma sound_handler prm l key s :
  sound s → sound (settle (run_handler prm (ls_handler l) (ls_target l) key s)).
Proof.
  destruct l as [t e h].
  destruct h; cbn [run_handler ls_handler ls_target settle];
    try apply sound_navigate.
  - destruct (_ || _); [apply sound_navigate | done].
  - so_start; so_finish.
  - so_start; so_finish.
  - so_start; so_finish.
  - so_start; so_finish.
  - so_start; so_finish.
  - so_start; so_finish.
  - so_start; so_finish.
  - so_start; so_finish.
  - so_start; so_finish.
  - so_start; so_finish.
Qed.

(** A loop whose every round returns, returns. *)
Lemma forEach_returns {A} (P : state → Prop) (Q : A → state → Prop)
    (f : A → state → outcome) (l : list A) :
  (∀ x s, P s → Q x s → ∃ s', f x s = Ok s' ∧ P s' ∧ ∀ y, Q y s → Q y s') →
  ∀ s, P s → Forall (λ x, Q x s) l →
  ∃ s', forEach f l s = Ok s' ∧ P s' ∧ ∀ y, Q y s → Q y s'.
Proof.
  intros Hf. induction l as [|x l IH]; intros s Hs Hall.
  - exists s. by split_and!.
  - apply Forall_cons in Hall as [Hx Hall].
    destruct (Hf x s Hs Hx) as (s1 & Hs1 & HP1 & HQ1).
    destruct (IH s1 HP1) as (s' & Hs' & HP' & HQ').
    { eapply Forall_impl; [exact Hall|]. cbn. auto. }
    exists s'. cbn [forEach]. rewrite Hs1. cbn [bind]. split_and!; auto.
Qed.

Lemma update_dot_sound cur d s :
  sound s → has_class s "nav-dot" d = true →
  ∃ s', update_dot cur d s = Ok s' ∧ sound s'
        ∧ ∀ y, has_class s "nav-dot" y = true → has_class s' "nav-dot" y = true.
Proof.
  intros Hs Hdot. pose proof Hs as (Hd & _). destruct (Hd d Hdot) as [tg Ht].
  unfold update_dot.
  match goal with
  | |- context [match ?g with Some _ => _ | None => _ end] =>
      assert (g = Some tg) as ->
  end.
  { rewrite getAttribute_setAttribute, decide_False by (by intros [_ ?]).
    unfold getAttribute at 1. by rewrite get_classList_toggle. }
  eexists. split; [reflexivity|]. split.
  - clear Hdot Ht Hd. revert Hs. so_start. unfold get in *. unfold_prims.
    split_and!; so_goal.
  - intros y. unfold has_class, get. unfold_prims. so_heap.
Qed.

Lemma updateActiveNavigation_sound s :
  sound s → ∃ s', updateActiveNavigation s = Ok s' ∧ sound s'.
Proof.
  intros Hs. unfold updateActiveNavigation.
  destruct (forEach_returns sound (λ d s, has_class s "nav-dot" d = true)
              (update_dot (current_section s)) (querySelectorAll s ".nav-dot")
              (λ d s', update_dot_sound _ d s') s Hs) as (s' & Hs' & HP & _).
  { apply Forall_forall. intros d Hin. unfold querySelectorAll in Hin.
    by apply list_elem_of_filter in Hin as [? _]. }
  by exists s'.
Qed.

Lemma sound_callback cb s :
  (∀ a, cb ≠ CbRemoveAnnouncement a) →
  sound s → sound (settle (run_callback cb s)).
Proof.
  intros Hcb Hs. destruct cb; cbn [run_callback].
  - destruct (updateActiveNavigation_sound s Hs) as (s' & -> & Hs'). done.
  - revert Hs. so_start. cbn [settle]. so_finish.
  - revert Hs. so_start. cbn [settle]. so_finish.
  - revert Hs. so_start. so_finish.
  - by destruct (Hcb a).
  - revert Hs. so_start. cbn [settle]. so_finish.
Qed.

(** The timer that removes an announcement finds it attached: the removal
    returns, and no other timer is left to remove it again. *)
Lemma sound_remove_announcement s t a :
  sound s → t ∈ timers s → tm_cb t = CbRemoveAnnouncement a →
  sound (settle (removeAnnouncement a (clearTimer (Some (tm_id t)) s))).
Proof.
  intros Hs Hin Hcb. pose proof Hs as (_ & Ha & Hu & _).
  destruct (proj1 (Forall_forall _ _) Ha t Hin a Hcb) as (Hp & Hlt & Hrep & Hbtn).
  unfold removeAnnouncement, removeChild.
  rewrite bool_decide_eq_true_2 by exact Hp. cbn [settle].
  clear Ha Hu. revert Hs. so_start. unfold get in *. unfold_prims.
  split_and!; try so_goal.
  apply Forall_forall. intros t' Hin' a' Hcb'. cbn in Hin'.
  apply list_elem_of_filter in Hin' as [Hne Hin'].
  destruct (proj1 (Forall_forall _ _) Ha t' Hin' a' Hcb') as (Hp' & Hlt' & Hrep' & Hbtn').
  assert (a' ≠ a) as Hne'.
  { intros ->. apply Hne. by apply (Hu t' t a). }
  split_and!; [so_heap | cbn; lia | done | done].
Qed.

Lemma sound_fire_timer id s : sound s → sound (fire_timer id s).
Proof.
  intros Hs. unfold fire_timer.
  destruct (List.find _ _) as [t|] eqn:Hfind; [|done].
  destruct (_ <=? _); [|done].
  apply find_some in Hfind as [Hin Hid]. apply list_elem_of_In in Hin.
  apply bool_decide_eq_true in Hid. subst id.
  destruct (tm_cb t) as [| | | |a|] eqn:Hcb.
  5:{ pose proof Hs as (_ & Ha & _).
      destruct (proj1 (Forall_forall _ _) Ha t Hin a Hcb) as (_ & _ & -> & _).
      cbn [run_callback]. by apply sound_remove_announcement. }
  all: apply sound_callback; [done|].
  all: destruct (tm_repeat t); revert Hs; so_start; so_finish.
  all: apply Forall_forall; intros t' Hin' a' Hcb'; cbn in Hin';
    apply list_elem_of_fmap in Hin' as (u & -> & Hu');
    assert (tm_cb u = CbRemoveAnnouncement a') as Hcbu
      by (by destruct (bool_decide (tm_id u = tm_id t)));
    destruct (proj1 (Forall_forall _ _) Ha u Hu' a' Hcbu) as (Hp' & Hlt' & Hrep' & Hbtn');
    (split_and!; [done | done | | done]);
    case_bool_decide as Hid; [|done]; exfalso;
    destruct Hids as [Hnd _];
    assert (u = t) as -> by (by apply (NoDup_fmap_elem_inj tm_id (timers s)));
    congruence.
Qed.

Lemma sound_dispatch prm ev s : sound s → sound (dispatch prm ev s).
Proof.
  apply (dispatch_invariant prm _ (λ _, True)).
  - intros. by apply Forall_true.
  - intros. by apply sound_handler.
  - so_start. so_finish.
  - so_start. so_finish.
  - so_start. so_finish.
  - apply sound_fire_timer.
  - apply (run_frame_invariant _ (λ cb, cb = CbParallaxFrame)).
    + by intros s' (_ & _ & _ & _ & Hr & _ & _).
    + intros cb s' -> Hs'. by apply sound_callback.
    + so_start. so_finish.
Qed.

Lemma init_nav_dot_sound d s :
  sound s → has_class s "nav-dot" d = true →
  ∃ s', init_nav_dot d s = Ok s' ∧ sound s'
        ∧ ∀ y, has_class s "nav-dot" y = true → has_class s' "nav-dot" y = true.
Proof.
  intros Hs Hdot. pose proof Hs as (Hd & _). destruct (Hd d Hdot) as [tg Ht].
  unfold init_nav_dot.
  match goal with
  | |- context [match ?g with Some _ => _ | None => _ end] =>
      assert (g = Some tg) as ->
  end.
  { by rewrite !getAttribute_setAttribute, !decide_False by (by intros [_ ?]). }
  eexists. split; [reflexivity|]. split.
  - clear Hdot Ht Hd. revert Hs. so_start. unfold get in *. unfold_prims.
    split_and!; so_goal.
  - intros y. unfold has_class, get. unfold_prims. so_heap.
Qed.

(** The script of a page whose dots all name a section runs to its end. *)
Lemma sound_script s : sound s → ∃ s1, script s = Ok s1 ∧ sound s1.
Proof.
  intros Hs. unfold script.
  destruct (forEach_returns sound (λ d s, has_class s "nav-dot" d = true)
              init_nav_dot (querySelectorAll s ".nav-dot")
              init_nav_dot_sound s Hs) as (s1 & -> & Hs1 & _).
  { apply Forall_forall. intros d Hin. unfold querySelectorAll in Hin.
    by apply list_elem_of_filter in Hin as [? _]. }
  cbn [bind]. clear Hs. eexists. split; [reflexivity|].
  apply (fold_left_preserves sound).
  - intros card s' _. so_start. so_finish.
  - revert Hs1. so_start. so_finish.
Qed.

Lemma sound_setup prm s :
  sound s →
  sound (initParallaxEffect prm (initTypingEffect prm (addSkipToContentLink s))).
Proof.
  intros Hs.
  assert (Hlink : sound (addSkipToContentLink s))
    by (revert Hs; so_start; so_finish).
  revert Hlink. generalize (addSkipToContentLink s). clear Hs. intros sa Hlink.
  assert (Htype : sound (initTypingEffect prm sa))
    by (revert Hlink; so_start; so_finish).
  revert Htype. generalize (initTypingEffect prm sa). clear Hlink.
  intros sb. so_start. so_finish.
Qed.

(** Loading a page whose dots all name a section throws nothing. *)
Lemma sound_page_load prm s : sound s → sound (page_load prm s).
Proof.
  intros Hs. unfold page_load.
  destruct (sound_script s Hs) as (s1 & -> & Hs1).
  rewrite on_DOMContentLoaded_unfold.
  pose proof (sound_setup prm s1 Hs1) as H3.
  revert H3. generalize (initParallaxEffect prm (initTypingEffect prm (addSkipToContentLink s1))).
  intros s3 H3. unfold finish_loading.
  destruct (updateActiveNavigation_sound s3 H3) as (s4 & -> & H4).
  cbn [bind settle]. revert H4. so_start. so_finish.
Qed.

(** A parsed page whose navigation dots all name a section. *)
Lemma sound_page els :
  Forall (λ d, is_Some (marker_target (page els) d))
    (querySelectorAll (page els) ".nav-dot") →
  sound (page els).
Proof.
  intros Hall. unfold sound, handles_below. split_and!; try done.
  2:{ intros t1 t2 a Hin. by apply elem_of_nil in Hin. }
  2:{ cbn. apply NoDup_nil_2. }
  intros n Hn. apply (proj1 (Forall_forall _ _) Hall).
  unfold querySelectorAll. apply list_elem_of_filter. split; [done|].
  unfold has_class, get in Hn. cbn in *.
  destruct (decide (n ∈ els.*1)) as [|Hnin]; [done|].
  apply not_elem_of_list_to_map_1 in Hnin.
  rewrite lookup_total_alt, Hnin in Hn. cbn in Hn.
  apply bool_decide_eq_true in Hn. by apply elem_of_nil in Hn.
Qed.

(** On a page whose navigation dots all carry a data-section attribute, no
    listener and no timer function of the script ever throws: whatever the
    motion preference and whatever events follow the load, no exception
    reaches the event loop.  In particular every announcement is still a
    child of the body when its removal timer fires. *)
Theorem no_uncaught_exception (prm : bool) (els : list (nat * element))
    (evs : list event) :
  Forall (λ d, is_Some (marker_target (page els) d))
    (querySelectorAll (page els) ".nav-dot") →
  uncaught (run prm evs (page_load prm (page els))) = [].
Proof.
  intros Hall.
  assert (Hs : sound (run prm evs (page_load prm (page els)))).
  { apply (fold_left_preserves sound).
    - intros. by apply sound_dispatch.
    - by apply sound_page_load, sound_page. }
  apply Hs.
Qed.

Lemma no_uncaught_exception_witness :
  uncaught (run false [EvClick 7; EvScroll 900; EvElapse 1000; EvTimer 2;
                       EvTimer 1; EvClick 15; EvFrame]
              (page_load false portfolio)) = [].
Proof.
  apply (no_uncaught_exception false _
           [EvClick 7; EvScroll 900; EvElapse 1000; EvTimer 2; EvTimer 1;
            EvClick 15; EvFrame]).
  compute_done.
Defined.

(** ** The listeners of the page *)

Definition card_listeners (c : nat) : list listener :=
  [Listener (TNode c) EMouseEnter HCardEnter; Listener (TNode c) EMouseLeave HCardLeave;
   Listener (TNode c) EFocus HCardFocus; Listener (TNode c) EBlur HCardBlur].

Definition link_listeners (n : nat) : list listener :=
  [Listener (TNode n) EFocus HSkipLinkFocus; Listener (TNode n) EBlur HSkipLinkBlur].

(** The listeners the script adds to a page [s0] while it loads, in the
    order it adds them: the skip link is the first element created and the
    skip control the second. *)
Definition loaded_listeners (prm : bool) (s0 : state) : list listener :=
  (querySelectorAll s0 ".nav-dot" ≫= dot_listeners)
  ++ [Listener TWindow EScroll HScrollThrottle]
  ++ (querySelectorAll s0 ".project-card" ≫= card_listeners)
  ++ link_listeners (next_node s0)
  ++ (if prm then []
      else match querySelector s0 ".subtitle" with
           | Some _ => [Listener (TNode (S (next_node s0))) EClick HSkipClick]
           | None => []
           end)
  ++ (if prm then [] else [Listener TWindow EScroll HParallaxScroll])
  ++ [Listener TMotionQuery EChange HMotionChange].

(** [s'] has the elements of [s], in the same order and with the same
    classes. *)
Definition same_page (s s' : state) : Prop :=
  tree s' = tree s ∧ next_node s' = next_node s
  ∧ ∀ n, el_class (get s' n) = el_class (get s n).

Lemma same_page_refl s : same_page s s.
Proof. by split_and!. Qed.

Lemma same_page_trans s1 s2 s3 : same_page s1 s2 → same_page s2 s3 → same_page s1 s3.
Proof.
  intros (Ht1 & Hn1 & Hc1) (Ht2 & Hn2 & Hc2). split_and!; [congruence..|].
  intros n. by rewrite Hc2, Hc1.
Qed.

Lemma filter_ext_Forall {A} (P Q : A → Prop) `{∀ x, Decision (P x)}
    `{∀ x, Decision (Q x)} (l : list A) :
  Forall (λ x, P x ↔ Q x) l → filter P l = filter Q l.
Proof.
  induction 1 as [|x l Hx _ IH]; [done|].
  rewrite !filter_cons, IH.
  destruct (decide (P x)), (decide (Q x)); first [done | exfalso; tauto].
Qed.

Lemma querySelectorAll_class s c :
  querySelectorAll s (String "."%char c)
  = filter (λ n, has_class s c n = true) (tree s).
Proof. reflexivity. Qed.

Lemma querySelectorAll_same s s' c :
  same_page s s' →
  querySelectorAll s' (String "."%char c) = querySelectorAll s (String "."%char c).
Proof.
  intros (Ht & _ & Hc). rewrite !querySelectorAll_class, Ht.
  apply filter_ext_Forall, Forall_forall. intros n _.
  unfold has_class. by rewrite Hc.
Qed.

Lemma init_nav_dot_listeners d s s1 :
  init_nav_dot d s = Ok s1 →
  listeners s1 = listeners s ++ dot_listeners d ∧ same_page s s1.
Proof.
  unfold init_nav_dot. destruct (getAttribute _ _ _); [|done]. intros [= <-].
  split; [cbn; by rewrite <- app_assoc|].
  split_and!; [done..|]. intros n. unfold get. unfold_prims. st_heap.
Qed.

Lemma forEach_init_nav_dot_listeners l s s1 :
  forEach init_nav_dot l s = Ok s1 →
  listeners s1 = listeners s ++ (l ≫= dot_listeners) ∧ same_page s s1.
Proof.
  revert s. induction l as [|d l IH]; intros s.
  - intros [= <-]. rewrite app_nil_r. split; [done | apply same_page_refl].
  - cbn [forEach]. destruct (init_nav_dot d s) as [s'|] eqn:Hd; [|done].
    cbn [bind]. intros Hl.
    destruct (init_nav_dot_listeners d s s' Hd) as [Hl1 Hp1].
    destruct (IH s' Hl) as [Hl2 Hp2].
    split; [|by eapply same_page_trans].
    rewrite Hl2, Hl1. cbn [mbind list_bind]. by rewrite <- app_assoc.
Qed.

Lemma init_card_listeners c s :
  listeners (init_card c s) = listeners s ++ card_listeners c
  ∧ same_page s (init_card c s).
Proof.
  unfold init_card. destruct (negb _).
  all: split; [cbn; by rewrite <- !app_assoc|].
  all: split_and!; [done..|]; intros n; unfold get; unfold_prims; st_heap.
Qed.

Lemma fold_init_card_listeners l s :
  listeners (fold_left (λ s card, init_card card s) l s)
  = listeners s ++ (l ≫= card_listeners)
  ∧ same_page s (fold_left (λ s card, init_card card s) l s).
Proof.
  revert s. induction l as [|c l IH]; intros s.
  - cbn. rewrite app_nil_r. split; [done | apply same_page_refl].
  - cbn [fold_left]. destruct (init_card_listeners c s) as [Hl1 Hp1].
    destruct (IH (init_card c s)) as [Hl2 Hp2].
    split; [|by eapply same_page_trans].
    rewrite Hl2, Hl1. cbn [mbind list_bind]. by rewrite <- app_assoc.
Qed.

(** Lines 56-65 as a step of the script. *)
Definition throttle_added (s : state) : state :=
  addEventListener TWindow EScroll HScrollThrottle (set_scrollTimeout (λ _, None) s).

Lemma script_unfold s :
  script s
  = let! s1 := forEach init_nav_dot (querySelectorAll s ".nav-dot") s in
    Ok (fold_left (λ s card, init_card card s)
          (querySelectorAll (throttle_added s1) ".project-card") (throttle_added s1)).
Proof. reflexivity. Qed.

Lemma script_listeners s s1 :
  script s = Ok s1 →
  listeners s1
  = listeners s ++ (querySelectorAll s ".nav-dot" ≫= dot_listeners)
    ++ [Listener TWindow EScroll HScrollThrottle]
    ++ (querySelectorAll s ".project-card" ≫= card_listeners)
  ∧ same_page s s1.
Proof.
  intros Hs. assert (s1 = outcome_state (script s)) as -> by (by rewrite Hs).
  revert Hs. rewrite script_unfold.
  destruct (forEach init_nav_dot _ s) as [s'|] eqn:Hd; [|done].
  intros _. cbn [bind outcome_state].
  destruct (forEach_init_nav_dot_listeners _ s s' Hd) as [Hl1 Hp1].
  assert (Hp2 : same_page s (throttle_added s')) by exact Hp1.
  assert (Hl2 : listeners (throttle_added s')
                = listeners s' ++ [Listener TWindow EScroll HScrollThrottle])
    by reflexivity.
  revert Hp2 Hl2. generalize (throttle_added s'). intros s2 Hp2 Hl2.
  destruct (fold_init_card_listeners (querySelectorAll s2 ".project-card") s2)
    as [Hl3 Hp3].
  split; [|by eapply same_page_trans].
  rewrite Hl3, Hl2, Hl1, (querySelectorAll_same s s2) by done.
  by rewrite <- !app_assoc.
Qed.

Lemma filter_insert_before_first (P : nat → Prop) `{∀ x, Decision (P x)}
    (Q : nat → bool) (x : nat) (t : list nat) :
  ¬ P x → filter P (insert_before_first Q x t) = filter P t.
Proof.
  intros Hx. induction t as [|y t IH]; cbn [insert_before_first].
  - by rewrite filter_cons, decide_False.
  - destruct (Q y).
    + by rewrite (filter_cons _ x), decide_False.
    + by rewrite !(filter_cons _ y), IH.
Qed.

(** The skip link has no class the script looks for. *)
Lemma querySelector_addSkipToContentLink s c :
  nodes_below s → c ≠ "skip-to-content" →
  querySelectorAll (addSkipToContentLink s) (String "."%char c)
  = querySelectorAll s (String "."%char c).
Proof.
  intros Hn Hc. rewrite !querySelectorAll_class.
  unfold addSkipToContentLink. unfold_prims. cbn [tree set_tree set_listeners
    set_heap set_next_node fst snd].
  rewrite filter_insert_before_first.
  - cbn. rewrite filter_ne_below by exact Hn.
    apply filter_ext_Forall. eapply Forall_impl; [exact Hn|]. cbn.
    intros n Hlt. unfold has_class, get. st_heap.
  - unfold has_class, get. st_heap. rewrite bool_decide_eq_true.
    intros Hin. apply list_elem_of_singleton in Hin. done.
Qed.

Lemma setup_listeners prm s :
  nodes_below s →
  listeners (initParallaxEffect prm (initTypingEffect prm (addSkipToContentLink s)))
  = listeners s ++ link_listeners (next_node s)
    ++ (if prm then []
        else match querySelector s ".subtitle" with
             | Some _ => [Listener (TNode (S (next_node s))) EClick HSkipClick]
             | None => []
             end)
    ++ (if prm then [] else [Listener TWindow EScroll HParallaxScroll]).
Proof.
  intros Hn.
  assert (Hq : querySelector (addSkipToContentLink s) ".subtitle"
               = querySelector s ".subtitle").
  { unfold querySelector. by rewrite querySelector_addSkipToContentLink. }
  assert (Hl : listeners (addSkipToContentLink s)
               = listeners s ++ link_listeners (next_node s)).
  { cbn. by rewrite <- app_assoc. }
  assert (Hnx : next_node (addSkipToContentLink s) = S (next_node s)) by reflexivity.
  revert Hq Hl Hnx. generalize (addSkipToContentLink s). intros s2 Hq Hl Hnx.
  unfold initParallaxEffect, initTypingEffect. rewrite Hq.
  destruct (querySelector s ".subtitle") as [sub|], prm; cbn [negb];
    unfold_prims; cbn; rewrite Hl, ?Hnx, <- ?app_assoc; cbn;
    by rewrite ?app_nil_r.
Qed.

Lemma same_page_nodes_below s s' : same_page s s' → nodes_below s → nodes_below s'.
Proof. intros (Ht & Hn & _). unfold nodes_below. by rewrite Ht, Hn. Qed.

(** The listeners in place once a page whose dots all name a section has
    loaded. *)
Lemma page_load_listeners prm els :
  Forall (λ d, is_Some (marker_target (page els) d))
    (querySelectorAll (page els) ".nav-dot") →
  listeners (page_load prm (page els)) = loaded_listeners prm (page els)
  ∧ reloaded (page_load prm (page els)) = false.
Proof.
  intros Hall. split.
  2:{ apply (page_load_invariant prm (λ s, reloaded s = false)); try done;
        intros *; body_cases; done. }
  pose proof (sound_page els Hall) as Hs. unfold page_load.
  destruct (sound_script _ Hs) as (s1 & Hscript & Hs1). rewrite Hscript.
  destruct (script_listeners _ _ Hscript) as [Hl1 Hp1].
  pose proof (same_page_nodes_below _ _ Hp1 (nodes_below_page els)) as Hn1.
  rewrite on_DOMContentLoaded_unfold.
  pose proof (sound_setup prm s1 Hs1) as H3.
  pose proof (setup_listeners prm s1 Hn1) as Hl3.
  revert H3 Hl3.
  generalize (initParallaxEffect prm (initTypingEffect prm (addSkipToContentLink s1))).
  intros s3 H3 Hl3. unfold finish_loading.
  destruct (updateActiveNavigation_frame s3) as [Hshell _].
  destruct (updateActiveNavigation_sound s3 H3) as (s4 & Hupd & _).
  rewrite Hupd in *. cbn [bind settle outcome_state] in *.
  rewrite Hshell. cbn. rewrite Hl3, Hl1.
  assert (Hq : querySelector s1 ".subtitle" = querySelector (page els) ".subtitle").
  { unfold querySelector. by rewrite (querySelectorAll_same (page els) s1). }
  destruct Hp1 as (_ & -> & _). unfold loaded_listeners.
  rewrite Hq. cbn [listeners page app]. by rewrite <- !app_assoc.
Qed.

(** The script adds all its listeners while the page loads and none later:
    on a page whose navigation dots all name a section, after any sequence
    of events the listeners in place are, in the order they were added,
    click and keydown on each dot, the scroll throttle on the window, the
    four listeners of each project card, focus and blur on the skip link,
    and, unless reduced motion is preferred, click on the skip control
    (when the page has a subtitle) and the parallax scroll listener; last,
    the listener for a change of the preference. *)
Theorem listeners_fixed_at_load (prm : bool) (els : list (nat * element))
    (evs : list event) :
  Forall (λ d, is_Some (marker_target (page els) d))
    (querySelectorAll (page els) ".nav-dot") →
  listeners (run prm evs (page_load prm (page els)))
  = loaded_listeners prm (page els).
Proof.
  intros Hall. rewrite listeners_run. by apply page_load_listeners.
Qed.

Lemma listeners_fixed_at_load_witness :
  listeners (run false [EvClick 7; EvScroll 900; EvFrame] (page_load false portfolio))
  = loaded_listeners false portfolio.
Proof.
  apply (listeners_fixed_at_load false _ [EvClick 7; EvScroll 900; EvFrame]).
  compute_done.
Defined.

Lemma filter_bind {A B} (P : B → Prop) `{∀ x, Decision (P x)} (f : A → list B)
    (l : list A) :
  filter P (l ≫= f) = l ≫= (λ x, filter P (f x)).
Proof.
  induction l as [|x l IH]; [done|].
  by rewrite !bind_cons, filter_app, IH.
Qed.

Lemma bind_nil {A B} (f : A → list B) (l : list A) :
  (∀ x, x ∈ l → f x = []) → l ≫= f = [].
Proof.
  induction l as [|x l IH]; intros Hf; [done|].
  rewrite bind_cons. rewrite Hf by (by left). rewrite IH; [done|]. intros y Hy. apply Hf. by right.
Qed.

(** Decide a filter on listeners whose target and type are known. *)
Ltac decide_filter :=
  repeat (rewrite filter_cons; case_decide;
          [ try match goal with
                | H : _ = _ ∧ _ = _ |- _ =>
                    destruct H as [? ?]; simplify_eq/=; congruence
                end
          | try match goal with
                | H : ¬ (_ = _ ∧ _ = _) |- _ => exfalso; apply H; by split
                end ]);
  rewrite ?filter_nil.

(** ** A change of the motion preference (lines 270-273) *)

#[global] Instance event_eq_dec : EqDecision event.
Proof. solve_decision. Defined.

Lemma motion_listeners prm s0 :
  filter (λ l, ls_target l = TMotionQuery ∧ ls_type l = EChange)
    (loaded_listeners prm s0)
  = [Listener TMotionQuery EChange HMotionChange].
Proof.
  unfold loaded_listeners. rewrite !filter_app, !filter_bind.
  rewrite !bind_nil.
  - destruct prm; [|destruct (querySelector _ _)]; unfold link_listeners;
      by decide_filter.
  - intros c _. unfold card_listeners. by decide_filter.
  - intros d _. unfold dot_listeners. by decide_filter.
Qed.

Lemma motion_handler_target prm s0 :
  Forall (λ l, ls_handler l = HMotionChange → ls_target l = TMotionQuery)
    (loaded_listeners prm s0).
Proof.
  unfold loaded_listeners. repeat apply Forall_app_2.
  - apply Forall_bind, Forall_forall. intros d _. by repeat constructor.
  - by repeat constructor.
  - apply Forall_bind, Forall_forall. intros d _. by repeat constructor.
  - by repeat constructor.
  - destruct prm; [|destruct (querySelector _ _)]; by repeat constructor.
  - destruct prm; by repeat constructor.
  - by repeat constructor.
Qed.

Lemma reloaded_callback cb s : reloaded (settle (run_callback cb s)) = reloaded s.
Proof.
  destruct cb; cbn [run_callback]; body_cases; try reflexivity.
  destruct (updateActiveNavigation_frame s) as [Hshell _].
  destruct (updateActiveNavigation s); cbn [settle outcome_state] in *;
    by rewrite Hshell.
Qed.

(** Away from a change of the preference nothing reloads the page. *)
Lemma dispatch_not_reloaded prm ev s :
  Forall (λ l, ls_handler l = HMotionChange → ls_target l = TMotionQuery) (listeners s) →
  ev ≠ EvMotionChange →
  reloaded s = false → reloaded (dispatch prm ev s) = false.
Proof.
  intros Hl Hev Hr. unfold dispatch. rewrite Hr.
  assert (Hdel : ∀ n e key s', listeners s' = listeners s → reloaded s' = false →
            reloaded (deliver prm (TNode n) e key s') = false).
  { intros n e key s' Hls Hr'. unfold deliver.
    apply (fold_left_preserves (λ s, reloaded s = false)); [|done].
    intros [t e' h] s'' Hin Hs''. rewrite Hls in Hin.
    apply list_elem_of_filter in Hin as [[Ht _] Hin]. cbn in Ht. subst t.
    pose proof (proj1 (Forall_forall _ _) Hl _ Hin) as Hh. cbn in Hh.
    destruct h; cbn [run_handler ls_handler]; body_cases; try done.
    by specialize (Hh eq_refl). }
  destruct ev; try (by apply Hdel); try done.
  - unfold deliver.
    apply (fold_left_preserves (λ s, reloaded s = false)); [|done].
    intros [t e' h] s'' Hin Hs''.
    apply list_elem_of_filter in Hin as [[Ht _] Hin]. cbn in Ht, Hin. subst t.
    pose proof (proj1 (Forall_forall _ _) Hl _ Hin) as Hh. cbn in Hh.
    destruct h; cbn [run_handler ls_handler]; body_cases; try done.
    by specialize (Hh eq_refl).
  - revert Hr. apply (fire_timer_invariant (λ s, reloaded s = false) (λ _, True));
      try done.
    + intros. by apply Forall_true.
    + intros cb s' _ Hs'. by rewrite reloaded_callback.
  - revert Hr. apply (run_frame_invariant (λ s, reloaded s = false) (λ _, True));
      try done.
    + intros. by apply Forall_true.
    + intros cb s' _ Hs'. by rewrite reloaded_callback.
Qed.

Lemma run_reloaded prm evs s : reloaded s = true → run prm evs s = s.
Proof.
  intros Hr. induction evs as [|ev evs IH]; [done|].
  cbn [run fold_left]. unfold dispatch at 2. rewrite Hr. exact IH.
Qed.

(** A change of the motion preference reloads the page, and nothing else
    does: on a page whose navigation dots all name a section, the page has
    been reloaded after a sequence of events exactly when the sequence
    contains a change of the preference. *)
Theorem reload_iff_preference_changed (prm : bool) (els : list (nat * element))
    (evs : list event) :
  Forall (λ d, is_Some (marker_target (page els) d))
    (querySelectorAll (page els) ".nav-dot") →
  reloaded (run prm evs (page_load prm (page els))) = true ↔ EvMotionChange ∈ evs.
Proof.
  intros Hall. destruct (page_load_listeners prm els Hall) as [Hl Hr].
  revert Hl Hr. generalize (page_load prm (page els)).
  induction evs as [|ev evs IH]; intros s Hl Hr.
  - cbn. rewrite Hr. split; [done|]. intros Hin. by apply elem_of_nil in Hin.
  - cbn [run fold_left]. destruct (decide (ev = EvMotionChange)) as [->|Hne].
    + assert (Hrel : reloaded (dispatch prm EvMotionChange s) = true).
      { unfold dispatch. rewrite Hr. unfold deliver.
        rewrite Hl, motion_listeners. reflexivity. }
      fold (run prm evs (dispatch prm EvMotionChange s)).
      rewrite run_reloaded by done. rewrite Hrel. split; [intros _; by left | done].
    + fold (run prm evs (dispatch prm ev s)). rewrite IH.
      * rewrite elem_of_cons. split; [by right | by intros [?|?]].
      * by rewrite listeners_dispatch.
      * apply dispatch_not_reloaded; [|done..].
        rewrite Hl. apply motion_handler_target.
Qed.

Lemma reload_iff_preference_changed_witness :
  reloaded (run false [EvScroll 900; EvMotionChange; EvClick 7]
              (page_load false portfolio)) = true
  ↔ EvMotionChange ∈ [EvScroll 900; EvMotionChange; EvClick 7].
Proof.
  apply (reload_iff_preference_changed false _ [EvScroll 900; EvMotionChange; EvClick 7]).
  compute_done.
Defined.

(** ** Keyboard activation of the dots (lines 17-27) *)

Lemma fold_left_bind_ext {A B C} (F : C → B → C) (G : C → B → C)
    (f g : A → list B) (l : list A) (s : C) :
  (∀ x s, fold_left F (f x) s = fold_left G (g x) s) →
  fold_left F (l ≫= f) s = fold_left G (l ≫= g) s.
Proof.
  intros Hfg. revert s. induction l as [|x l IH]; intros s; [done|].
  by rewrite !bind_cons, !fold_left_app, Hfg, IH.
Qed.

(** A decision about a known listener that came out wrong. *)
Ltac absurd_decision :=
  match goal with
  | H : _ = _ ∧ _ = _ |- _ => destruct H as [? ?]; cbn in *; congruence
  | H : ¬ (_ = _ ∧ _ = _) |- _ => apply H; cbn; split; congruence
  end.

(** On an element other than the skip control the keydown listeners are
    those of the dots, and so are the click listeners. *)
Lemma keydown_listeners prm s0 n :
  filter (λ l, ls_target l = TNode n ∧ ls_type l = EKeydown) (loaded_listeners prm s0)
  = querySelectorAll s0 ".nav-dot"
    ≫= (λ d, if decide (d = n) then [Listener (TNode n) EKeydown HNavKeydown] else []).
Proof.
  unfold loaded_listeners. rewrite !filter_app, !filter_bind.
  rewrite (bind_nil (λ x, filter _ (card_listeners x)))
    by (intros c _; unfold card_listeners; by decide_filter).
  unfold link_listeners.
  destruct prm; [|destruct (querySelector _ _)]; decide_filter;
    rewrite ?app_nil_r.
  all: apply Forall_bind_ext, Forall_forall; intros d _;
    unfold dot_listeners; rewrite !filter_cons, filter_nil;
    destruct (decide (d = n)) as [->|Hne]; repeat case_decide;
    try done; exfalso; absurd_decision.
Qed.

Lemma click_listeners prm s0 n :
  n ≠ S (next_node s0) →
  filter (λ l, ls_target l = TNode n ∧ ls_type l = EClick) (loaded_listeners prm s0)
  = querySelectorAll s0 ".nav-dot"
    ≫= (λ d, if decide (d = n) then [Listener (TNode n) EClick HNavClick] else []).
Proof.
  intros Hn. unfold loaded_listeners. rewrite !filter_app, !filter_bind.
  rewrite (bind_nil (λ x, filter _ (card_listeners x)))
    by (intros c _; unfold card_listeners; by decide_filter).
  unfold link_listeners.
  destruct prm; [|destruct (querySelector _ _)]; decide_filter;
    rewrite ?app_nil_r.
  all: apply Forall_bind_ext, Forall_forall; intros d _;
    unfold dot_listeners; rewrite !filter_cons, filter_nil;
    destruct (decide (d = n)) as [->|Hne]; repeat case_decide;
    try done; exfalso; absurd_decision.
Qed.

Lemma fold_left_bind_id {A B C} (F : C → B → C) (f : A → list B) (l : list A) (s : C) :
  (∀ x s, fold_left F (f x) s = s) → fold_left F (l ≫= f) s = s.
Proof.
  intros Hf. revert s. induction l as [|x l IH]; intros s; [done|].
  by rewrite bind_cons, fold_left_app, Hf, IH.
Qed.

(** Enter and Space on a navigation dot do what a click on it does, and no
    other key does anything: on a page whose dots all name a section, after
    any sequence of events, a keydown on an element other than the skip
    control leaves the page as a click on that element would when the key
    is Enter or Space, and unchanged for any other key. *)
Theorem keyboard_activation_is_click (prm : bool) (els : list (nat * element))
    (evs : list event) (n : nat) (key : string) :
  Forall (λ d, is_Some (marker_target (page els) d))
    (querySelectorAll (page els) ".nav-dot") →
  n ≠ S (next_node (page els)) →
  let s := run prm evs (page_load prm (page els)) in
  dispatch prm (EvKeydown n key) s
  = if bool_decide (key = "Enter") || bool_decide (key = " ")
    then dispatch prm (EvClick n) s
    else s.
Proof.
  intros Hall Hn s.
  assert (Hl : listeners s = loaded_listeners prm (page els)).
  { subst s. rewrite listeners_run. by apply page_load_listeners. }
  clearbody s. unfold dispatch. destruct (reloaded s); [by destruct (_ || _)|].
  unfold deliver. rewrite Hl, keydown_listeners, click_listeners by done.
  destruct (_ || _) eqn:Hkey.
  - apply fold_left_bind_ext. intros d s'.
    destruct (decide (d = n)); [|done]. cbn. by rewrite Hkey.
  - apply fold_left_bind_id. intros d s'.
    destruct (decide (d = n)); [|done]. cbn. by rewrite Hkey.
Qed.

Lemma keyboard_activation_is_click_witness :
  let s := run false [EvScroll 900] (page_load false portfolio) in
  dispatch false (EvKeydown 7 " ") s = dispatch false (EvClick 7) s.
Proof.
  apply (keyboard_activation_is_click false _ [EvScroll 900] 7 " ").
  - compute_done.
  - compute_done.
Defined.

(** ** The skip link (lines 277-304) *)

(** Whether the last focus or blur event on [link] was a focus. *)
Definition link_focused (link : nat) (b : bool) (evs : list event) : bool :=
  fold_left (λ b ev, match ev with
                     | EvFocus n => if decide (n = link) then true else b
                     | EvBlur n => if decide (n = link) then false else b
                     | _ => b
                     end) evs b.

(** The inline top of [link] is [v]. *)
Definition link_top (link : nat) (v : string) (s : state) : Prop :=
  el_style (get s link) !! "top" = Some v ∧ link < next_node s.

Ltac lt_solve :=
  unfold link_top, get; intros *; intros [Htop Hlt];
  body_cases; unfold_prims; (split; [st_heap | cbn; lia]).

Lemma link_top_navigate prm link v el s :
  link_top link v s → link_top link v (navigateToSection prm el s).
Proof.
  intros Hs. unfold navigateToSection.
  destruct (getElementById _ _) as [sec|]; [|done]. cbv zeta.
  assert (Hs1 : link_top link v
            (announceToScreenReader
               ("Navigating to " +:+ ToString (getAttribute s el "data-section")
                +:+ " section") s)) by (revert Hs; lt_solve).
  revert Hs1. generalize (announceToScreenReader
                ("Navigating to " +:+ ToString (getAttribute s el "data-section")
                 +:+ " section") s).
  clear Hs. intros s1. lt_solve.
Qed.

Lemma link_top_handler prm link v l key s :
  ls_handler l ≠ HSkipLinkFocus → ls_handler l ≠ HSkipLinkBlur →
  link_top link v s →
  link_top link v (settle (run_handler prm (ls_handler l) (ls_target l) key s)).
Proof.
  destruct l as [t e h]. cbn [ls_handler ls_target]. intros Hf Hb.
  destruct h; cbn [run_handler settle]; try done;
    try apply link_top_navigate.
  - destruct (_ || _); [apply link_top_navigate | done].
  - lt_solve.
  - lt_solve.
  - lt_solve.
  - lt_solve.
  - lt_solve.
  - lt_solve.
  - lt_solve.
Qed.

Lemma link_top_callback link v cb s :
  link_top link v s → link_top link v (settle (run_callback cb s)).
Proof.
  intros Hs. apply (settle_invariant (link_top link v)); [lt_solve|].
  destruct cb; cbn [run_callback]; try (revert Hs; lt_solve).
  apply (updateActiveNavigation_invariant (link_top link v)); [lt_solve | done].
Qed.

Lemma focus_listeners prm s0 n :
  filter (λ l, ls_target l = TNode n ∧ ls_type l = EFocus) (loaded_listeners prm s0)
  = (querySelectorAll s0 ".project-card"
     ≫= (λ c, if decide (c = n) then [Listener (TNode n) EFocus HCardFocus] else []))
    ++ (if decide (n = next_node s0)
        then [Listener (TNode n) EFocus HSkipLinkFocus] else []).
Proof.
  unfold loaded_listeners. rewrite !filter_app, !filter_bind.
  rewrite (bind_nil (λ x, filter _ (dot_listeners x)))
    by (intros c _; unfold dot_listeners; by decide_filter).
  rewrite (Forall_bind_ext (λ x, filter _ (card_listeners x))
             (λ c, if decide (c = n) then [Listener (TNode n) EFocus HCardFocus] else [])).
  2:{ apply Forall_forall; intros d _.
      unfold card_listeners; rewrite !filter_cons, filter_nil.
      destruct (decide (d = _)) as [->|Hne']; repeat case_decide;
        try done; exfalso; absurd_decision. }
  unfold link_listeners.
  destruct (decide (n = next_node s0)) as [->|Hne];
    (destruct prm; [|destruct (querySelector _ _)]); decide_filter;
    by rewrite ?app_nil_r.
Qed.

Lemma blur_listeners prm s0 n :
  filter (λ l, ls_target l = TNode n ∧ ls_type l = EBlur) (loaded_listeners prm s0)
  = (querySelectorAll s0 ".project-card"
     ≫= (λ c, if decide (c = n) then [Listener (TNode n) EBlur HCardBlur] else []))
    ++ (if decide (n = next_node s0)
        then [Listener (TNode n) EBlur HSkipLinkBlur] else []).
Proof.
  unfold loaded_listeners. rewrite !filter_app, !filter_bind.
  rewrite (bind_nil (λ x, filter _ (dot_listeners x)))
    by (intros c _; unfold dot_listeners; by decide_filter).
  rewrite (Forall_bind_ext (λ x, filter _ (card_listeners x))
             (λ c, if decide (c = n) then [Listener (TNode n) EBlur HCardBlur] else [])).
  2:{ apply Forall_forall; intros d _.
      unfold card_listeners; rewrite !filter_cons, filter_nil.
      destruct (decide (d = _)) as [->|Hne']; repeat case_decide;
        try done; exfalso; absurd_decision. }
  unfold link_listeners.
  destruct (decide (n = next_node s0)) as [->|Hne];
    (destruct prm; [|destruct (querySelector _ _)]); decide_filter;
    by rewrite ?app_nil_r.
Qed.

(** The listeners of the skip link are on its focus and blur only. *)
Lemma link_handler_type prm s0 :
  Forall (λ l, ls_handler l = HSkipLinkFocus ∨ ls_handler l = HSkipLinkBlur
               → ls_type l = EFocus ∨ ls_type l = EBlur)
    (loaded_listeners prm s0).
Proof.
  assert (Hall : ∀ ls : list listener,
            Forall (λ l, (ls_handler l ≠ HSkipLinkFocus ∧ ls_handler l ≠ HSkipLinkBlur)
                         ∨ ls_type l = EFocus ∨ ls_type l = EBlur) ls →
            Forall (λ l, ls_handler l = HSkipLinkFocus ∨ ls_handler l = HSkipLinkBlur
                         → ls_type l = EFocus ∨ ls_type l = EBlur) ls).
  { intros ls Hls. eapply Forall_impl; [exact Hls|].
    intros l [[? ?]|?] [?|?]; done. }
  apply Hall. unfold loaded_listeners. repeat apply Forall_app_2.
  - apply Forall_bind, Forall_forall. intros d _.
    repeat first [apply Forall_nil_2 | apply Forall_cons_2; [by left|]].
  - repeat first [apply Forall_nil_2 | apply Forall_cons_2; [by left|]].
  - apply Forall_bind, Forall_forall. intros d _.
    repeat first [apply Forall_nil_2 | apply Forall_cons_2; [by left|]].
  - repeat first [apply Forall_nil_2 | apply Forall_cons_2; [right; by auto|]].
  - destruct prm; [|destruct (querySelector _ _)];
      repeat first [apply Forall_nil_2 | apply Forall_cons_2; [by left|]].
  - destruct prm; repeat first [apply Forall_nil_2 | apply Forall_cons_2; [by left|]].
  - repeat first [apply Forall_nil_2 | apply Forall_cons_2; [by left|]].
Qed.

Lemma fold_card_handlers_link_top prm link v e h key (cards : list nat) n s :
  h ≠ HSkipLinkFocus → h ≠ HSkipLinkBlur →
  link_top link v s →
  link_top link v
    (fold_left (λ s l, settle (run_handler prm (ls_handler l) (TNode n) key s))
       (cards ≫= (λ c, if decide (c = n) then [Listener (TNode n) e h] else []))
       s).
Proof.
  intros Hf Hb. revert s. induction cards as [|c cards IH]; intros s Hs; [done|].
  rewrite bind_cons, fold_left_app. apply IH.
  destruct (decide (c = n)); [|done]. cbn [fold_left ls_handler].
  by apply (link_top_handler prm link v (Listener (TNode n) e h)).
Qed.

(** An event that is neither a focus nor a blur runs no listener of the
    skip link. *)
Lemma deliver_link_top prm s0 link v t e key s :
  e ≠ EFocus → e ≠ EBlur →
  listeners s = loaded_listeners prm s0 →
  link_top link v s → link_top link v (deliver prm t e key s).
Proof.
  intros He1 He2 Hl Hs. unfold deliver.
  apply (fold_left_preserves (link_top link v)); [|done].
  intros l s' Hin Hs'. apply list_elem_of_filter in Hin as [[<- <-] Hin].
  rewrite Hl in Hin.
  pose proof (proj1 (Forall_forall _ _) (link_handler_type prm s0) l Hin) as Hty.
  apply link_top_handler; [| |done].
  - intros Hh. destruct Hty as [?|?]; [by left|done..].
  - intros Hh. destruct Hty as [?|?]; [by right|done..].
Qed.

(** The state of the skip link after a turn of the event loop. *)
Definition link_step (link : nat) (b : bool) (ev : event) : bool :=
  match ev with
  | EvFocus n => if decide (n = link) then true else b
  | EvBlur n => if decide (n = link) then false else b
  | _ => b
  end.

Lemma dispatch_link_top prm s0 (b : bool) ev s :
  listeners s = loaded_listeners prm s0 → reloaded s = false →
  link_top (next_node s0) (if b then "6px" else "-40px") s →
  link_top (next_node s0)
    (if link_step (next_node s0) b ev then "6px" else "-40px") (dispatch prm ev s).
Proof.
  intros Hl Hr Hs. unfold dispatch. rewrite Hr.
  destruct ev; cbn [link_step];
    try (apply (deliver_link_top prm s0); [done | done | done |];
         revert Hs; by lt_solve).
  - (* focus *)
    unfold deliver. cbn [listeners set_activeElement].
    rewrite Hl, focus_listeners, fold_left_app.
    assert (Hc : link_top (next_node s0) (if b then "6px" else "-40px")
              (fold_left
                 (λ s l, settle (run_handler prm (ls_handler l) (TNode n) "" s))
                 (querySelectorAll s0 ".project-card"
                  ≫= (λ c, if decide (c = n)
                           then [Listener (TNode n) EFocus HCardFocus] else []))
                 (set_activeElement (λ _, Some n) s))).
    { apply fold_card_handlers_link_top; [done..|]. revert Hs. lt_solve. }
    revert Hc. generalize (fold_left
                 (λ s l, settle (run_handler prm (ls_handler l) (TNode n) "" s))
                 (querySelectorAll s0 ".project-card"
                  ≫= (λ c, if decide (c = n)
                           then [Listener (TNode n) EFocus HCardFocus] else []))
                 (set_activeElement (λ _, Some n) s)).
    intros s1 Hc. destruct (decide (n = next_node s0)) as [->|Hne]; [|done].
    cbn. revert Hc. unfold link_top, get. intros [_ Hlt]. unfold_prims.
    split; [|cbn; lia]. rewrite heap_upd, decide_True by done.
    cbn. by rewrite lookup_insert_eq.
  - (* blur *)
    unfold deliver. cbn [listeners set_activeElement].
    rewrite Hl, blur_listeners, fold_left_app.
    assert (Hc : link_top (next_node s0) (if b then "6px" else "-40px")
              (fold_left
                 (λ s l, settle (run_handler prm (ls_handler l) (TNode n) "" s))
                 (querySelectorAll s0 ".project-card"
                  ≫= (λ c, if decide (c = n)
                           then [Listener (TNode n) EBlur HCardBlur] else []))
                 (set_activeElement (λ _, None) s))).
    { apply fold_card_handlers_link_top; [done..|]. revert Hs. lt_solve. }
    revert Hc. generalize (fold_left
                 (λ s l, settle (run_handler prm (ls_handler l) (TNode n) "" s))
                 (querySelectorAll s0 ".project-card"
                  ≫= (λ c, if decide (c = n)
                           then [Listener (TNode n) EBlur HCardBlur] else []))
                 (set_activeElement (λ _, None) s)).
    intros s1 Hc. destruct (decide (n = next_node s0)) as [->|Hne]; [|done].
    cbn. revert Hc. unfold link_top, get. intros [_ Hlt]. unfold_prims.
    split; [|cbn; lia]. rewrite heap_upd, decide_True by done.
    cbn. by rewrite lookup_insert_eq.
  - (* timer *)
    revert Hs. apply (fire_timer_invariant (link_top _ _) (λ _, True)).
    + intros. by apply Forall_true.
    + intros. by apply link_top_callback.
    + lt_solve.
    + lt_solve.
  - (* frame *)
    revert Hs. apply (run_frame_invariant (link_top _ _) (λ _, True)).
    + intros. by apply Forall_true.
    + intros. by apply link_top_callback.
    + lt_solve.
  - revert Hs. lt_solve.
Qed.

(** Right after the load the skip link is out of view. *)
Lemma page_load_link_top prm els :
  Forall (λ d, is_Some (marker_target (page els) d))
    (querySelectorAll (page els) ".nav-dot") →
  link_top (next_node (page els)) "-40px" (page_load prm (page els)).
Proof.
  intros Hall. pose proof (sound_page els Hall) as Hs. unfold page_load.
  destruct (sound_script _ Hs) as (s1 & Hscript & Hs1). rewrite Hscript.
  destruct (script_listeners _ _ Hscript) as [_ (_ & <- & _)].
  rewrite on_DOMContentLoaded_unfold.
  assert (H2 : link_top (next_node s1) "-40px" (addSkipToContentLink s1)).
  { unfold link_top, get, addSkipToContentLink. unfold_prims.
    split; [|cbn; lia]. st_heap. }
  revert H2. generalize (next_node s1) (addSkipToContentLink s1). clear.
  intros link s2 H2.
  assert (H3 : link_top link "-40px" (initParallaxEffect prm (initTypingEffect prm s2))).
  { assert (Ht : link_top link "-40px" (initTypingEffect prm s2))
      by (revert H2; lt_solve).
    revert Ht. generalize (initTypingEffect prm s2). clear. intros s3. lt_solve. }
  revert H3. generalize (initParallaxEffect prm (initTypingEffect prm s2)). clear.
  intros s3 H3. apply (settle_invariant (link_top link "-40px")); [lt_solve|].
  unfold finish_loading.
  pose proof (updateActiveNavigation_invariant (link_top link "-40px")
                ltac:(lt_solve) s3 H3) as H4.
  destruct (updateActiveNavigation s3); cbn [bind outcome_state] in *; [|done].
  revert H4. lt_solve.
Qed.

(** The skip link is in view exactly while it has the focus: on a page
    whose navigation dots all name a section, after any sequence of events
    without a change of the motion preference, the inline top of the link
    (the first element the script creates) is 6px when the last focus or
    blur event on the link was a focus, and -40px when it was a blur or
    there was none. *)
Theorem skip_link_in_view_while_focused (prm : bool) (els : list (nat * element))
    (evs : list event) :
  Forall (λ d, is_Some (marker_target (page els) d))
    (querySelectorAll (page els) ".nav-dot") →
  EvMotionChange ∉ evs →
  let link := next_node (page els) in
  get_style (run prm evs (page_load prm (page els))) link "top"
  = if link_focused link false evs then "6px" else "-40px".
Proof.
  intros Hall Hev link.
  destruct (page_load_listeners prm els Hall) as [Hl Hr].
  pose proof (page_load_link_top prm els Hall) as Ht.
  assert (Hgen : ∀ (b : bool) s,
            listeners s = loaded_listeners prm (page els) → reloaded s = false →
            link_top link (if b then "6px" else "-40px") s →
            link_top link (if link_focused link b evs then "6px" else "-40px")
              (run prm evs s)).
  { clear Hl Hr Ht. induction evs as [|ev evs IH]; intros b s Hl Hr Ht; [done|].
    cbn [run link_focused fold_left].
    apply not_elem_of_cons in Hev as [Hne Hev].
    apply (IH Hev (link_step link b ev)).
    - by rewrite listeners_dispatch.
    - apply dispatch_not_reloaded; [|done..]. rewrite Hl. apply motion_handler_target.
    - by apply dispatch_link_top. }
  destruct (Hgen false _ Hl Hr Ht) as [Htop _].
  unfold get_style. by rewrite Htop.
Qed.

Lemma skip_link_in_view_while_focused_witness :
  get_style (run false [EvFocus 14; EvScroll 30; EvFocus 12] (page_load false portfolio))
    (next_node portfolio) "top"
  = if link_focused (next_node portfolio) false [EvFocus 14; EvScroll 30; EvFocus 12]
    then "6px" else "-40px".
Proof.
  apply (skip_link_in_view_while_focused false _ [EvFocus 14; EvScroll 30; EvFocus 12]).
  - compute_done.
  - intros H. repeat (apply elem_of_cons in H as [H|H]; [discriminate|]).
    by apply elem_of_nil in H.
Defined.

(** ** The attributes of the navigation dots (lines 83-97) *)

(** The aria-label line 93 gives a dot whose target is [t]. *)
Definition marker_label (active : bool) (t : string) : string :=
  if active then "Current section: " +:+ capitalize t
  else "Navigate to " +:+ capitalize t +:+ " section".

(** The dot [d] says what its class shows: aria-current is "true" exactly
    when it is active, and its label names its section accordingly. *)
Definition labelled (s : state) (d : nat) : Prop :=
  ∃ t, marker_target s d = Some t
    ∧ getAttribute s d "aria-current"
      = Some (if marker_active s d then "true" else "false")
    ∧ getAttribute s d "aria-label" = Some (marker_label (marker_active s d) t).

Definition markers_labelled (s : state) : Prop :=
  ∀ d, d ∈ tree s → has_class s "nav-dot" d = true → labelled s d.

(** A step that leaves the dots as they are. *)
Definition keeps_markers (s s' : state) : Prop :=
  ∀ d, d ∈ tree s' → has_class s' "nav-dot" d = true →
    d ∈ tree s ∧ has_class s "nav-dot" d = true
    ∧ el_attrs (get s' d) !! "data-section" = el_attrs (get s d) !! "data-section"
    ∧ el_attrs (get s' d) !! "aria-current" = el_attrs (get s d) !! "aria-current"
    ∧ el_attrs (get s' d) !! "aria-label" = el_attrs (get s d) !! "aria-label"
    ∧ has_class s' "active" d = has_class s "active" d.

Lemma keeps_markers_labelled s s' :
  keeps_markers s s' → markers_labelled s → markers_labelled s'.
Proof.
  intros Hk Hs d Hin Hdot.
  destruct (Hk d Hin Hdot) as (Hin' & Hdot' & Ht & Hc & Hl & Ha).
  destruct (Hs d Hin' Hdot') as (t & Htg & Hcur & Hlab).
  exists t. unfold marker_target, marker_active, getAttribute in *.
  rewrite Ht, Hc, Hl, Ha. done.
Qed.

Ltac km_member :=
  match goal with
  | H : _ ∈ _ |- _ =>
      cbn in H;
      repeat first
        [ apply elem_of_app in H as [H|H]
        | apply list_elem_of_filter in H as [_ H]
        | apply insert_before_first_elem in H as [H|H]
        | apply list_elem_of_singleton in H as -> ]
  end.

Ltac km_solve :=
  unfold keeps_markers, has_class, get;
  body_cases; unfold_prims;
  let d := fresh "d" in let Hin := fresh "Hin" in let Hdot := fresh "Hdot" in
  intros d Hin Hdot; km_member; try subst d;
  revert Hdot; so_heap;
  try (intros Hdot; split_and!; so_heap).

Lemma keeps_markers_refl s : keeps_markers s s.
Proof. intros d Hin Hdot. by split_and!. Qed.

Lemma keeps_markers_trans s1 s2 s3 :
  keeps_markers s1 s2 → keeps_markers s2 s3 → keeps_markers s1 s3.
Proof.
  intros H12 H23 d Hin Hdot.
  destruct (H23 d Hin Hdot) as (Hin2 & Hdot2 & Ht2 & Hc2 & Hl2 & Ha2).
  destruct (H12 d Hin2 Hdot2) as (Hin1 & Hdot1 & Ht1 & Hc1 & Hl1 & Ha1).
  split_and!; congruence.
Qed.

Lemma keeps_markers_announce msg s : keeps_markers s (announceToScreenReader msg s).
Proof. km_solve. Qed.

Lemma keeps_markers_navigate prm el s : keeps_markers s (navigateToSection prm el s).
Proof.
  unfold navigateToSection.
  destruct (getElementById _ _) as [sec|]; [|apply keeps_markers_refl]. cbv zeta.
  eapply keeps_markers_trans; [apply (keeps_markers_announce
                ("Navigating to " +:+ ToString (getAttribute s el "data-section")
                 +:+ " section"))|].
  generalize (announceToScreenReader
                ("Navigating to " +:+ ToString (getAttribute s el "data-section")
                 +:+ " section") s).
  intros s1. km_solve.
Qed.

Lemma keeps_markers_handler prm l key s :
  keeps_markers s (settle (run_handler prm (ls_handler l) (ls_target l) key s)).
Proof.
  destruct l as [t e h].
  destruct h; cbn [run_handler ls_handler ls_target settle];
    try apply keeps_markers_navigate.
  - destruct (_ || _); [apply keeps_markers_navigate | apply keeps_markers_refl].
  - km_solve.
  - km_solve.
  - km_solve.
  - km_solve.
  - km_solve.
  - km_solve.
  - km_solve.
  - km_solve.
  - km_solve.
  - km_solve.
Qed.

Lemma keeps_markers_callback cb s :
  cb ≠ CbUpdateNav → keeps_markers s (settle (run_callback cb s)).
Proof.
  intros Hcb. destruct cb; cbn [run_callback]; try done.
  all: km_solve.
Qed.

Lemma update_dot_frame cur d s :
  tree (outcome_state (update_dot cur d s)) = tree s
  ∧ (∀ n, has_class (outcome_state (update_dot cur d s)) "nav-dot" n
          = has_class s "nav-dot" n)
  ∧ (∀ n, n ≠ d → get (outcome_state (update_dot cur d s)) n = get s n).
Proof.
  unfold update_dot. destruct (getAttribute _ _ _); cbn [outcome_state].
  all: split_and!; [done | | ]; intros n; unfold has_class, get; unfold_prims;
    so_heap.
Qed.

Lemma update_dot_label cur d s t s1 :
  marker_target s d = Some t → update_dot cur d s = Ok s1 →
  getAttribute s1 d "aria-label" = Some (marker_label (bool_decide (t = cur)) t).
Proof.
  intros Ht. unfold update_dot. unfold marker_target in Ht. rewrite Ht.
  assert (Hb : bool_decide (Some t = Some cur) = bool_decide (t = cur)).
  { apply bool_decide_ext. split; congruence. }
  rewrite Hb.
  rewrite getAttribute_setAttribute, decide_False by (by intros [_ ?]).
  unfold getAttribute at 1. rewrite get_classList_toggle.
  fold (getAttribute s d "data-section"). rewrite Ht. intros [= <-].
  rewrite getAttribute_setAttribute, decide_True by done.
  unfold marker_label. by destruct (bool_decide _).
Qed.

(** One round of the second loop leaves its dot labelled. *)
Lemma update_dot_labelled cur d s t :
  marker_target s d = Some t →
  ∃ s1, update_dot cur d s = Ok s1 ∧ labelled s1 d.
Proof.
  intros Ht.
  destruct (update_dot_ok cur d s t Ht) as (s1 & Hs1 & Htg1 & Hact1 & Hcur1 & _).
  exists s1. split; [done|]. exists t. split_and!.
  - by rewrite Htg1.
  - by rewrite Hcur1, Hact1.
  - rewrite (update_dot_label cur d s t s1 Ht Hs1). by rewrite Hact1.
Qed.

Lemma labelled_get s s' d : get s' d = get s d → labelled s d → labelled s' d.
Proof.
  intros Hg (t & Ht & Hc & Hl). exists t.
  unfold marker_target, marker_active, has_class, getAttribute in *.
  by rewrite Hg.
Qed.

Lemma update_dot_markers cur d s :
  markers_labelled s → markers_labelled (outcome_state (update_dot cur d s)).
Proof.
  intros Hs d' Hin Hdot.
  destruct (update_dot_frame cur d s) as (Htree & Hcls & Hget).
  rewrite Htree in Hin. rewrite Hcls in Hdot.
  pose proof (Hs d' Hin Hdot) as Hlab.
  destruct (decide (d' = d)) as [->|Hne].
  - destruct Hlab as (t & Ht & _).
    destruct (update_dot_labelled cur d s t Ht) as (s1 & -> & Hl1). done.
  - eapply labelled_get; [|exact Hlab]. by apply Hget.
Qed.

Lemma markers_labelled_callback cb s :
  markers_labelled s → markers_labelled (settle (run_callback cb s)).
Proof.
  intros Hs. destruct (decide (cb = CbUpdateNav)) as [->|Hne].
  - cbn [run_callback].
    apply (settle_invariant markers_labelled).
    + intros e s'. apply keeps_markers_labelled. km_solve.
    + apply (updateActiveNavigation_invariant markers_labelled); [|done].
      intros. by apply update_dot_markers.
  - eapply keeps_markers_labelled; [|exact Hs]. by apply keeps_markers_callback.
Qed.

Lemma markers_labelled_dispatch prm ev s :
  markers_labelled s → markers_labelled (dispatch prm ev s).
Proof.
  apply (dispatch_invariant prm _ (λ _, True)).
  - intros. by apply Forall_true.
  - intros l key s' _. apply keeps_markers_labelled, keeps_markers_handler.
  - intros n s'. apply keeps_markers_labelled. km_solve.
  - intros n s'. apply keeps_markers_labelled. km_solve.
  - intros n s'. apply keeps_markers_labelled. km_solve.
  - apply (fire_timer_invariant _ (λ _, True)).
    + intros. by apply Forall_true.
    + intros. by apply markers_labelled_callback.
    + intros id s'. apply keeps_markers_labelled. km_solve.
    + intros id due s'. apply keeps_markers_labelled. km_solve.
  - apply (run_frame_invariant _ (λ _, True)).
    + intros. by apply Forall_true.
    + intros. by apply markers_labelled_callback.
    + intros s'. apply keeps_markers_labelled. km_solve.
Qed.

(** The second loop over dots that all have a target labels each of
    them. *)
Lemma forEach_update_dot_labelled cur l s :
  Forall (λ d, is_Some (marker_target s d)) l →
  ∃ s', forEach (update_dot cur) l s = Ok s'
    ∧ tree s' = tree s
    ∧ (∀ n, has_class s' "nav-dot" n = has_class s "nav-dot" n)
    ∧ (∀ n, n ∉ l → get s' n = get s n)
    ∧ Forall (labelled s') l.
Proof.
  revert s. induction l as [|d l IH]; intros s Hall.
  - exists s. by split_and!.
  - apply Forall_cons in Hall as [[t Ht] Hall].
    destruct (update_dot_labelled cur d s t Ht) as (s1 & Hs1 & Hl1).
    destruct (update_dot_ok cur d s t Ht) as (s1' & Hs1' & Htg1 & _).
    assert (s1' = s1) as -> by congruence.
    destruct (update_dot_frame cur d s) as (Htree1 & Hcls1 & Hget1).
    rewrite Hs1 in Htree1, Hcls1, Hget1. cbn [outcome_state] in *.
    destruct (IH s1) as (s' & Hs' & Htree' & Hcls' & Hget' & Hl').
    { eapply Forall_impl; [exact Hall|]. cbn. intros n. by rewrite Htg1. }
    exists s'. cbn [forEach]. rewrite Hs1. cbn [bind]. split_and!.
    + done.
    + congruence.
    + intros n. by rewrite Hcls', Hcls1.
    + intros n Hn. apply not_elem_of_cons in Hn as [Hnd Hnl].
      by rewrite Hget', Hget1.
    + constructor; [|done].
      destruct (decide (d ∈ l)) as [Hin|Hnin].
      * by apply (proj1 (Forall_forall _ _) Hl').
      * eapply labelled_get; [|exact Hl1]. by apply Hget'.
Qed.

Lemma page_load_markers_labelled prm els :
  Forall (λ d, is_Some (marker_target (page els) d))
    (querySelectorAll (page els) ".nav-dot") →
  markers_labelled (page_load prm (page els)).
Proof.
  intros Hall. pose proof (sound_page els Hall) as Hs. unfold page_load.
  destruct (sound_script _ Hs) as (s1 & -> & Hs1).
  rewrite on_DOMContentLoaded_unfold.
  pose proof (sound_setup prm s1 Hs1) as H3.
  revert H3. generalize (initParallaxEffect prm (initTypingEffect prm
                           (addSkipToContentLink s1))).
  clear. intros s3 (Hd & _). unfold finish_loading, updateActiveNavigation.
  destruct (forEach_update_dot_labelled (current_section s3)
              (querySelectorAll s3 ".nav-dot") s3)
    as (s4 & -> & Htree & Hcls & _ & Hlab).
  { apply Forall_forall. intros d Hin. apply Hd.
    rewrite querySelectorAll_class in Hin. by apply list_elem_of_filter in Hin as [? _]. }
  cbn [bind settle]. apply (keeps_markers_labelled s4); [km_solve|].
  intros d Hin Hdot. apply (proj1 (Forall_forall _ _) Hlab).
  rewrite querySelectorAll_class. apply list_elem_of_filter.
  rewrite <- Hcls, <- Htree. done.
Qed.

(** The dots always say what they show: on a page whose navigation dots
    all name a section, after any sequence of events every dot has
    aria-current "true" exactly when it carries the class active, and its
    aria-label is "Current section: X" when it is active and "Navigate to X
    section" when not, X being its capitalised target. *)
Theorem markers_say_what_they_show (prm : bool) (els : list (nat * element))
    (evs : list event) :
  Forall (λ d, is_Some (marker_target (page els) d))
    (querySelectorAll (page els) ".nav-dot") →
  let s := run prm evs (page_load prm (page els)) in
  ∀ d, d ∈ querySelectorAll s ".nav-dot" →
    ∃ t, marker_target s d = Some t
      ∧ getAttribute s d "aria-current"
        = Some (if marker_active s d then "true" else "false")
      ∧ getAttribute s d "aria-label"
        = Some (if marker_active s d then "Current section: " +:+ capitalize t
                else "Navigate to " +:+ capitalize t +:+ " section").
Proof.
  intros Hall s d Hin.
  assert (Hs : markers_labelled s).
  { apply (fold_left_preserves markers_labelled).
    - intros. by apply markers_labelled_dispatch.
    - by apply page_load_markers_labelled. }
  rewrite querySelectorAll_class in Hin. apply list_elem_of_filter in Hin as [Hdot Hin].
  destruct (Hs d Hin Hdot) as (t & Ht & Hc & Hl). exists t.
  split_and!; [done..|]. rewrite Hl. unfold marker_label. by destruct (marker_active s d).
Qed.

Lemma markers_say_what_they_show_witness :
  let s := run false [EvScroll 900; EvElapse 16; EvTimer 2; EvClick 9]
             (page_load false portfolio) in
  ∃ t, marker_target s 9 = Some t
    ∧ getAttribute s 9 "aria-current"
      = Some (if marker_active s 9 then "true" else "false")
    ∧ getAttribute s 9 "aria-label"
      = Some (if marker_active s 9 then "Current section: " +:+ capitalize t
              else "Navigate to " +:+ capitalize t +:+ " section").
Proof.
  apply (markers_say_what_they_show false _
           [EvScroll 900; EvElapse 16; EvTimer 2; EvClick 9]).
  - compute_done.
  - vm_compute. set_solver.
Defined.

(** ** Navigating to a section that exists (lines 34-52) *)

Lemma getElementById_in_tree s id n : getElementById s id = Some n → n ∈ tree s.
Proof.
  unfold getElementById. case_bool_decide; [done|]. intros Hf.
  apply find_some in Hf as [Hin _]. by apply list_elem_of_In.
Qed.

(** A dot whose section exists: the section is announced in a new live
    region, scrolled to with the behaviour the motion preference asks for,
    made focusable with tabindex -1 and focused; 100 ms later the clean-up
    timer takes the tabindex away, whatever tabindex the section had
    before. *)
Theorem navigate_focuses_section (prm : bool) (s : state) (dot : nat) (id : string)
    (sec : nat) :
  getAttribute s dot "data-section" = Some id →
  getElementById s id = Some sec →
  nodes_below s → timers_below s → reloaded s = false →
  let s1 := navigateToSection prm dot s in
  let a := next_node s in
  activeElement s1 = Some sec
  ∧ getAttribute s1 sec "tabindex" = Some "-1"
  ∧ scroll_log s1 = scroll_log s ++ [(sec, if prm then "auto" else "smooth")]
  ∧ textContent s1 a = "Navigating to " +:+ id +:+ " section"
  ∧ getAttribute s1 a "aria-live" = Some "polite"
  ∧ el_parent (get s1 a) = Some body
  ∧ getAttribute (run prm [EvElapse 100; EvTimer (Pos.succ (next_timer s))] s1)
      sec "tabindex" = None.
Proof.
  intros Hattr Hsec Hn Ht Hr. cbv zeta.
  assert (Hlt : sec < next_node s).
  { apply getElementById_in_tree in Hsec.
    by apply (proj1 (Forall_forall _ _) Hn sec). }
  unfold navigateToSection. rewrite Hattr. cbv zeta.
  change (ToString (Some id)) with id. rewrite Hsec.
  pose proof (announce_effect ("Navigating to " +:+ id +:+ " section") s Hn) as Han.
  assert (Hsl : scroll_log (announceToScreenReader
                              ("Navigating to " +:+ id +:+ " section") s)
                = scroll_log s) by reflexivity.
  revert Han Hsl.
  generalize (announceToScreenReader ("Navigating to " +:+ id +:+ " section") s).
  intros sa (_ & Htx & Hp & Hlive & Htm & Hnn & Hnt & Hnow & Hrel & _ & Hfr) Hsl.
  unfold textContent, getAttribute, get in *.
  split_and!.
  - done.
  - unfold_prims. st_heap. by rewrite lookup_insert_eq.
  - cbn. by rewrite Hsl.
  - unfold_prims. st_heap.
  - unfold_prims. st_heap.
  - unfold_prims. st_heap.
  - assert (Hfind : List.find (λ t, bool_decide (tm_id t = Pos.succ (next_timer s)))
                      ((timers s ++ [Timer (next_timer s) false 1000 (now s + 1000)
                                       (CbRemoveAnnouncement (next_node s))])
                       ++ Timer (Pos.succ (next_timer s)) false 100 (now s + 100)
                            (CbRemoveTabindex sec) :: [])
                    = Some (Timer (Pos.succ (next_timer s)) false 100 (now s + 100)
                              (CbRemoveTabindex sec))).
    { apply find_timer_below; [|done].
      apply Forall_app_2; [|by repeat constructor; cbn; lia].
      eapply Forall_impl; [exact Ht|]. cbn. intros. lia. }
    assert (Htm1 : timers (setTimeout (CbRemoveTabindex sec) 100
                     (focus sec (setAttribute sec "tabindex" "-1"
                        (scrollIntoView sec (if prm then "auto" else "smooth") sa)))).2
                   = timers sa ++ [Timer (next_timer sa) false 100 (now sa + 100)
                                     (CbRemoveTabindex sec)]) by reflexivity.
    assert (Hrel1 : reloaded (setTimeout (CbRemoveTabindex sec) 100
                     (focus sec (setAttribute sec "tabindex" "-1"
                        (scrollIntoView sec (if prm then "auto" else "smooth") sa)))).2
                    = reloaded sa) by reflexivity.
    assert (Hnow1 : now (setTimeout (CbRemoveTabindex sec) 100
                     (focus sec (setAttribute sec "tabindex" "-1"
                        (scrollIntoView sec (if prm then "auto" else "smooth") sa)))).2
                    = now sa) by reflexivity.
    revert Htm1 Hrel1 Hnow1.
    generalize (setTimeout (CbRemoveTabindex sec) 100
                     (focus sec (setAttribute sec "tabindex" "-1"
                        (scrollIntoView sec (if prm then "auto" else "smooth") sa)))).2.
    intros s1 Htm1 Hrel1 Hnow1.
    cbn [run fold_left].
    rewrite dispatch_elapse by congruence.
    rewrite dispatch_timer by (cbn; congruence).
    unfold fire_timer. cbn [timers set_now now].
    rewrite Htm1, Htm, Hnt, Hnow1, Hnow, Hfind.
    cbn [tm_due tm_repeat tm_cb run_callback settle].
    rewrite (proj2 (Nat.leb_le _ _)) by lia.
    unfold removeAttribute, clearTimer, upd. cbn [heap set_heap set_timers set_now].
    rewrite lookup_total_insert_eq. cbn [el_attrs with_attrs].
    by rewrite lookup_delete_eq.
Qed.

Lemma navigate_focuses_section_witness :
  let s := page_load false portfolio in
  getAttribute
    (run false [EvElapse 100; EvTimer (Pos.succ (next_timer s))]
       (navigateToSection false 7 s)) 2 "tabindex" = None.
Proof.
  refine (proj2 (proj2 (proj2 (proj2 (proj2 (proj2
            (navigate_focuses_section false (page_load false portfolio) 7 "about" 2
               _ _ _ _ _))))))).
  - vm_compute. reflexivity.
  - vm_compute. reflexivity.
  - compute_done.
  - compute_done.
  - vm_compute. reflexivity.
Defined.

(** ** The typing effect runs to its end (lines 156-173) *)

(** The effect is set up and waits for its start-up timeout. *)
Definition typing_armed (sub : nat) (text : string) (btn : nat) (s : state) : Prop :=
  typing s = Some (TypingEnv sub text btn 0 None)
  ∧ timers s = [Timer 1 false 1000 1000 CbStartTyping]
  ∧ next_timer s = 2%positive
  ∧ now s = 0
  ∧ reloaded s = false
  ∧ el_text (get s sub) = "".

(** typeWriter has run [i] times: the interval timer 2 is the only timer, due
    within 50 ms, and the subtitle shows [i] characters. *)
Definition typing_at (sub : nat) (text : string) (btn : nat) (i : nat) (s : state) : Prop :=
  typing s = Some (TypingEnv sub text btn i (Some 2%positive))
  ∧ (∃ due, timers s = [Timer 2 true 50 due CbTypeWriter] ∧ due ≤ now s + 50)
  ∧ reloaded s = false
  ∧ el_text (get s sub) = String.substring 0 i text.

(** Nothing is scheduled before initTypingEffect runs. *)
Definition unscheduled (s : state) : Prop :=
  typing s = None ∧ timers s = [] ∧ next_timer s = 1%positive ∧ now s = 0
  ∧ reloaded s = false.

Ltac us_solve :=
  unfold unscheduled; intros *; intros (Hty & Ht & Hnt & Hnow & Hr);
  body_cases; unfold_prims; cbn; by split_and!.

Lemma unscheduled_script s : unscheduled s → unscheduled (outcome_state (script s)).
Proof.
  intros Hs. unfold script.
  pose proof (forEach_preserves unscheduled init_nav_dot
                (querySelectorAll s ".nav-dot")
                ltac:(intros d s' _; us_solve) s Hs) as Hdots.
  destruct (forEach _ _ _) as [s1|e s1]; cbn [bind outcome_state] in *; [|done].
  apply (fold_left_preserves unscheduled).
  - intros c s' _. us_solve.
  - revert Hdots. us_solve.
Qed.

Lemma initTypingEffect_armed s env :
  unscheduled s → typing (initTypingEffect false s) = Some env →
  typing_armed (ty_subtitle env) (ty_text env) (ty_skipButton env)
    (initTypingEffect false s).
Proof.
  intros (Hty & Ht & Hnt & Hnow & Hr). unfold initTypingEffect.
  destruct (querySelector s ".subtitle") as [sub|]; [|congruence].
  cbn [negb]. intros Henv.
  assert (env = TypingEnv sub (textContent s sub) (next_node s) 0 None) as ->.
  { revert Henv. unfold_prims. cbn. congruence. }
  clear Henv. unfold typing_armed, get. unfold_prims.
  cbn [ty_subtitle ty_text ty_skipButton].
  split_and!; [done | cbn; by rewrite Ht, Hnt, Hnow | cbn; by rewrite Hnt
              | done | done | st_heap].
Qed.

Lemma armed_finish_loading sub text btn s :
  typing_armed sub text btn s →
  typing_armed sub text btn (settle (finish_loading (initParallaxEffect false s))).
Proof.
  intros Hs.
  assert (Hp : typing_armed sub text btn (initParallaxEffect false s)) by exact Hs.
  revert Hp. generalize (initParallaxEffect false s). clear. intros s.
  intros (Hty & Ht & Hnt & Hnow & Hr & Htx). unfold finish_loading.
  destruct (updateActiveNavigation_frame s) as [Hshell Hfr].
  destruct (Hfr sub) as (Htx' & _ & _).
  destruct (updateActiveNavigation s) as [s'|e s'];
    cbn [bind settle outcome_state] in *; unfold typing_armed, get in *;
    rewrite Hshell; cbn; split_and!; try done; congruence.
Qed.

Lemma page_load_armed els env :
  typing (page_load false (page els)) = Some env →
  typing_armed (ty_subtitle env) (ty_text env) (ty_skipButton env)
    (page_load false (page els)).
Proof.
  assert (H0 : unscheduled (page els)) by done.
  unfold page_load. pose proof (unscheduled_script _ H0) as H1.
  destruct (script (page els)) as [s1|e s1]; cbn [outcome_state] in *.
  2:{ destruct H1 as [Hty _]. cbn [typing set_uncaught]. by rewrite Hty. }
  rewrite on_DOMContentLoaded_unfold.
  assert (H2 : unscheduled (addSkipToContentLink s1)) by (revert H1; us_solve).
  pose proof (λ env, initTypingEffect_armed (addSkipToContentLink s1) env H2) as H3.
  generalize dependent (initTypingEffect false (addSkipToContentLink s1)).
  intros s3 H3 Henv.
  rewrite typing_finish_loading, typing_initParallaxEffect in Henv.
  by apply armed_finish_loading, H3.
Qed.

(** The start-up timeout, fired when due, starts the interval timer. *)
Lemma armed_starts sub text btn s :
  typing_armed sub text btn s →
  typing_at sub text btn 0 (run false [EvElapse 1000; EvTimer 1] s).
Proof.
  intros (Hty & Ht & Hnt & Hnow & Hr & Htx). cbn [run fold_left].
  rewrite dispatch_elapse by done. rewrite dispatch_timer by done.
  unfold fire_timer. cbn [timers set_now now]. rewrite Ht, Hnow.
  cbn [List.find tm_id].
  rewrite (bool_decide_eq_true_2 (1%positive = 1%positive)) by done.
  cbn [tm_due tm_repeat tm_cb run_callback settle Nat.add].
  rewrite (proj2 (Nat.leb_le _ _)) by lia.
  unfold startTyping, typing_at, get. unfold_prims. cbn. rewrite Ht, Hty, Hnt, Hnow.
  cbn. split_and!; try done.
  - eexists. split; [reflexivity|]. lia.
  - rewrite Htx. by destruct text.
Qed.

(** One tick while characters are left types the next one. *)
Lemma typing_tick sub text btn i s :
  typing_at sub text btn i s → i < String.length text →
  typing_at sub text btn (S i) (run false [EvElapse 50; EvTimer 2] s).
Proof.
  intros (Hty & (due & Ht & Hdue) & Hr & Htx) Hi. cbn [run fold_left].
  rewrite dispatch_elapse by done. rewrite dispatch_timer by done.
  unfold fire_timer. cbn [timers set_now now]. rewrite Ht.
  cbn [List.find tm_id].
  rewrite (bool_decide_eq_true_2 (2%positive = 2%positive)) by done.
  cbn [tm_due tm_repeat tm_cb tm_delay run_callback].
  rewrite (proj2 (Nat.leb_le _ _)) by lia.
  unfold typeWriter. cbn [typing set_timers set_now]. rewrite Hty.
  cbn [ty_i ty_text ty_subtitle]. rewrite (proj2 (Nat.ltb_lt _ _)) by done.
  cbn [settle]. unfold typing_at, textContent, get. unfold_prims.
  cbn [typing set_typing set_timers set_now upd set_heap timers now reloaded heap].
  rewrite Hty, Ht. cbn. split_and!; try done.
  - eexists. split; [reflexivity|]. lia.
  - rewrite lookup_total_insert_eq. cbn. by rewrite Htx, substring_succ.
Qed.

Lemma typing_ticks sub text btn k : ∀ i s,
  typing_at sub text btn i s → i + k = String.length text →
  typing_at sub text btn (String.length text)
    (run false (concat (replicate k [EvElapse 50; EvTimer 2%positive])) s).
Proof.
  induction k as [|k IH]; intros i s Hs Hk.
  - cbn. by replace (String.length text) with i by lia.
  - cbn [replicate concat app]. apply (IH (S i)); [|lia].
    apply (typing_tick sub text btn i s Hs). lia.
Qed.

(** The tick after the last character ends the effect. *)
Lemma typing_last_tick sub text btn s :
  typing_at sub text btn (String.length text) s →
  let s' := run false [EvElapse 50; EvTimer 2] s in
  textContent s' sub = text
  ∧ getAttribute s' sub "aria-live" = None
  ∧ el_parent (get s' btn) = None
  ∧ timers s' = []
  ∧ uncaught s' = uncaught s.
Proof.
  intros (Hty & (due & Ht & Hdue) & Hr & Htx). cbn [run fold_left].
  rewrite dispatch_elapse by done. rewrite dispatch_timer by done.
  unfold fire_timer. cbn [timers set_now now]. rewrite Ht.
  cbn [List.find tm_id].
  rewrite (bool_decide_eq_true_2 (2%positive = 2%positive)) by done.
  cbn [tm_due tm_repeat tm_cb tm_delay run_callback].
  rewrite (proj2 (Nat.leb_le _ _)) by lia.
  unfold typeWriter. cbn [typing set_timers set_now]. rewrite Hty.
  cbn [ty_i ty_text ty_subtitle ty_skipButton ty_interval].
  rewrite (proj2 (Nat.ltb_ge _ _)) by done.
  rewrite substring_full in Htx.
  unfold textContent, getAttribute, get in *.
  match goal with
  | |- context [removeSkipButton ?b ?x] =>
      destruct (removeSkipButton_cases b x) as [[Hp ->] | [Hp ->]]
  end; cbn [bind settle]; unfold get in *; unfold_prims.
  - split_and!; [st_heap | st_heap; by rewrite lookup_delete_eq | | | done].
    + revert Hp. st_heap.
    + cbn. by rewrite Ht.
  - split_and!; [st_heap | st_heap; by rewrite lookup_delete_eq | | | done].
    + st_heap.
    + cbn. by rewrite Ht.
Qed.

(** Left alone, the typing effect ends by itself: the start-up timeout
    fired after 1000 ms starts the interval timer, one tick every 50 ms
    types one character, and the tick after the last character stops the
    timer, takes the skip control out of the page and removes aria-live
    from the subtitle, which then shows the whole captured text. *)
Theorem typing_runs_to_completion (els : list (nat * element)) :
  let s0 := page_load false (page els) in
  ∀ env0, typing s0 = Some env0 →
  let ticks := concat (replicate (S (String.length (ty_text env0)))
                         [EvElapse 50; EvTimer 2%positive]) in
  let s := run false ([EvElapse 1000; EvTimer 1%positive] ++ ticks) s0 in
  textContent s (ty_subtitle env0) = ty_text env0
  ∧ getAttribute s (ty_subtitle env0) "aria-live" = None
  ∧ el_parent (get s (ty_skipButton env0)) = None
  ∧ timers s = [].
Proof.
  intros s0 env0 Henv ticks s.
  pose proof (page_load_armed els env0 Henv) as Harmed. fold s0 in Harmed.
  subst s ticks. clearbody s0.
  unfold run. rewrite fold_left_app. fold (run false [EvElapse 1000; EvTimer 1%positive] s0).
  pose proof (armed_starts _ _ _ s0 Harmed) as H0.
  revert H0. generalize (run false [EvElapse 1000; EvTimer 1%positive] s0).
  clear Harmed. intros s1 H1.
  replace (S (String.length (ty_text env0))) with (String.length (ty_text env0) + 1)
    by lia.
  rewrite replicate_add, concat_app, fold_left_app.
  pose proof (typing_ticks _ _ _ (String.length (ty_text env0)) 0 s1 H1 eq_refl) as H2.
  unfold run in H2. revert H2.
  generalize (fold_left (λ s ev, dispatch false ev s)
                (concat (replicate (String.length (ty_text env0))
                           [EvElapse 50; EvTimer 2%positive])) s1).
  clear H1. intros s2 H2.
  destruct (typing_last_tick _ _ _ s2 H2) as (Htx & Hlive & Hp & Ht & _).
  cbn [replicate concat app]. by split_and!.
Qed.

Lemma typing_runs_to_completion_witness :
  let s := run false ([EvElapse 1000; EvTimer 1%positive]
                      ++ concat (replicate 3 [EvElapse 50; EvTimer 2%positive]))
             (page_load false portfolio) in
  textContent s 11 = "Hi"
  ∧ getAttribute s 11 "aria-live" = None
  ∧ el_parent (get s 15) = None
  ∧ timers s = [].
Proof.
  apply (typing_runs_to_completion _ (TypingEnv 11 "Hi" 15 0 None)).
  vm_compute. reflexivity.
Defined.

(** ** A dot without a target stops the script (line 13) *)

(** A page with a dot that names no section between two that do. *)
Definition page_mixed_dots : state :=
  page [ (0, blank_element "body"); (1, section_el "about" 800);
         (5, subtitle_el "Hi");
         (2, dot_el "about");
         (3, Element "div" ∅ ["nav-dot"] "" ∅ 0 0 (Some body));
         (4, dot_el "about") ].

(** A navigation dot without a data-section attribute stops the script at
    line 13 with a TypeError: the dots before it are set up, the dot itself
    has its role and tabindex but no label and no listener, and nothing
    after line 13 happens: the dots after it, the scroll throttle, the
    project cards and the DOMContentLoaded listener are never reached, so
    the page gets no skip link, no typing effect and no timer. *)
Theorem load_stops_at_dot_without_target (prm : bool) (els : list (nat * element))
    (l1 l2 : list nat) (d : nat) :
  querySelectorAll (page els) ".nav-dot" = l1 ++ d :: l2 →
  Forall (λ x, is_Some (marker_target (page els) x)) l1 →
  marker_target (page els) d = None →
  let s := page_load prm (page els) in
  uncaught s = [TypeError]
  ∧ listeners s = l1 ≫= dot_listeners
  ∧ tree s = tree (page els)
  ∧ typing s = None
  ∧ timers s = []
  ∧ getAttribute s d "role" = Some "button"
  ∧ getAttribute s d "aria-label" = getAttribute (page els) d "aria-label".
Proof.
  intros Hdots Hall Hd. cbv zeta. unfold page_load, script.
  rewrite Hdots, forEach_app.
  destruct (forEach_init_nav_dot_returns l1 (page els) Hall)
    as (s1 & -> & Hl1 & (Htree1 & _ & Hty1 & Htm1 & Hun1 & Htg1) & Hg1).
  cbn [bind forEach].
  destruct (init_nav_dot_throws d s1) as (s2 & -> & Hl2 & Hd2 & Hrole & _ & Hlab).
  { by rewrite Htg1. }
  destruct Hd2 as (Htree2 & _ & Hty2 & Htm2 & Hun2 & _).
  cbn [bind]. cbn [uncaught listeners tree typing timers set_uncaught].
  unfold getAttribute, get in *. cbn [heap set_uncaught].
  rewrite Hun2, Hun1, Hl2, Hl1, Htree2, Htree1, Hty2, Hty1, Htm2, Htm1, Hrole, Hlab.
  split_and!; try done.
  assert (Hnin : d ∉ l1).
  { intros Hin. pose proof (proj1 (Forall_forall _ _) Hall d Hin) as [t Ht].
    congruence. }
  unfold get in Hg1. by rewrite Hg1.
Qed.

Lemma load_stops_at_dot_without_target_witness :
  let s := page_load false page_mixed_dots in
  uncaught s = [TypeError]
  ∧ listeners s = [2] ≫= dot_listeners
  ∧ tree s = tree page_mixed_dots
  ∧ typing s = None
  ∧ timers s = []
  ∧ getAttribute s 3 "role" = Some "button"
  ∧ getAttribute s 3 "aria-label" = getAttribute page_mixed_dots 3 "aria-label".
Proof.
  apply (load_stops_at_dot_without_target false _ [2] [4] 3).
  - vm_compute. reflexivity.
  - compute_done.
  - vm_compute. reflexivity.
Defined.

(** ** What reduced motion leaves alone *)

(** The elements below [N] have the text [tx] and, outline apart, the inline
    style [c]; the typing effect is not set up; the listeners of the skip
    link are on elements from [N] on. *)
Definition still (N : nat) (c : nat → string → option string) (tx : nat → string)
    (s : state) : Prop :=
  N ≤ next_node s
  ∧ typing s = None
  ∧ Forall (λ l, ls_handler l = HSkipLinkFocus ∨ ls_handler l = HSkipLinkBlur
                 → ∃ n, ls_target l = TNode n ∧ N ≤ n) (listeners s)
  ∧ ∀ n, n < N →
      el_text (get s n) = tx n
      ∧ ∀ p, p ≠ "outline" → p ≠ "outlineOffset" → el_style (get s n) !! p = c n p.

Ltac sl_solve :=
  unfold still, get; intros *; intros (Hnn & Hnone & Hls & Hst);
  body_cases; try congruence; unfold_prims;
  (split; [cbn; lia|]); (split; [cbn; rewrite ?Hnone; done|]);
  (split;
   [ cbn; solve_Forall;
     try (cbn; intros [?|?];
          first [ discriminate | eexists; (split; [reflexivity|lia]) ])
   | ]);
  let n := fresh "n" in let Hn := fresh "Hn" in
  intros n Hn; destruct (Hst n Hn) as [Htx Hsty];
  (split; [ st_heap
          | let p := fresh "p" in let Hp1 := fresh "Hp" in let Hp2 := fresh "Hp" in
            intros p Hp1 Hp2; specialize (Hsty p Hp1 Hp2); revert Hsty; st_heap ]).

Lemma still_announce N c tx msg s :
  still N c tx s → still N c tx (announceToScreenReader msg s).
Proof. sl_solve. Qed.

Lemma still_navigate N c tx el s :
  still N c tx s → still N c tx (navigateToSection true el s).
Proof.
  intros Hs. unfold navigateToSection.
  destruct (getElementById _ _) as [sec|]; [|done]. cbv zeta.
  pose proof (still_announce N c tx
                ("Navigating to " +:+ ToString (getAttribute s el "data-section")
                 +:+ " section") s Hs) as Hs1.
  revert Hs1. generalize (announceToScreenReader
                ("Navigating to " +:+ ToString (getAttribute s el "data-section")
                 +:+ " section") s).
  clear Hs. intros s1. sl_solve.
Qed.

Lemma still_handler N c tx l key s :
  (ls_handler l = HSkipLinkFocus ∨ ls_handler l = HSkipLinkBlur
   → ∃ n, ls_target l = TNode n ∧ N ≤ n) →
  still N c tx s →
  still N c tx (settle (run_handler true (ls_handler l) (ls_target l) key s)).
Proof.
  destruct l as [t e h]. cbn [ls_handler ls_target]. intros Hlink.
  destruct h; cbn [run_handler settle]; try apply still_navigate.
  - destruct (_ || _); [apply still_navigate | done].
  - sl_solve.
  - sl_solve.
  - sl_solve.
  - sl_solve.
  - sl_solve.
  - sl_solve.
  - sl_solve.
  - destruct Hlink as (m & -> & Hm); [by left|]. cbn [this_of]. sl_solve.
  - destruct Hlink as (m & -> & Hm); [by right|]. cbn [this_of]. sl_solve.
  - sl_solve.
Qed.

Lemma still_callback N c tx cb s :
  cb ≠ CbParallaxFrame →
  still N c tx s → still N c tx (settle (run_callback cb s)).
Proof.
  intros Hcb Hs. apply (settle_invariant (still N c tx)); [sl_solve|].
  destruct cb; cbn [run_callback]; try done; try (revert Hs; sl_solve).
  apply (updateActiveNavigation_invariant (still N c tx)); [sl_solve | done].
Qed.

Lemma still_dispatch bg N c tx ev s :
  parallax_free bg s ∧ still N c tx s →
  parallax_free bg (dispatch true ev s) ∧ still N c tx (dispatch true ev s).
Proof.
  apply (dispatch_invariant true (λ s, parallax_free bg s ∧ still N c tx s)
           (λ l, ls_handler l ≠ HParallaxScroll
                 ∧ (ls_handler l = HSkipLinkFocus ∨ ls_handler l = HSkipLinkBlur
                    → ∃ n, ls_target l = TNode n ∧ N ≤ n))).
  - intros s' [(Hl & _) (_ & _ & Hl' & _)].
    apply Forall_forall. intros l Hin. split.
    + by apply (proj1 (Forall_forall _ _) Hl).
    + by apply (proj1 (Forall_forall _ _) Hl').
  - intros l key s' [Hne Hlink] [Hpf Hst]. split.
    + by apply pf_handler.
    + by apply still_handler.
  - intros n s' [Hpf Hst]. split; [revert Hpf; pf_start; pf_finish | revert Hst; sl_solve].
  - intros n s' [Hpf Hst]. split; [revert Hpf; pf_start; pf_finish | revert Hst; sl_solve].
  - intros n s' [Hpf Hst]. split; [revert Hpf; pf_start; pf_finish | revert Hst; sl_solve].
  - apply (fire_timer_invariant (λ s, parallax_free bg s ∧ still N c tx s)
             (λ cb, cb ≠ CbParallaxFrame)).
    + by intros s' [(_ & _ & Ht & _) _].
    + intros cb s' Hcb [Hpf Hst]. split; [by apply pf_callback | by apply still_callback].
    + intros id s' [Hpf Hst].
      split; [revert Hpf; pf_start; pf_finish | revert Hst; sl_solve].
    + intros id due s' [Hpf Hst]. split; [|revert Hst; sl_solve].
      revert Hpf. pf_start. pf_finish.
      apply Forall_fmap. eapply Forall_impl; [exact Ht|].
      cbn. intros t' Ht'. by destruct (bool_decide _).
  - intros s' [Hpf Hst]. unfold run_frame.
    destruct Hpf as (Hl & Hr & Ht & Hb & Hn). rewrite Hr. cbn [fold_left].
    split; [unfold parallax_free, background, body in *; pf_finish
           | revert Hst; sl_solve].
Qed.

Lemma still_page_load N c tx s : still N c tx s → still N c tx (page_load true s).
Proof. apply (page_load_invariant true (still N c tx)); sl_solve. Qed.

Lemma still_page els :
  still (next_node (page els)) (λ n p, el_style (get (page els) n) !! p)
    (λ n, el_text (get (page els) n)) (page els).
Proof. unfold still. by split_and!. Qed.

(** Under reduced motion the script animates nothing: on any page, after
    any sequence of events, no element of the parsed page has had its text
    changed, nor any property of its inline style other than the outline
    and outline offset the focus listeners of the project cards set; in
    particular no transform, no transition and no background position. *)
Theorem reduced_motion_changes_outline_only (els : list (nat * element))
    (evs : list event) (n : nat) (p : string) :
  n < next_node (page els) → p ≠ "outline" → p ≠ "outlineOffset" →
  let s := run true evs (page_load true (page els)) in
  el_style (get s n) !! p = el_style (get (page els) n) !! p
  ∧ textContent s n = textContent (page els) n.
Proof.
  intros Hn Hp1 Hp2 s.
  assert (Hs : parallax_free (background (page els)) s
               ∧ still (next_node (page els))
                   (λ n p, el_style (get (page els) n) !! p)
                   (λ n, el_text (get (page els) n)) s).
  { apply (fold_left_preserves
             (λ s, parallax_free (background (page els)) s
                   ∧ still (next_node (page els))
                       (λ n p, el_style (get (page els) n) !! p)
                       (λ n, el_text (get (page els) n)) s)).
    - intros ev s' _. apply still_dispatch.
    - split; [apply pf_page_load, pf_page|].
      apply still_page_load, still_page. }
  clearbody s. destruct Hs as [_ (_ & _ & _ & Hst)].
  destruct (Hst n Hn) as [Htx Hsty]. split; [by apply Hsty | done].
Qed.

Lemma reduced_motion_changes_outline_only_witness :
  let s := run true [EvFocus 12; EvScroll 900; EvFrame; EvClick 7; EvMouseEnter 13]
             (page_load true portfolio) in
  el_style (get s 12) !! "transform" = el_style (get portfolio 12) !! "transform"
  ∧ textContent s 12 = textContent portfolio 12.
Proof.
  apply (reduced_motion_changes_outline_only _
           [EvFocus 12; EvScroll 900; EvFrame; EvClick 7; EvMouseEnter 13]
           12 "transform").
  - compute_done.
  - done.
  - done.
Defined.
